(** * Zetamac problem-sheet fixer: a shallow embedding of [fix_problem_sheet.py]

    The development follows the program: the text primitives of the
    interpreter that the program calls (strings as sequences of code points,
    [str.split], [str.strip], [int], the regular-expression engine restricted
    to the constructs of [QUESTION_RE], [json.loads]), then the program's own
    tables and its three functions [parse_question],
    [extract_session_records] and [build_problem_sheet_rows], then the
    properties. *)

From Stdlib Require Import String Ascii DecimalString.
From Stdlib Require DecimalPos Sorted.
From Stdlib Require Import ZArith List Lia Bool.
Import ListNotations.
Open Scope Z_scope.

(** ** Strings and exceptions of the interpreter *)

(** A Python [str] is a sequence of Unicode code points. *)
Definition str := list Z.

(** ASCII literals of the source, written as Rocq strings. *)
Definition lit (s : string) : str :=
  map (fun a => Z.of_N (N_of_ascii a)) (list_ascii_of_string s).

Fixpoint str_eqb (s t : str) : bool :=
  match s, t with
  | [], [] => true
  | c :: s', d :: t' => (c =? d) && str_eqb s' t'
  | _, _ => false
  end.

(** The exceptions the program can meet. [JSONDecodeError] is the decoder's
    error on a text that is not JSON; [ValueError] carries its message: that
    of the program's own [raise], or that of the interpreter on a numeral
    with too many digits; [RecursionError] is the interpreter's error when
    too many calls are open. *)
Inductive exn :=
| ValueError (msg : string)
| JSONDecodeError
| AttributeError
| TypeError
| IndexError
| RecursionError.

Inductive result (A : Type) :=
| Ok (a : A)
| Raise (e : exn).
Arguments Ok {A} a.
Arguments Raise {A} e.

Definition bind {A B} (m : result A) (f : A -> result B) : result B :=
  match m with
  | Ok a => f a
  | Raise e => Raise e
  end.

Notation "x <- m ;; k" := (bind m (fun x => k))
  (at level 61, m at next level, right associativity).

(** ** Character classes of the interpreter's Unicode database *)

(** [str.isspace], [str.strip()] without argument and the pattern [\s] share
    one set of code points. *)
Definition is_space (c : Z) : bool :=
  ((9 <=? c) && (c <=? 13)) || ((28 <=? c) && (c <=? 32))
  || (c =? 133) || (c =? 160) || (c =? 5760)
  || ((8192 <=? c) && (c <=? 8202))
  || (c =? 8232) || (c =? 8233) || (c =? 8239) || (c =? 8287) || (c =? 12288).

(** The code points of the digit zero of every script that has decimal digits
    (general category Nd, version 14.0 of the Unicode database); the nine
    code points after each are its digits one to nine. *)
Definition decimal_zeros : list Z :=
  [48; 1632; 1776; 1984; 2406; 2534; 2662; 2790; 2918; 3046; 3174; 3302;
   3430; 3558; 3664; 3792; 3872; 4160; 4240; 6112; 6160; 6470; 6608; 6784;
   6800; 6992; 7088; 7232; 7248; 42528; 43216; 43264; 43472; 43504; 43600;
   44016; 65296; 66720; 68912; 69734; 69872; 69942; 70096; 70384; 70736;
   70864; 71248; 71360; 71472; 71904; 72016; 72784; 73040; 73120; 92768;
   92864; 93008; 120782; 120792; 120802; 120812; 120822; 123200; 123632;
   125264; 130032].

Fixpoint decimal_in (zeros : list Z) (c : Z) : option Z :=
  match zeros with
  | [] => None
  | z :: zeros' =>
      if (z <=? c) && (c <? z + 10) then Some (c - z) else decimal_in zeros' c
  end.

(** The decimal value of a code point, when it is a decimal digit. *)
Definition unicode_decimal (c : Z) : option Z := decimal_in decimal_zeros c.

(** [str.isdecimal] on one character, and the pattern [\d]. *)
Definition is_decimal (c : Z) : bool :=
  match unicode_decimal c with Some _ => true | None => false end.

(** ** [int(s)] on a string *)

(** The C library's [isspace] in the C locale, which the integer parser uses
    on the ASCII text it is given. *)
Definition is_ascii_space (c : Z) : bool :=
  ((9 <=? c) && (c <=? 13)) || (c =? 32).

Definition is_ascii_digit (c : Z) : bool := (48 <=? c) && (c <=? 57).

(** First step of [int]: every non-ASCII space becomes a blank and every
    decimal digit its ASCII digit; any other non-ASCII character makes the
    conversion fail. *)
Definition to_ascii_char (c : Z) : option Z :=
  if c <? 127 then Some c
  else if is_space c then Some 32
  else match unicode_decimal c with
       | Some d => Some (48 + d)
       | None => None
       end.

Fixpoint to_ascii (s : str) : option str :=
  match s with
  | [] => Some []
  | c :: s' =>
      match to_ascii_char c, to_ascii s' with
      | Some a, Some t => Some (a :: t)
      | _, _ => None
      end
  end.

Fixpoint drop_while (p : Z -> bool) (s : str) : str :=
  match s with
  | c :: s' => if p c then drop_while p s' else s
  | [] => []
  end.

(** The digit scan of the integer parser: digits and single underscores
    between them. It returns the value, the number of digits and the rest. *)
Fixpoint scan_digits (s : str) (prev_underscore : bool) (acc : Z) (digits : nat)
  : option (Z * nat * str) :=
  match s with
  | c :: s' =>
      if is_ascii_digit c then scan_digits s' false (10 * acc + (c - 48)) (S digits)
      else if c =? 95 then
        if prev_underscore then None else scan_digits s' true acc digits
      else if prev_underscore then None else Some (acc, digits, s)
  | [] => if prev_underscore then None else Some (acc, digits, [])
  end.

(** The most digits that a numeral may have for [int] to read it and that
    [str] prints: [sys.get_int_max_str_digits()], which the program leaves at
    the interpreter's default. Every digit counts, leading zeros too;
    signs, underscores and whitespace do not. *)
Definition int_max_str_digits : nat := 4300.

(** [int(s)] in base ten; [None] stands for [ValueError], which is raised
    for a text that is not a numeral and for a numeral of more than
    [int_max_str_digits] digits. *)
Definition py_int (s : str) : option Z :=
  match to_ascii s with
  | None => None
  | Some t =>
      let t := drop_while is_ascii_space t in
      let '(sign, t) :=
        match t with
        | c :: t' =>
            if c =? 43 then (1, t') else if c =? 45 then (-1, t') else (1, t)
        | [] => (1, t)
        end in
      match t with
      | [] => None
      | c :: _ =>
          if c =? 95 then None
          else
            match scan_digits t false 0 0 with
            | Some (v, S n, rest) =>
                if (int_max_str_digits <? S n)%nat then None
                else
                  match drop_while is_ascii_space rest with
                  | [] => Some (sign * v)
                  | _ :: _ => None
                  end
            | _ => None
            end
      end
  end.

(** [str(n)] for an integer. [str] has the same limit of
    [int_max_str_digits] digits; the program prints only integers that [int]
    has read, which are within the limit, and positions in a list. *)
Definition str_of_int (n : Z) : str := lit (NilZero.string_of_int (Z.to_int n)).

(** ** The regular-expression engine, for the constructs of [QUESTION_RE] *)

(** The parsed form of a pattern: one character of a set, a greedy repetition
    of a set ([min] is 0 for [*] and 1 for [+]), a numbered group and a
    sequence. *)
Inductive regex :=
| In_ (cls : Z -> bool)
| MaxRepeat (min : nat) (cls : Z -> bool)
| Group (n : nat) (r : regex)
| Seq (r1 r2 : regex).

(** The groups of a match in progress: group number and matched text. *)
Definition groups := list (nat * str).

Fixpoint group (m : groups) (n : nat) : option str :=
  match m with
  | [] => None
  | (k, s) :: m' => if Nat.eqb k n then Some s else group m' n
  end.

(** Greedy repetition with backtracking: take as many characters of the set
    as there are, and give characters back one by one while the rest of the
    pattern ([k]) fails. *)
Fixpoint repeat_greedy {A} (cls : Z -> bool) (min : nat) (s : str)
  (k : str -> option A) : option A :=
  match s with
  | c :: s' =>
      if cls c then
        match repeat_greedy cls (Nat.pred min) s' k with
        | Some r => Some r
        | None => match min with O => k s | S _ => None end
        end
      else match min with O => k s | S _ => None end
  | [] => match min with O => k [] | S _ => None end
  end.

Fixpoint match_re (r : regex) (s : str) (g : groups)
  (k : str -> groups -> option groups) : option groups :=
  match r with
  | In_ cls =>
      match s with
      | c :: s' => if cls c then k s' g else None
      | [] => None
      end
  | MaxRepeat min cls => repeat_greedy cls min s (fun rest => k rest g)
  | Group n r' =>
      match_re r' s g
        (fun rest g' =>
           k rest ((n, firstn (length s - length rest) s) :: g'))
  | Seq r1 r2 => match_re r1 s g (fun rest g' => match_re r2 rest g' k)
  end.

(** [pattern.fullmatch(s)]: the whole string must be consumed. *)
Definition fullmatch (r : regex) (s : str) : option groups :=
  match_re r s [] (fun rest g => match rest with [] => Some g | _ :: _ => None end).

(** ** The program's tables *)

(** The operator set of [QUESTION_RE]: + - U+2212 U+00D7 x X * U+00F7 / *)
Definition is_op_symbol (c : Z) : bool :=
  (c =? 43) || (c =? 45) || (c =? 8722) || (c =? 215) || (c =? 120)
  || (c =? 88) || (c =? 42) || (c =? 247) || (c =? 47).

Declare Scope regex_scope.
Delimit Scope regex_scope with regex.
Notation "r1 ';;;' r2" := (Seq r1 r2) (at level 60, right associativity) : regex_scope.

(** [\s*(\d+)\s*([+\-−×xX*÷/])\s*(\d+)\s*] *)
Definition QUESTION_RE : regex :=
  (MaxRepeat 0 is_space ;;; Group 1 (MaxRepeat 1 is_decimal) ;;;
   MaxRepeat 0 is_space ;;; Group 2 (In_ is_op_symbol) ;;;
   MaxRepeat 0 is_space ;;; Group 3 (MaxRepeat 1 is_decimal) ;;;
   MaxRepeat 0 is_space)%regex.

(** A dict with string keys, as the list of its items. *)
Fixpoint dict_get {V} (d : list (str * V)) (key : str) : option V :=
  match d with
  | [] => None
  | (k, v) :: d' => if str_eqb k key then Some v else dict_get d' key
  end.

Definition OP_SYMBOL_TO_NAME : list (str * str) :=
  [ ([43], lit "add");
    ([45], lit "sub");
    ([8722], lit "sub");
    ([215], lit "mul");
    ([120], lit "mul");
    ([88], lit "mul");
    ([42], lit "mul");
    ([247], lit "div");
    ([47], lit "div") ].

Definition OP_TYPE_TO_NAME : list (str * str) :=
  [ (lit "addition", lit "add");
    (lit "subtraction", lit "sub");
    (lit "multiplication", lit "mul");
    (lit "division", lit "div") ].

(** Truth value of an optional string: [None] and the empty string are false. *)
Definition truthy_opt_str (o : option str) : bool :=
  match o with
  | Some (_ :: _) => true
  | _ => false
  end.

(** ** [parse_question] *)

(** Every group of [QUESTION_RE] takes part in every match, so the three
    groups are strings; [None] is the function's [return None]. *)
Definition parse_question (question : str) : option (str * Z * Z) :=
  match fullmatch QUESTION_RE question with
  | None => None
  | Some m =>
      match group m 1, group m 2, group m 3 with
      | Some a_str, Some op_sym, Some b_str =>
          let op := dict_get OP_SYMBOL_TO_NAME op_sym in
          if negb (truthy_opt_str op) then None
          else
            match op, py_int a_str, py_int b_str with
            | Some op, Some a_val, Some b_val => Some (op, a_val, b_val)
            | _, _, _ => None
            end
      | _, _, _ => None
      end
  end.

(** ** Text primitives used by the record extractor *)

(** [s.startswith(prefix)] *)
Fixpoint startswith (s prefix : str) : bool :=
  match prefix, s with
  | [], _ => true
  | p :: prefix', c :: s' => (c =? p) && startswith s' prefix'
  | _ :: _, [] => false
  end.

(** [s.find(sub)], counted from position [i] of the whole string. *)
Fixpoint find_from (s sub : str) (i : Z) : Z :=
  if startswith s sub then i
  else match s with
       | [] => -1
       | _ :: s' => find_from s' sub (i + 1)
       end.

Definition find (s sub : str) : Z := find_from s sub 0.

(** [s.rfind(sub)], counted from position [i] of the whole string. *)
Fixpoint rfind_from (s sub : str) (i : Z) : Z :=
  match s with
  | [] => if startswith [] sub then i else -1
  | _ :: s' =>
      let later := rfind_from s' sub (i + 1) in
      if later =? -1 then (if startswith s sub then i else -1) else later
  end.

Definition rfind (s sub : str) : Z := rfind_from s sub 0.

(** [s[lo:hi]] and [s[lo:]] for bounds that are not negative. *)
Definition slice (s : str) (lo hi : Z) : str :=
  skipn (Z.to_nat lo) (firstn (Z.to_nat hi) s).

Definition slice_from (s : str) (lo : Z) : str := skipn (Z.to_nat lo) s.

Definition len {A} (l : list A) : Z := Z.of_nat (length l).

(** [s.replace(c, "")] for a one-character [c]. *)
Definition remove_char (c : Z) (s : str) : str :=
  filter (fun d => negb (d =? c)) s.

(** [s.split(sep)] for a separator that is not empty: [skip] counts the
    characters of a separator just found that are still to be passed over,
    [cur] is the piece being read. *)
Fixpoint split_go (sep s : str) (skip : nat) (cur : str) : list str :=
  match s with
  | [] => [cur]
  | c :: s' =>
      match skip with
      | S skip' => split_go sep s' skip' cur
      | O =>
          if startswith s sep then cur :: split_go sep s' (length sep - 1) []
          else split_go sep s' 0 (cur ++ [c])
      end
  end.

Definition split (s sep : str) : list str := split_go sep s 0 [].

Definition lstrip_by (p : Z -> bool) (s : str) : str := drop_while p s.
Definition rstrip_by (p : Z -> bool) (s : str) : str := rev (drop_while p (rev s)).

(** [s.strip()] *)
Definition strip (s : str) : str := rstrip_by is_space (lstrip_by is_space s).

Definition char_in (chars : str) (c : Z) : bool := existsb (Z.eqb c) chars.

(** [s.lstrip(chars)] and [s.rstrip(chars)] *)
Definition lstrip (s chars : str) : str := lstrip_by (char_in chars) s.
Definition rstrip (s chars : str) : str := rstrip_by (char_in chars) s.

Definition is_empty {A} (l : list A) : bool :=
  match l with [] => true | _ :: _ => false end.

(** ** Python values, as the JSON decoder builds them *)

(** A float is kept as the decimal number its literal denotes, before
    rounding to a double. *)
Inductive float_lit :=
| FNaN
| FInf (negative : bool)
| FDec (negative : bool) (mantissa : Z) (exp10 : Z).

#[warnings="-register-all"]
Inductive pyval :=
| PNone
| PBool (b : bool)
| PInt (n : Z)
| PFloat (f : float_lit)
| PStr (s : str)
| PList (items : list pyval)
| PDict (items : list (str * pyval)).

(** A float is false when it is zero: the literal rounds to zero when it is
    at most half of the smallest positive double, 2^-1075. *)
Definition float_truthy (f : float_lit) : bool :=
  match f with
  | FNaN | FInf _ => true
  | FDec _ m e =>
      if e <? 0 then 10 ^ (- e) <? m * 2 ^ 1075
      else 0 <? m
  end.

(** Truth value of a Python value. *)
Definition py_truthy (v : pyval) : bool :=
  match v with
  | PNone => false
  | PBool b => b
  | PInt n => negb (n =? 0)
  | PFloat f => float_truthy f
  | PStr s => negb (is_empty s)
  | PList l => negb (is_empty l)
  | PDict d => negb (is_empty d)
  end.

(** The items a [for] loop draws from a value: the elements of a list, the
    keys of a dict, the characters of a string; other values are not
    iterable. *)
Definition py_iter (v : pyval) : result (list pyval) :=
  match v with
  | PList l => Ok l
  | PDict d => Ok (map (fun kv => PStr (fst kv)) d)
  | PStr s => Ok (map (fun c => PStr [c]) s)
  | _ => Raise TypeError
  end.

(** [d[key] = v] on the items of a dict: a key that is present keeps its
    place and takes the new value. *)
Fixpoint dict_set {V} (d : list (str * V)) (key : str) (v : V) : list (str * V) :=
  match d with
  | [] => [(key, v)]
  | (k, w) :: d' => if str_eqb k key then (k, v) :: d' else (k, w) :: dict_set d' key v
  end.

(** [p.get(key, default)]: only a dict has the method. *)
Definition py_get (p : pyval) (key : str) (default : pyval) : result pyval :=
  match p with
  | PDict d => Ok match dict_get d key with Some v => v | None => default end
  | _ => Raise AttributeError
  end.

(** [l[i]] on a list, with its [IndexError]. *)
Definition index {A} (l : list A) (i : nat) : result A :=
  match nth_error l i with
  | Some a => Ok a
  | None => Raise IndexError
  end.

(** ** [json.loads]

    The decoder of the standard library, as its scanner reads a text from
    left to right and raises at the first thing it cannot take: a text that
    is not JSON ([JSONDecodeError]), an integer of more digits than [int]
    reads ([ValueError]), arrays and objects nested deeper than the calls
    that the interpreter leaves to the scanner ([RecursionError]). Where a
    value is expected and none starts, the scanner stops and the decoder
    raises its error once the scanner has returned; the other errors of the
    text are built inside the scanner, at the depth it has reached, which
    takes calls of its own. The fuel makes the recursion structural; it is
    taken from the length of the text and does not run out. *)
Module Json.

(** The interpreter's default limit on the calls that are open at one time,
    [sys.getrecursionlimit()], which the program does not change; and the
    calls that are open when the scanner starts on the text of a chunk in
    the program run as a script: the module, [main],
    [extract_session_records], [json.loads], the decoder's [decode] and
    [raw_decode], and the scanner. Every array and every object that the
    scanner enters is one more call. *)
Definition recursion_limit : nat := 1000.
Definition open_calls : nat := 7.
Definition max_nesting : nat := recursion_limit - open_calls.

(** The calls that building a [JSONDecodeError] takes: the class, its
    [__init__] and what that calls. *)
Definition error_calls : nat := 3.

(** The error of the scanner on a text that is not JSON, when [depth] more
    calls may be opened: without room for the calls that build it, the
    [JSONDecodeError] is replaced by a [RecursionError]. *)
Definition decode_error (depth : nat) : exn :=
  if (error_calls <=? depth)%nat then JSONDecodeError else RecursionError.

(** The error of [int] on the [digits] digits of a numeral that has too
    many. *)
Definition digits_error (digits : nat) : exn :=
  ValueError
    ("Exceeds the limit (4300 digits) for integer string conversion: value has "
     ++ NilZero.string_of_uint (Nat.to_uint digits)
     ++ " digits; use sys.set_int_max_str_digits() to increase the limit")%string.

Definition is_ws (c : Z) : bool :=
  (c =? 32) || (c =? 9) || (c =? 10) || (c =? 13).

Definition skip_ws (s : str) : str := drop_while is_ws s.

Fixpoint take_while (p : Z -> bool) (s : str) : str :=
  match s with
  | c :: s' => if p c then c :: take_while p s' else []
  | [] => []
  end.

Definition hex_digit (c : Z) : option Z :=
  if (48 <=? c) && (c <=? 57) then Some (c - 48)
  else if (97 <=? c) && (c <=? 102) then Some (c - 87)
  else if (65 <=? c) && (c <=? 70) then Some (c - 55)
  else None.

Definition hex4 (s : str) : option (Z * str) :=
  match s with
  | a :: b :: c :: d :: rest =>
      match hex_digit a, hex_digit b, hex_digit c, hex_digit d with
      | Some a, Some b, Some c, Some d =>
          Some (((a * 16 + b) * 16 + c) * 16 + d, rest)
      | _, _, _, _ => None
      end
  | _ => None
  end.

Definition simple_escape (c : Z) : option Z :=
  if c =? 34 then Some 34 else if c =? 92 then Some 92
  else if c =? 47 then Some 47 else if c =? 98 then Some 8
  else if c =? 102 then Some 12 else if c =? 110 then Some 10
  else if c =? 114 then Some 13 else if c =? 116 then Some 9
  else None.

Definition is_high_surrogate (c : Z) : bool := (55296 <=? c) && (c <=? 56319).
Definition is_low_surrogate (c : Z) : bool := (56320 <=? c) && (c <=? 57343).

(** The text of a string after its opening quote, up to the closing one. *)
Fixpoint scan_string (fuel : nat) (s acc : str) : option (str * str) :=
  match fuel with
  | O => None
  | S fuel' =>
      match s with
      | [] => None
      | 34 :: rest => Some (acc, rest)
      | 92 :: 117 :: rest =>
          match hex4 rest with
          | None => None
          | Some (c, rest1) =>
              match rest1 with
              | 92 :: 117 :: rest2 =>
                  if is_high_surrogate c && (6 <? len rest1) then
                    match hex4 rest2 with
                    | None => None
                    | Some (c2, rest3) =>
                        if is_low_surrogate c2 then
                          scan_string fuel' rest3
                            (acc ++ [65536 + (c - 55296) * 1024 + (c2 - 56320)])
                        else scan_string fuel' rest1 (acc ++ [c])
                    end
                  else scan_string fuel' rest1 (acc ++ [c])
              | _ => scan_string fuel' rest1 (acc ++ [c])
              end
          end
      | 92 :: e :: rest =>
          match simple_escape e with
          | Some c => scan_string fuel' rest (acc ++ [c])
          | None => None
          end
      | [92] => None
      | c :: rest =>
          if c <=? 31 then None else scan_string fuel' rest (acc ++ [c])
      end
  end.

Definition digits_value (ds : str) : Z :=
  fold_left (fun acc c => 10 * acc + (c - 48)) ds 0.

(** A number: an optional minus, then 0 or a run of digits that does not
    start with 0, then optionally a dot with digits and optionally an
    exponent; it is an integer when it has neither fraction nor exponent,
    and its digits are then read by [int]. *)
Definition scan_number (s : str) : result (pyval * str) :=
  let '(neg, s1) := match s with 45 :: s' => (true, s') | _ => (false, s) end in
  let int_part :=
    match s1 with
    | 48 :: _ => Some [48]
    | c :: _ => if is_ascii_digit c then Some (take_while is_ascii_digit s1) else None
    | [] => None
    end in
  match int_part with
  | None => Raise JSONDecodeError
  | Some ip =>
      let s2 := skipn (length ip) s1 in
      let '(frac, s3) :=
        match s2 with
        | 46 :: d :: _ =>
            if is_ascii_digit d then
              let fr := take_while is_ascii_digit (tl s2) in
              (Some fr, skipn (S (length fr)) s2)
            else (None, s2)
        | _ => (None, s2)
        end in
      let exp_of (neg_e : bool) (t : str) :=
        let ds := take_while is_ascii_digit t in
        match ds with
        | [] => None
        | _ :: _ =>
            Some ((if neg_e then -1 else 1) * digits_value ds, skipn (length ds) t)
        end in
      let '(ex, s4) :=
        match s3 with
        | c :: t =>
            if (c =? 101) || (c =? 69) then
              match
                match t with
                | 43 :: t' => exp_of false t'
                | 45 :: t' => exp_of true t'
                | _ => exp_of false t
                end
              with
              | Some (e, rest) => (Some e, rest)
              | None => (None, s3)
              end
            else (None, s3)
        | [] => (None, s3)
        end in
      match frac, ex with
      | None, None =>
          if (int_max_str_digits <? length ip)%nat
          then Raise (digits_error (length ip))
          else Ok (PInt ((if neg then -1 else 1) * digits_value ip), s4)
      | _, _ =>
          let fr := match frac with Some fr => fr | None => [] end in
          let e := match ex with Some e => e | None => 0 end in
          Ok (PFloat (FDec neg (digits_value (ip ++ fr)) (e - len fr)), s4)
      end
  end.

(** The three constants that are not numerals are looked up by a call of
    the decoder's [parse_constant], which is one more call. *)
Definition parse_constant {A} (depth : nat) (r : A) : result A :=
  match depth with
  | O => Raise RecursionError
  | S _ => Ok r
  end.

(** One value. [depth] is the number of calls that may still be opened,
    one for every array and object that is entered, one inside the other. *)
Fixpoint scan_once (fuel depth : nat) (s : str) : result (pyval * str) :=
  match fuel with
  | O => Raise JSONDecodeError
  | S fuel' =>
      match s with
      | [] => Raise JSONDecodeError
      | 34 :: rest =>
          match scan_string (S (length rest)) rest [] with
          | Some (text, rest') => Ok (PStr text, rest')
          | None => Raise (decode_error depth)
          end
      | 123 :: rest =>
          match depth with
          | O => Raise RecursionError
          | S depth' =>
              match skip_ws rest with
              | 125 :: rest' => Ok (PDict [], rest')
              | rest' => scan_object fuel' depth' rest' []
              end
          end
      | 91 :: rest =>
          match depth with
          | O => Raise RecursionError
          | S depth' =>
              match skip_ws rest with
              | 93 :: rest' => Ok (PList [], rest')
              | rest' => scan_array fuel' depth' rest' []
              end
          end
      | _ =>
          if startswith s (lit "null") then Ok (PNone, skipn 4 s)
          else if startswith s (lit "true") then Ok (PBool true, skipn 4 s)
          else if startswith s (lit "false") then Ok (PBool false, skipn 5 s)
          else if startswith s (lit "NaN") then
            parse_constant depth (PFloat FNaN, skipn 3 s)
          else if startswith s (lit "Infinity") then
            parse_constant depth (PFloat (FInf false), skipn 8 s)
          else if startswith s (lit "-Infinity") then
            parse_constant depth (PFloat (FInf true), skipn 9 s)
          else scan_number s
      end
  end

(** The members of an object, from the quote of a key on. *)
with scan_object (fuel depth : nat) (s : str) (acc : list (str * pyval))
  : result (pyval * str) :=
  match fuel with
  | O => Raise JSONDecodeError
  | S fuel' =>
      match s with
      | 34 :: rest =>
          match scan_string (S (length rest)) rest [] with
          | None => Raise (decode_error depth)
          | Some (key, rest1) =>
              match skip_ws rest1 with
              | 58 :: rest2 =>
                  match scan_once fuel' depth (skip_ws rest2) with
                  | Raise e => Raise e
                  | Ok (v, rest3) =>
                      let acc' := dict_set acc key v in
                      match skip_ws rest3 with
                      | 125 :: rest4 => Ok (PDict acc', rest4)
                      | 44 :: rest4 => scan_object fuel' depth (skip_ws rest4) acc'
                      | _ => Raise (decode_error depth)
                      end
                  end
              | _ => Raise (decode_error depth)
              end
          end
      | _ => Raise (decode_error depth)
      end
  end

(** The elements of an array, from the first character of an element on. *)
with scan_array (fuel depth : nat) (s : str) (acc : list pyval)
  : result (pyval * str) :=
  match fuel with
  | O => Raise JSONDecodeError
  | S fuel' =>
      match scan_once fuel' depth s with
      | Raise e => Raise e
      | Ok (v, rest) =>
          match skip_ws rest with
          | 93 :: rest' => Ok (PList (acc ++ [v]), rest')
          | 44 :: rest' => scan_array fuel' depth (skip_ws rest') (acc ++ [v])
          | _ => Raise (decode_error depth)
          end
      end
  end.

(** [json.loads(s)] when [depth] more calls may be opened by the scanner. *)
Definition loads_within (depth : nat) (s : str) : result pyval :=
  match s with
  | 65279 :: _ => Raise JSONDecodeError
  | _ =>
      match scan_once (2 * length s + 2) depth (skip_ws s) with
      | Ok (v, rest) =>
          match skip_ws rest with
          | [] => Ok v
          | _ :: _ => Raise JSONDecodeError
          end
      | Raise e => Raise e
      end
  end.

(** [json.loads(json_str)] as [extract_session_records] calls it. *)
Definition loads (s : str) : result pyval := loads_within max_nesting s.

End Json.

(** ** The record extractor *)

Definition SESSION_HEADER : str :=
  lit "Timestamp,ClientId,URL,Duration,Score,ProblemsJson,Mode,MappedDuration,Score_120".

(** The dict the extractor builds for one record, with its nine keys. *)
Record SessionRecord := {
  timestamp : str;
  client_id : str;
  url : str;
  duration : option Z;
  score : option Z;
  problems : pyval;
  mode : str;
  mapped_duration : option Z;
  score_120 : option Z
}.

(** The local [to_int]: [int(s)], and [None] on any exception. *)
Definition to_int (s : str) : option Z := py_int s.

(** [while len(suffix_fields) < 3: suffix_fields.append("")]; every turn
    adds one field, so three turns are the most the loop takes. *)
Fixpoint pad_fields (turns : nat) (suffix_fields : list str) : list str :=
  match turns with
  | O => suffix_fields
  | S turns' =>
      if len suffix_fields <? 3 then pad_fields turns' (suffix_fields ++ [[]])
      else suffix_fields
  end.

(** The bounds of the ProblemsJson text of a chunk: the first [[] and the
    last []], when both are there and in this order. *)
Definition json_bounds (rec : str) : option (Z * Z) :=
  let lb := find rec [91] in
  let rb := rfind rec [93] in
  if (lb =? -1) || (rb =? -1) || (rb <? lb) then None else Some (lb, rb).

Definition prefix_of (rec : str) (lb : Z) : str := rstrip (slice rec 0 lb) (lit ", ").
Definition json_str_of (rec : str) (lb rb : Z) : str := slice rec lb (rb + 1).
Definition suffix_of (rec : str) (rb : Z) : str := lstrip (slice_from rec (rb + 1)) (lit ", ").

(** [[f.strip() for f in prefix.split(",")]] *)
Definition prefix_fields_of (prefix : str) : list str := map strip (split prefix [44]).

(** [[f.strip() for f in suffix.split(",") if f.strip() != ""]] *)
Definition suffix_fields_of (suffix : str) : list str :=
  filter (fun f => negb (is_empty f)) (map strip (split suffix [44])).

(** The body of the loop over the chunks: [Ok None] is [continue],
    [Ok (Some r)] is [sessions.append(r)]. *)
Definition parse_record (json_loads : str -> result pyval) (rec : str)
  : result (option SessionRecord) :=
  if is_empty rec then Ok None
  else if startswith rec SESSION_HEADER then Ok None
  else
    match json_bounds rec with
    | None => Ok None
    | Some (lb, rb) =>
        let prefix := prefix_of rec lb in
        let json_str := json_str_of rec lb rb in
        let suffix := suffix_of rec rb in
        let prefix_fields := prefix_fields_of prefix in
        if len prefix_fields <? 5 then Ok None
        else
          timestamp <- index prefix_fields 0 ;;
          client_id <- index prefix_fields 1 ;;
          url <- index prefix_fields 2 ;;
          duration_str <- index prefix_fields 3 ;;
          score_str <- index prefix_fields 4 ;;
          problems <- json_loads json_str ;;
          let suffix_fields := pad_fields 3 (suffix_fields_of suffix) in
          mode <-
            (if 1 <=? len suffix_fields then index suffix_fields 0 else Ok []) ;;
          mapped_duration_str <-
            (if 2 <=? len suffix_fields then index suffix_fields 1 else Ok []) ;;
          score_120_str <-
            (if 3 <=? len suffix_fields then index suffix_fields 2 else Ok []) ;;
          Ok (Some {| timestamp := timestamp;
                      client_id := client_id;
                      url := url;
                      duration := to_int duration_str;
                      score := to_int score_str;
                      problems := problems;
                      mode := mode;
                      mapped_duration := to_int mapped_duration_str;
                      score_120 := to_int score_120_str |})
    end.

Fixpoint extract_loop (json_loads : str -> result pyval) (parts : list str)
  (sessions : list SessionRecord) : result (list SessionRecord) :=
  match parts with
  | [] => Ok sessions
  | rec :: parts' =>
      r <- parse_record json_loads rec ;;
      match r with
      | None => extract_loop json_loads parts' sessions
      | Some session => extract_loop json_loads parts' (sessions ++ [session])
      end
  end.

(** The chunks of the text after its header. *)
Definition record_parts (text : str) (idx : Z) : list str :=
  map strip (split (slice_from text (idx + len SESSION_HEADER)) (lit "<>")).

Definition extract_session_records (json_loads : str -> result pyval)
  (raw_text : str) : result (list SessionRecord) :=
  let text := remove_char 13 raw_text in
  let idx := find text SESSION_HEADER in
  if idx =? -1 then Raise (ValueError "Session header not found in input.")
  else extract_loop json_loads (record_parts text idx) [].

(** ** The row builder *)

Definition PROB_SHEET_HEADER : list str :=
  [ lit "Timestamp"; lit "ClientId"; lit "Operation"; lit "a"; lit "b"; lit "c";
    lit "Duration"; lit "Score"; lit "Mode"; lit "MappedDuration"; lit "URL";
    lit "ProblemIndex" ].

(** [str(x) if x is not None else ""] *)
Definition str_or_empty (x : option Z) : str :=
  match x with
  | Some n => str_of_int n
  | None => []
  end.

(** [OP_TYPE_TO_NAME.get(op_type)]: a list or a dict cannot be hashed, any
    other value that is not one of the keys gives [None]. *)
Definition op_type_name (op_type : pyval) : result (option str) :=
  match op_type with
  | PStr s => Ok (dict_get OP_TYPE_TO_NAME s)
  | PList _ | PDict _ => Raise TypeError
  | _ => Ok None
  end.

(** [op_type == "unknown"] *)
Definition is_unknown (op_type : pyval) : bool :=
  match op_type with
  | PStr s => str_eqb s (lit "unknown")
  | _ => false
  end.

(** [question.startswith("final-missed-")]: only a string has the method. *)
Definition is_final_missed (question : pyval) : result bool :=
  match question with
  | PStr s => Ok (startswith s (lit "final-missed-"))
  | _ => Raise AttributeError
  end.

(** [parse_question(question)]: the pattern accepts only a string. *)
Definition parse_question_of (question : pyval) : result (option (str * Z * Z)) :=
  match question with
  | PStr s => Ok (parse_question s)
  | _ => Raise TypeError
  end.

(** [str(x)] for an optional string and an optional integer. *)
Definition str_of_opt_str (x : option str) : str :=
  match x with
  | Some s => s
  | None => lit "None"
  end.

Definition str_of_opt_int (x : option Z) : str :=
  match x with
  | Some n => str_of_int n
  | None => lit "None"
  end.

Definition is_none {A} (x : option A) : bool :=
  match x with
  | Some _ => false
  | None => true
  end.

(** The body of the loop over the problems of one session: [Ok None] is
    [continue], [Ok (Some row)] is [rows.append(row)]. *)
Definition problem_row (session : SessionRecord) (idx : Z) (p : pyval)
  : result (option (list str)) :=
  question <- py_get p (lit "question") (PStr []) ;;
  op_type <- py_get p (lit "operationType") (PStr []) ;;
  skip <- (if is_unknown op_type then Ok true else is_final_missed question) ;;
  if skip : bool then Ok None
  else
    parsed <- parse_question_of question ;;
    let '(op_name_from_sym, a_val, b_val) :=
      match parsed with
      | Some (op, a, b) => (Some op, Some a, Some b)
      | None => (None, None, None)
      end in
    op_name <- op_type_name op_type ;;
    let op_name :=
      if negb (truthy_opt_str op_name) && truthy_opt_str op_name_from_sym
      then op_name_from_sym else op_name in
    if negb (truthy_opt_str op_name) || is_none a_val || is_none b_val
    then Ok None
    else
      Ok (Some [ timestamp session;
                 client_id session;
                 str_of_opt_str op_name;
                 str_of_opt_int a_val;
                 str_of_opt_int b_val;
                 [];
                 str_or_empty (duration session);
                 str_or_empty (score session);
                 mode session;
                 str_or_empty (mapped_duration session);
                 url session;
                 str_of_int idx ]).

(** [for idx, p in enumerate(problems, start=1)] *)
Fixpoint problems_loop (session : SessionRecord) (idx : Z) (ps : list pyval)
  (rows : list (list str)) : result (list (list str)) :=
  match ps with
  | [] => Ok rows
  | p :: ps' =>
      r <- problem_row session idx p ;;
      match r with
      | None => problems_loop session (idx + 1) ps' rows
      | Some row => problems_loop session (idx + 1) ps' (rows ++ [row])
      end
  end.

(** [for session in sessions], all sessions appending to the one [rows]. *)
Fixpoint sessions_loop (sessions : list SessionRecord) (rows : list (list str))
  : result (list (list str)) :=
  match sessions with
  | [] => Ok rows
  | session :: sessions' =>
      let problems :=
        if py_truthy (problems session) then problems session else PList [] in
      ps <- py_iter problems ;;
      rows' <- problems_loop session 1 ps rows ;;
      sessions_loop sessions' rows'
  end.

Definition build_problem_sheet_rows (sessions : list SessionRecord)
  : result (list (list str)) :=
  sessions_loop sessions [].

(** JSON texts of the examples are written with ['] for the quote character. *)
Definition jlit (s : string) : str :=
  map (fun c => if c =? 39 then 34 else c) (lit s).


(** ** The wording of the specification, for comparison with the code *)

(** The canonical name of an operator symbol. *)
Definition symbol_name (c : Z) : option str :=
  if c =? 43 then Some (lit "add")
  else if (c =? 45) || (c =? 8722) then Some (lit "sub")
  else if (c =? 215) || (c =? 120) || (c =? 88) || (c =? 42) then Some (lit "mul")
  else if (c =? 247) || (c =? 47) then Some (lit "div")
  else None.

(** The value of a digit, and of a run of digits read in base ten. *)
Definition digit_value (c : Z) : Z :=
  match unicode_decimal c with Some v => v | None => 0 end.

Definition integer_value (ds : str) : Z :=
  fold_left (fun acc c => 10 * acc + digit_value c) ds 0.

(** An integer token: a run of decimal digits that is not empty. *)
Definition integer_token (ds : str) : Prop :=
  ds <> [] /\ forallb is_decimal ds = true.

Definition whitespace (ws : str) : Prop := forallb is_space ws = true.

(** The whole of [q] is an integer, an operator symbol and an integer, with
    optional whitespace around each; [op], [a] and [b] are what it denotes. *)
Definition question_shape (q op : str) (a b : Z) : Prop :=
  exists ws1 d1 ws2 sym ws3 d2 ws4,
    q = ws1 ++ d1 ++ ws2 ++ [sym] ++ ws3 ++ d2 ++ ws4
    /\ whitespace ws1 /\ whitespace ws2 /\ whitespace ws3 /\ whitespace ws4
    /\ integer_token d1 /\ integer_token d2
    /\ symbol_name sym = Some op
    /\ a = integer_value d1 /\ b = integer_value d2.

(** The least number whose numeral has more digits than [int] reads. *)
Definition int_limit : Z := 10 ^ Z.of_nat int_max_str_digits.

(** An integer token that [int] reads: one of at most [int_max_str_digits]
    digits. *)
Definition readable_token (ds : str) : Prop :=
  integer_token ds /\ (length ds <= int_max_str_digits)%nat.

(** A question of the shape above whose two integers [int] reads. *)
Definition readable_question (q op : str) (a b : Z) : Prop :=
  exists ws1 d1 ws2 sym ws3 d2 ws4,
    q = ws1 ++ d1 ++ ws2 ++ [sym] ++ ws3 ++ d2 ++ ws4
    /\ whitespace ws1 /\ whitespace ws2 /\ whitespace ws3 /\ whitespace ws4
    /\ readable_token d1 /\ readable_token d2
    /\ symbol_name sym = Some op
    /\ a = integer_value d1 /\ b = integer_value d2.

(** What the proofs use of the table of zeros: every run of ten digits is
    the ASCII one or lies above the ASCII range, and holds neither a space
    nor an operator symbol. *)
Definition run_ok (z : Z) : bool :=
  ((z =? 48) || (127 <=? z))
  && forallb (fun i => negb (is_space (z + i)) && negb (is_op_symbol (z + i)))
       [0; 1; 2; 3; 4; 5; 6; 7; 8; 9].

(** The rows that the problems of one session give, each problem at its own
    position [idx], [idx + 1], ... of the list. *)
Fixpoint retained_rows (session : SessionRecord) (idx : Z) (ps : list pyval)
  : list (list str) :=
  match ps with
  | [] => []
  | p :: ps' =>
      match problem_row session idx p with
      | Ok (Some row) => row :: retained_rows session (idx + 1) ps'
      | _ => retained_rows session (idx + 1) ps'
      end
  end.

(** The row of a retained problem. *)
Definition output_row (session : SessionRecord) (idx : Z) (op : str) (a b : Z)
  : list str :=
  [ timestamp session; client_id session; op; str_of_int a; str_of_int b; [];
    str_or_empty (duration session); str_or_empty (score session);
    mode session; str_or_empty (mapped_duration session); url session;
    str_of_int idx ].

(** The ProblemIndex field of a row, the last of its twelve fields. *)
Definition problem_index (row : list str) : str := nth 11 row [].

(** A session and problem entries for the examples. *)
Definition session_of (problems : pyval) : SessionRecord :=
  {| timestamp := lit "2024-05-01 10:00:00";
     client_id := lit "client-1";
     url := lit "https://arithmetic.zetamac.com/game?key=a7220a92";
     duration := Some 120;
     score := None;
     problems := problems;
     mode := lit "Normal";
     mapped_duration := Some 120;
     score_120 := Some 45 |}.

Definition entry (question operationType : str) : pyval :=
  PDict [ (lit "question", PStr question);
          (lit "operationType", PStr operationType) ].

(** The text between the brackets of a chunk, when the chunk has a pair of
    brackets. *)
Definition bracketed (rec : str) : option str :=
  match json_bounds rec with
  | Some (lb, rb) => Some (json_str_of rec lb rb)
  | None => None
  end.

(** The text that the decoder is given for a chunk: the bracketed text of a
    chunk that is not empty, does not start with the header, has a pair of
    brackets and at least five prefix fields. Any other chunk is skipped
    before the decoder is called. *)
Definition decoder_input (rec : str) : option str :=
  if is_empty rec then None
  else if startswith rec SESSION_HEADER then None
  else
    match json_bounds rec with
    | None => None
    | Some (lb, rb) =>
        if len (prefix_fields_of (prefix_of rec lb)) <? 5 then None
        else Some (json_str_of rec lb rb)
    end.

(** The record that the fields of a chunk give; a field that is absent
    counts as the empty string. *)
Definition session_fields (prefix_fields suffix_fields : list str)
  (problems : pyval) : SessionRecord :=
  {| timestamp := nth 0 prefix_fields [];
     client_id := nth 1 prefix_fields [];
     url := nth 2 prefix_fields [];
     duration := to_int (nth 3 prefix_fields []);
     score := to_int (nth 4 prefix_fields []);
     problems := problems;
     mode := nth 0 suffix_fields [];
     mapped_duration := to_int (nth 1 suffix_fields []);
     score_120 := to_int (nth 2 suffix_fields []) |}.

(** The record of a chunk that the decoder accepts. *)
Definition session_of_chunk (rec : str) (problems : pyval) : option SessionRecord :=
  match json_bounds rec with
  | Some (lb, rb) =>
      Some (session_fields (prefix_fields_of (prefix_of rec lb))
              (suffix_fields_of (suffix_of rec rb)) problems)
  | None => None
  end.

(** A sample of the export, with carriage returns, a record without
    suffix and a fragment without brackets. *)
Definition sample_text : str :=
  lit "exported 2024-05-02" ++ [13; 10] ++ SESSION_HEADER ++ [13; 10]
  ++ jlit "2024-05-01 10:00:00,client-1,https://x/game,120,45,[{'question':'30 + 93','operationType':'addition'},{'question':'final-missed-3','operationType':'unknown'},{'question':'2 x 60'}],Normal,120,45<>"
  ++ [13; 10]
  ++ jlit "2024-05-01 10:05:00,client-1,https://x/game,abc,12,[{'question':'nope','operationType':'subtraction'}]<>no brackets here".

(** The number that the digits of a decimal numeral of the standard library
    denote after the digits read so far ([acc]). *)
Fixpoint uint_value (d : Decimal.uint) (acc : Z) : Z :=
  match d with
  | Decimal.Nil => acc
  | Decimal.D0 l => uint_value l (10 * acc + 0)
  | Decimal.D1 l => uint_value l (10 * acc + 1)
  | Decimal.D2 l => uint_value l (10 * acc + 2)
  | Decimal.D3 l => uint_value l (10 * acc + 3)
  | Decimal.D4 l => uint_value l (10 * acc + 4)
  | Decimal.D5 l => uint_value l (10 * acc + 5)
  | Decimal.D6 l => uint_value l (10 * acc + 6)
  | Decimal.D7 l => uint_value l (10 * acc + 7)
  | Decimal.D8 l => uint_value l (10 * acc + 8)
  | Decimal.D9 l => uint_value l (10 * acc + 9)
  end.

(** The four operation names of the sheet. *)
Definition operation_names : list str :=
  [lit "add"; lit "sub"; lit "mul"; lit "div"].

(** The number of entries that a session offers to the row builder. *)
Definition entry_count (session : SessionRecord) : nat :=
  match problems session with
  | PList l => length l
  | _ => 0%nat
  end.

(** The records of the chunks that reach the decoder and that it accepts,
    in the order of the chunks. *)
Fixpoint accepted_records (json_loads : str -> result pyval) (parts : list str)
  : list SessionRecord :=
  match parts with
  | [] => []
  | rec :: parts' =>
      match decoder_input rec with
      | Some j =>
          match json_loads j, json_bounds rec with
          | Ok v, Some (lb, rb) =>
              session_fields (prefix_fields_of (prefix_of rec lb))
                (suffix_fields_of (suffix_of rec rb)) v
              :: accepted_records json_loads parts'
          | _, _ => accepted_records json_loads parts'
          end
      | None => accepted_records json_loads parts'
      end
  end.

(** A field that the CSV writer can write as it is as far as commas and
    carriage returns go. *)
Definition plain_field (f : str) : Prop := ~ In 44 f /\ ~ In 13 f.

(** ** The sheet that [main] writes

    [writer = csv.writer(f)], [writer.writerow(PROB_SHEET_HEADER)],
    [writer.writerows(rows)]: the writer of the standard library with its
    default dialect (comma, double quote, minimal quoting, quotes doubled,
    lines ended by carriage return and line feed), on a file opened without
    newline translation. *)

(** The characters that make the writer quote a field. *)
Definition csv_special (c : Z) : bool :=
  (c =? 44) || (c =? 34) || (c =? 13) || (c =? 10).

Definition csv_double_quotes (f : str) : str :=
  flat_map (fun c => if c =? 34 then [34; 34] else [c]) f.

Definition csv_field (f : str) : str :=
  if existsb csv_special f then [34] ++ csv_double_quotes f ++ [34] else f.

Fixpoint csv_join (fields : list str) : str :=
  match fields with
  | [] => []
  | [f] => csv_field f
  | f :: fields' => csv_field f ++ [44] ++ csv_join fields'
  end.

(** [writer.writerow(row)]: a row of one empty field is written as two
    quotes. *)
Definition csv_writerow (row : list str) : str :=
  match row with
  | [[]] => [34; 34]
  | _ => csv_join row
  end ++ [13; 10].

(** [writer.writerows(rows)] *)
Definition csv_writerows (rows : list (list str)) : str :=
  flat_map csv_writerow rows.

(** The text of the output file. *)
Definition sheet_text (rows : list (list str)) : str :=
  csv_writerow PROB_SHEET_HEADER ++ csv_writerows rows.

(** A reader of the text that the writer gives, by which the written rows
    are recovered: where it stands in the text, the fields of the current
    row and the rows read so far. *)
Inductive csv_state :=
| AtField (first : bool)
| InPlain (cur : str)
| InQuoted (cur : str)
| QuoteSeen (cur : str)
| AfterCR.

Fixpoint csv_read (text : str) (st : csv_state) (fields : list str)
  (rows : list (list str)) : option (list (list str)) :=
  match text with
  | [] =>
      match st with
      | AtField true => Some rows
      | _ => None
      end
  | c :: text' =>
      match st with
      | AtField first =>
          if c =? 34 then csv_read text' (InQuoted []) fields rows
          else if c =? 44 then csv_read text' (AtField false) (fields ++ [[]]) rows
          else if c =? 13 then
            csv_read text' AfterCR []
              (rows ++ [if first then [] else fields ++ [[]]])
          else csv_read text' (InPlain [c]) fields rows
      | InPlain cur =>
          if c =? 44 then csv_read text' (AtField false) (fields ++ [cur]) rows
          else if c =? 13 then csv_read text' AfterCR [] (rows ++ [fields ++ [cur]])
          else csv_read text' (InPlain (cur ++ [c])) fields rows
      | InQuoted cur =>
          if c =? 34 then csv_read text' (QuoteSeen cur) fields rows
          else csv_read text' (InQuoted (cur ++ [c])) fields rows
      | QuoteSeen cur =>
          if c =? 34 then csv_read text' (InQuoted (cur ++ [34])) fields rows
          else if c =? 44 then csv_read text' (AtField false) (fields ++ [cur]) rows
          else if c =? 13 then csv_read text' AfterCR [] (rows ++ [fields ++ [cur]])
          else None
      | AfterCR =>
          if c =? 10 then csv_read text' (AtField true) [] rows else None
      end
  end.

(** ** [main]

    [main] after the parsing of its arguments, as a function of what the
    file system gives it: whether the input path exists and the text that
    [read_text] returns. Its result is its return value with what it left
    behind, or the exception that leaves it; failures of the file system
    itself are outside the model. *)
Inductive main_result :=
| Return2
| Return3 (e : exn)
| Return0 (written : str) (count : nat)
| Uncaught (e : exn).

(** Only the extraction stands in the [try]: an exception of the row
    builder leaves [main], before the output file is opened. [Return0]
    carries the text written to the output file and the number of rows that
    the last message prints. *)
Definition main (input_exists : bool) (raw_text : str) : main_result :=
  if negb input_exists then Return2
  else
    match extract_session_records Json.loads raw_text with
    | Raise e => Return3 e
    | Ok sessions =>
        match build_problem_sheet_rows sessions with
        | Raise e => Uncaught e
        | Ok rows => Return0 (sheet_text rows) (length rows)
        end
    end.

(** * Properties *)

#[local] Arguments Z.add : simpl never.
#[local] Arguments Z.sub : simpl never.
#[local] Arguments Z.mul : simpl never.
#[local] Arguments Z.leb : simpl never.
#[local] Arguments Z.ltb : simpl never.
#[local] Arguments Z.eqb : simpl never.
#[local] Arguments Z.of_nat : simpl never.
#[local] Arguments Z.to_nat : simpl never.

(** ** Character classes *)

Section CharacterClasses.

Lemma str_eqb_eq (s t : str) : str_eqb s t = true <-> s = t.
Proof.
  revert t; induction s as [|c s IH]; intros [|d t]; simpl; try easy.
  rewrite andb_true_iff, Z.eqb_eq, IH. split.
  - intros [-> ->]; reflexivity.
  - intros [= -> ->]; auto.
Qed.

Lemma str_eqb_refl (s : str) : str_eqb s s = true.
Proof. apply str_eqb_eq; reflexivity. Qed.

Lemma decimal_in_sound zeros c v :
  decimal_in zeros c = Some v ->
  exists z, In z zeros /\ z <= c < z + 10 /\ v = c - z.
Proof.
  induction zeros as [|z zeros IH]; simpl; [discriminate|].
  destruct ((z <=? c) && (c <? z + 10)) eqn:E.
  - intros [= <-]. exists z. apply andb_true_iff in E as [E1 E2]. 
    apply Z.leb_le in E1. apply Z.ltb_lt in E2. auto.
  - intros H. destruct (IH H) as (z' & Hin & Hr). exists z'; auto.
Qed.

Lemma decimal_zeros_ok : forallb run_ok decimal_zeros = true.
Proof. vm_compute. reflexivity. Qed.

Lemma in_run z c :
  z <= c < z + 10 -> In (c - z) [0; 1; 2; 3; 4; 5; 6; 7; 8; 9].
Proof. intros H. simpl. lia. Qed.

Lemma decimal_facts c v :
  unicode_decimal c = Some v ->
  0 <= v <= 9
  /\ (c < 127 -> v = c - 48)
  /\ is_space c = false /\ is_op_symbol c = false.
Proof.
  intros H. apply decimal_in_sound in H as (z & Hin & Hr & ->).
  pose proof decimal_zeros_ok as Hok.
  rewrite forallb_forall in Hok. specialize (Hok z Hin).
  unfold run_ok in Hok. apply andb_true_iff in Hok as [Hz Hall].
  rewrite forallb_forall in Hall. specialize (Hall (c - z) (in_run z c Hr)).
  replace (z + (c - z)) with c in Hall by lia.
  apply andb_true_iff in Hall as [Hs Ho].
  apply negb_true_iff in Hs, Ho.
  apply orb_true_iff in Hz.
  repeat split; auto; lia.
Qed.

Lemma is_decimal_value c :
  is_decimal c = true -> unicode_decimal c = Some (digit_value c).
Proof.
  unfold is_decimal, digit_value. destruct (unicode_decimal c); easy.
Qed.

Lemma decimal_not_space c : is_decimal c = true -> is_space c = false.
Proof. intros H. apply is_decimal_value, decimal_facts in H. tauto. Qed.

Lemma decimal_not_op c : is_decimal c = true -> is_op_symbol c = false.
Proof. intros H. apply is_decimal_value, decimal_facts in H. tauto. Qed.

Lemma op_cases c :
  is_op_symbol c = true ->
  c = 43 \/ c = 45 \/ c = 8722 \/ c = 215 \/ c = 120 \/ c = 88 \/ c = 42
  \/ c = 247 \/ c = 47.
Proof. unfold is_op_symbol. rewrite !orb_true_iff, !Z.eqb_eq. tauto. Qed.

Lemma op_not_space c : is_op_symbol c = true -> is_space c = false.
Proof.
  intros H. apply op_cases in H.
  repeat (destruct H as [-> | H]; [reflexivity|]). subst; reflexivity.
Qed.

Lemma op_symbol_table c :
  is_op_symbol c = true -> dict_get OP_SYMBOL_TO_NAME [c] = symbol_name c.
Proof.
  intros H. apply op_cases in H.
  repeat (destruct H as [-> | H]; [reflexivity|]). subst; reflexivity.
Qed.

Lemma symbol_name_op c op : symbol_name c = Some op -> is_op_symbol c = true.
Proof.
  unfold symbol_name, is_op_symbol.
  repeat match goal with |- context [?x =? ?y] => destruct (x =? y); simpl end;
    auto; discriminate.
Qed.

Lemma symbol_name_truthy c op : symbol_name c = Some op -> truthy_opt_str (Some op) = true.
Proof.
  unfold symbol_name.
  repeat match goal with |- context [if ?b then _ else _] => destruct b end;
    intros [= <-]; reflexivity.
Qed.

End CharacterClasses.

(** ** [int] on a run of decimal digits *)

Section IntOfDigits.

Lemma to_ascii_char_decimal c :
  is_decimal c = true -> to_ascii_char c = Some (48 + digit_value c).
Proof.
  intros H. pose proof (is_decimal_value c H) as Hv.
  destruct (decimal_facts _ _ Hv) as (Hr & Hlow & Hs & _).
  unfold to_ascii_char. destruct (c <? 127) eqn:E.
  - apply Z.ltb_lt in E. f_equal. rewrite (Hlow E). lia.
  - rewrite Hs, Hv. reflexivity.
Qed.

Lemma to_ascii_decimal ds :
  forallb is_decimal ds = true ->
  to_ascii ds = Some (map (fun c => 48 + digit_value c) ds).
Proof.
  induction ds as [|c ds IH]; simpl; [reflexivity|].
  intros H. apply andb_true_iff in H as [Hc Hds].
  rewrite (to_ascii_char_decimal c Hc), (IH Hds). reflexivity.
Qed.

Lemma digit_value_range c : is_decimal c = true -> 0 <= digit_value c <= 9.
Proof.
  intros H. apply is_decimal_value, decimal_facts in H. tauto.
Qed.

Lemma scan_digits_decimal ds acc n :
  forallb is_decimal ds = true ->
  scan_digits (map (fun c => 48 + digit_value c) ds) false acc n
  = Some (fold_left (fun acc c => 10 * acc + digit_value c) ds acc,
          (n + length ds)%nat, []).
Proof.
  revert acc n; induction ds as [|c ds IH]; intros acc n H; simpl.
  - f_equal. f_equal. f_equal. lia.
  - apply andb_true_iff in H as [Hc Hds].
    pose proof (digit_value_range c Hc) as Hr.
    unfold is_ascii_digit.
    replace (48 <=? 48 + digit_value c) with true by (symmetry; apply Z.leb_le; lia).
    replace (48 + digit_value c <=? 57) with true by (symmetry; apply Z.leb_le; lia).
    simpl. rewrite (IH _ _ Hds).
    replace (48 + digit_value c - 48) with (digit_value c) by lia.
    f_equal. f_equal. f_equal. lia.
Qed.

Lemma py_int_decimal ds :
  integer_token ds ->
  py_int ds
  = if (int_max_str_digits <? length ds)%nat then None
    else Some (integer_value ds).
Proof.
  intros [Hne Hall]. unfold py_int. rewrite (to_ascii_decimal ds Hall).
  destruct ds as [|c ds]; [congruence|].
  pose proof Hall as Hall'. simpl in Hall'.
  apply andb_true_iff in Hall' as [Hc _].
  pose proof (digit_value_range c Hc) as Hr.
  change (map (fun c0 => 48 + digit_value c0) (c :: ds))
    with ((48 + digit_value c) :: map (fun c0 => 48 + digit_value c0) ds).
  cbn [drop_while]. 
  replace (is_ascii_space (48 + digit_value c)) with false.
  2:{ symmetry. unfold is_ascii_space. apply orb_false_iff. split.
      - apply andb_false_iff. right. apply Z.leb_gt. lia.
      - apply Z.eqb_neq. lia. }
  replace (48 + digit_value c =? 43) with false by (symmetry; apply Z.eqb_neq; lia).
  replace (48 + digit_value c =? 45) with false by (symmetry; apply Z.eqb_neq; lia).
  replace (48 + digit_value c =? 95) with false by (symmetry; apply Z.eqb_neq; lia).
  change ((48 + digit_value c) :: map (fun c0 => 48 + digit_value c0) ds)
    with (map (fun c0 => 48 + digit_value c0) (c :: ds)).
  rewrite (scan_digits_decimal (c :: ds) 0 0 Hall).
  cbn [Nat.add length drop_while].
  destruct (int_max_str_digits <? S (length ds))%nat; [reflexivity|].
  unfold integer_value. f_equal. lia.
Qed.

Lemma py_int_readable ds :
  readable_token ds -> py_int ds = Some (integer_value ds).
Proof.
  intros [Ht Hl]. rewrite (py_int_decimal ds Ht).
  apply Nat.ltb_ge in Hl. rewrite Hl. reflexivity.
Qed.

Lemma py_int_too_long ds :
  integer_token ds -> (int_max_str_digits < length ds)%nat -> py_int ds = None.
Proof.
  intros Ht Hl. rewrite (py_int_decimal ds Ht).
  apply Nat.ltb_lt in Hl. rewrite Hl. reflexivity.
Qed.

End IntOfDigits.

(** ** The matcher on [QUESTION_RE] *)

Section Matcher.

Lemma repeat_greedy_inv {A} cls (k : str -> option A) r s :
  forall min,
  repeat_greedy cls min s k = Some r ->
  exists pre rest,
    s = pre ++ rest /\ forallb cls pre = true
    /\ (min <= length pre)%nat /\ k rest = Some r.
Proof.
  induction s as [|c s IH]; intros min H; simpl in H.
  - destruct min; [|discriminate].
    exists [], []. auto.
  - destruct (cls c) eqn:Ec.
    + destruct (repeat_greedy cls (Nat.pred min) s k) eqn:E.
      * injection H as ->.
        destruct (IH _ E) as (pre & rest & -> & Hall & Hmin & Hk).
        exists (c :: pre), rest. simpl. rewrite Ec, Hall.
        repeat split; auto. lia.
      * destruct min; [|discriminate].
        exists [], (c :: s). simpl. repeat split; auto.
    + destruct min; [|discriminate].
      exists [], (c :: s). simpl. repeat split; auto.
Qed.

(** When the text after a run does not go on with a character of the set,
    the greedy repetition takes the whole run, and the match that the rest of
    the pattern finds there is the result. *)
Lemma repeat_greedy_max {A} cls (k : str -> option A) r pre rest :
  forall min,
  forallb cls pre = true ->
  (min <= length pre)%nat ->
  (forall c t, rest = c :: t -> cls c = false) ->
  k rest = Some r ->
  repeat_greedy cls min (pre ++ rest) k = Some r.
Proof.
  induction pre as [|c pre IH]; intros min Hall Hmin Hrest Hk; simpl in *.
  - assert (min = 0%nat) as -> by lia.
    destruct rest as [|c t]; [exact Hk|].
    simpl. rewrite (Hrest c t eq_refl). exact Hk.
  - apply andb_true_iff in Hall as [Hc Hall]. rewrite Hc.
    rewrite (IH (Nat.pred min)); auto. lia.
Qed.

Lemma consumed_prefix (pre rest : str) :
  firstn (length (pre ++ rest) - length rest) (pre ++ rest) = pre.
Proof.
  rewrite length_app, Nat.add_sub.
  induction pre as [|c pre IH]; simpl.
  - reflexivity.
  - f_equal. exact IH.
Qed.

Lemma consumed_char (c : Z) (rest : str) :
  firstn (length (c :: rest) - length rest) (c :: rest) = [c].
Proof. exact (consumed_prefix [c] rest). Qed.

Lemma head_of_token (cls : Z -> bool) ds rest :
  ds <> [] -> forallb cls ds = true ->
  exists c t, ds ++ rest = c :: t /\ cls c = true.
Proof.
  destruct ds as [|c ds]; [congruence|]. simpl.
  intros _ H. apply andb_true_iff in H as [Hc _].
  exists c, (ds ++ rest). auto.
Qed.

Lemma fullmatch_question_sound q m :
  fullmatch QUESTION_RE q = Some m ->
  exists ws1 d1 ws2 sym ws3 d2 ws4,
    q = ws1 ++ d1 ++ ws2 ++ [sym] ++ ws3 ++ d2 ++ ws4
    /\ whitespace ws1 /\ whitespace ws2 /\ whitespace ws3 /\ whitespace ws4
    /\ integer_token d1 /\ integer_token d2
    /\ is_op_symbol sym = true
    /\ m = [(3%nat, d2); (2%nat, [sym]); (1%nat, d1)].
Proof.
  unfold fullmatch, QUESTION_RE. cbn [match_re]. intros H.
  apply repeat_greedy_inv in H as (ws1 & r1 & -> & Hws1 & _ & H).
  apply repeat_greedy_inv in H as (d1 & r2 & -> & Hd1 & Hn1 & H).
  rewrite consumed_prefix in H.
  apply repeat_greedy_inv in H as (ws2 & r3 & -> & Hws2 & _ & H).
  destruct r3 as [|sym r3]; [discriminate|].
  destruct (is_op_symbol sym) eqn:Hsym; [|discriminate].
  rewrite consumed_char in H.
  apply repeat_greedy_inv in H as (ws3 & r4 & -> & Hws3 & _ & H).
  apply repeat_greedy_inv in H as (d2 & r5 & -> & Hd2 & Hn2 & H).
  rewrite consumed_prefix in H.
  apply repeat_greedy_inv in H as (ws4 & r6 & -> & Hws4 & _ & H).
  destruct r6; [|discriminate]. injection H as <-.
  exists ws1, d1, ws2, sym, ws3, d2, ws4.
  rewrite app_nil_r. unfold whitespace, integer_token.
  repeat split; auto.
  - intros ->. simpl in Hn1. lia.
  - intros ->. simpl in Hn2. lia.
Qed.

Lemma fullmatch_question_complete ws1 d1 ws2 sym ws3 d2 ws4 :
  whitespace ws1 -> whitespace ws2 -> whitespace ws3 -> whitespace ws4 ->
  integer_token d1 -> integer_token d2 ->
  is_op_symbol sym = true ->
  fullmatch QUESTION_RE (ws1 ++ d1 ++ ws2 ++ [sym] ++ ws3 ++ d2 ++ ws4)
  = Some [(3%nat, d2); (2%nat, [sym]); (1%nat, d1)].
Proof.
  intros Hws1 Hws2 Hws3 Hws4 [Hn1 Hd1] [Hn2 Hd2] Hsym.
  assert (Hlen : forall ds : str, ds <> [] -> (1 <= length ds)%nat).
  { intros [|? ?]; [congruence|simpl; lia]. }
  unfold fullmatch, QUESTION_RE. cbn [match_re].
  apply repeat_greedy_max; auto; [lia| |].
  { intros c t E.
    destruct (head_of_token is_decimal d1 (ws2 ++ [sym] ++ ws3 ++ d2 ++ ws4) Hn1 Hd1)
      as (c' & t' & E' & Hc').
    rewrite E' in E. injection E as -> ->. apply decimal_not_space, Hc'. }
  apply repeat_greedy_max; auto.
  { intros c t E. destruct ws2 as [|w ws2]; simpl in E.
    - injection E as <- <-.
      destruct (is_decimal sym) eqn:Ed; [|reflexivity].
      apply decimal_not_op in Ed. congruence.
    - injection E as <- <-. unfold whitespace in Hws2. simpl in Hws2.
      apply andb_true_iff in Hws2 as [Hw _].
      destruct (is_decimal w) eqn:Ed; [|reflexivity].
      apply decimal_not_space in Ed. congruence. }
  rewrite consumed_prefix.
  apply repeat_greedy_max; auto; [lia| |].
  { intros c t E. simpl in E. injection E as <- <-. apply op_not_space, Hsym. }
  cbn [app]. rewrite Hsym, consumed_char.
  apply repeat_greedy_max; auto; [lia| |].
  { intros c t E.
    destruct (head_of_token is_decimal d2 ws4 Hn2 Hd2) as (c' & t' & E' & Hc').
    rewrite E' in E. injection E as -> ->. apply decimal_not_space, Hc'. }
  apply repeat_greedy_max; auto.
  { intros c t E. destruct ws4 as [|w ws4]; [discriminate|].
    injection E as <- <-. unfold whitespace in Hws4. simpl in Hws4.
    apply andb_true_iff in Hws4 as [Hw _].
    destruct (is_decimal w) eqn:Ed; [|reflexivity].
    apply decimal_not_space in Ed. congruence. }
  rewrite consumed_prefix.
  rewrite <- (app_nil_r ws4) at 1.
  apply repeat_greedy_max; auto; [lia|discriminate].
Qed.

End Matcher.

(** ** [parse_question] *)

Section ParseQuestion.

Lemma parse_question_tokens ws1 d1 ws2 sym ws3 d2 ws4 op :
  whitespace ws1 -> whitespace ws2 -> whitespace ws3 -> whitespace ws4 ->
  integer_token d1 -> integer_token d2 ->
  symbol_name sym = Some op ->
  parse_question (ws1 ++ d1 ++ ws2 ++ [sym] ++ ws3 ++ d2 ++ ws4)
  = if ((int_max_str_digits <? length d1) || (int_max_str_digits <? length d2))%nat
    then None
    else Some (op, integer_value d1, integer_value d2).
Proof.
  intros Hws1 Hws2 Hws3 Hws4 Hd1 Hd2 Hop.
  pose proof (symbol_name_op _ _ Hop) as Hsym.
  unfold parse_question.
  rewrite (fullmatch_question_complete ws1 d1 ws2 sym ws3 d2 ws4); auto.
  cbn [group Nat.eqb].
  rewrite (op_symbol_table sym Hsym), Hop, (symbol_name_truthy _ _ Hop).
  cbn [negb]. rewrite (py_int_decimal d1 Hd1), (py_int_decimal d2 Hd2).
  destruct (int_max_str_digits <? length d1)%nat;
    destruct (int_max_str_digits <? length d2)%nat; reflexivity.
Qed.

Lemma parse_question_of_shape ws1 d1 ws2 sym ws3 d2 ws4 op :
  whitespace ws1 -> whitespace ws2 -> whitespace ws3 -> whitespace ws4 ->
  readable_token d1 -> readable_token d2 ->
  symbol_name sym = Some op ->
  parse_question (ws1 ++ d1 ++ ws2 ++ [sym] ++ ws3 ++ d2 ++ ws4)
  = Some (op, integer_value d1, integer_value d2).
Proof.
  intros Hws1 Hws2 Hws3 Hws4 [Hd1 Hl1] [Hd2 Hl2] Hop.
  rewrite (parse_question_tokens ws1 d1 ws2 sym ws3 d2 ws4 op); auto.
  apply Nat.ltb_ge in Hl1, Hl2. rewrite Hl1, Hl2. reflexivity.
Qed.

(** A numeral of more digits than [int] reads leaves the question without a
    parse. *)
Lemma parse_question_too_long ws1 d1 ws2 sym ws3 d2 ws4 op :
  whitespace ws1 -> whitespace ws2 -> whitespace ws3 -> whitespace ws4 ->
  integer_token d1 -> integer_token d2 ->
  symbol_name sym = Some op ->
  (int_max_str_digits < length d1)%nat \/ (int_max_str_digits < length d2)%nat ->
  parse_question (ws1 ++ d1 ++ ws2 ++ [sym] ++ ws3 ++ d2 ++ ws4) = None.
Proof.
  intros Hws1 Hws2 Hws3 Hws4 Hd1 Hd2 Hop Hlong.
  rewrite (parse_question_tokens ws1 d1 ws2 sym ws3 d2 ws4 op); auto.
  destruct Hlong as [H | H]; apply Nat.ltb_lt in H; rewrite H;
    [|rewrite orb_true_r]; reflexivity.
Qed.

Lemma op_symbol_name sym :
  is_op_symbol sym = true -> exists name, symbol_name sym = Some name.
Proof.
  intros H.
  destruct (op_cases sym H) as [-> | [-> | [-> | [-> | [-> | [-> | [-> | [-> | ->]]]]]]]];
    eexists; reflexivity.
Qed.

Lemma parse_question_readable q op a b :
  parse_question q = Some (op, a, b) -> readable_question q op a b.
Proof.
  intros H.
  destruct (fullmatch QUESTION_RE q) as [m|] eqn:E;
    [|unfold parse_question in H; rewrite E in H; discriminate].
  apply fullmatch_question_sound in E
    as (ws1 & d1 & ws2 & sym & ws3 & d2 & ws4 & -> & H1 & H2 & H3 & H4
        & Hd1 & Hd2 & Hsym & ->).
  destruct (op_symbol_name sym Hsym) as [name Hname].
  rewrite (parse_question_tokens ws1 d1 ws2 sym ws3 d2 ws4 name) in H; auto.
  destruct (int_max_str_digits <? length d1)%nat eqn:L1; [discriminate|].
  destruct (int_max_str_digits <? length d2)%nat eqn:L2; [discriminate|].
  apply Nat.ltb_ge in L1, L2. cbn [orb] in H. injection H as <- <- <-.
  exists ws1, d1, ws2, sym, ws3, d2, ws4.
  unfold readable_token. repeat split; auto; apply Hd1 || apply Hd2.
Qed.

Lemma readable_question_shape q op a b :
  readable_question q op a b -> question_shape q op a b.
Proof.
  intros (ws1 & d1 & ws2 & sym & ws3 & d2 & ws4 & -> & H1 & H2 & H3 & H4
          & [Hd1 _] & [Hd2 _] & R).
  exists ws1, d1, ws2, sym, ws3, d2, ws4. repeat split; try apply R; auto;
    apply Hd1 || apply Hd2.
Qed.

Lemma parse_question_sound q op a b :
  parse_question q = Some (op, a, b) -> question_shape q op a b.
Proof.
  intros H. apply readable_question_shape, parse_question_readable, H.
Qed.

Lemma parse_question_complete q op a b :
  readable_question q op a b -> parse_question q = Some (op, a, b).
Proof.
  intros (ws1 & d1 & ws2 & sym & ws3 & d2 & ws4 & -> & H1 & H2 & H3 & H4
          & Hd1 & Hd2 & Hop & -> & ->).
  apply parse_question_of_shape; auto.
Qed.

Lemma parse_question_name_truthy q op a b :
  parse_question q = Some (op, a, b) -> truthy_opt_str (Some op) = true.
Proof.
  intros H. apply parse_question_sound in H
    as (_ & _ & _ & sym & _ & _ & _ & _ & _ & _ & _ & _ & _ & _ & Hop & _).
  exact (symbol_name_truthy _ _ Hop).
Qed.

(** C3 (amended). [parse_question] succeeds exactly on the strings that
    are, as a whole, an integer, one operator symbol of the set and a second
    integer, with optional whitespace around them, the two integers having
    at most 4300 digits each; the result is the canonical name of the symbol
    with the two operands. A string of this shape with an integer of more
    digits has no parse. The question "588 ÷ 7" of an entry whose
    operationType is empty gives a row with operation div, a = 588 and
    b = 7. *)
Theorem parse_question_exact :
  (forall q op a b,
      parse_question q = Some (op, a, b) <-> readable_question q op a b)
  /\ (forall ws1 d1 ws2 sym ws3 d2 ws4 op,
         whitespace ws1 -> whitespace ws2 -> whitespace ws3 -> whitespace ws4 ->
         integer_token d1 -> integer_token d2 ->
         symbol_name sym = Some op ->
         (int_max_str_digits < length d1)%nat
         \/ (int_max_str_digits < length d2)%nat ->
         parse_question (ws1 ++ d1 ++ ws2 ++ [sym] ++ ws3 ++ d2 ++ ws4) = None)
  /\ parse_question (lit "588 " ++ [247] ++ lit " 7") = Some (lit "div", 588, 7)
  /\ forall session idx,
      problem_row session idx
        (PDict [ (lit "question", PStr (lit "588 " ++ [247] ++ lit " 7"));
                 (lit "operationType", PStr []) ])
      = Ok (Some [ timestamp session; client_id session;
                   lit "div"; lit "588"; lit "7"; [];
                   str_or_empty (duration session);
                   str_or_empty (score session);
                   mode session;
                   str_or_empty (mapped_duration session);
                   url session; str_of_int idx ]).
Proof.
  split; [|split; [|split]].
  - intros q op a b. split.
    + apply parse_question_readable.
    + apply parse_question_complete.
  - apply parse_question_too_long.
  - vm_compute. reflexivity.
  - intros session idx. reflexivity.
Qed.

End ParseQuestion.

(** ** The row builder, one problem at a time *)

Section ProblemRow.

Variable session : SessionRecord.

Lemma op_type_table_truthy t n :
  dict_get OP_TYPE_TO_NAME t = Some n -> truthy_opt_str (Some n) = true.
Proof.
  unfold OP_TYPE_TO_NAME. cbn [dict_get].
  repeat match goal with |- context [if ?b then _ else _] => destruct b end;
    intros [= <-]; reflexivity.
Qed.

Lemma op_type_name_truthy v n :
  op_type_name v = Ok (Some n) -> truthy_opt_str (Some n) = true.
Proof.
  destruct v; try discriminate. cbn [op_type_name]. intros [= H].
  exact (op_type_table_truthy _ _ H).
Qed.

(** The row of an entry that the skip rule lets through, when its question
    is a string and its operationType can be looked up in the table. *)
Lemma problem_row_retained idx p q v name :
  py_get p (lit "question") (PStr []) = Ok (PStr q) ->
  py_get p (lit "operationType") (PStr []) = Ok v ->
  is_unknown v = false ->
  startswith q (lit "final-missed-") = false ->
  op_type_name v = Ok name ->
  problem_row session idx p
  = Ok match parse_question q with
       | None => None
       | Some (m, a, b) =>
           Some (output_row session idx
                   match name with
                   | Some n => n
                   | None => m
                   end a b)
       end.
Proof.
  intros Hq Hv Hu Hf Hn. unfold problem_row. rewrite Hq, Hv.
  cbn [bind is_final_missed]. rewrite Hu, Hf.
  cbn [bind parse_question_of]. rewrite Hn. cbn [bind].
  destruct (parse_question q) as [[[m a] b]|] eqn:Hp;
    destruct name as [n|];
    try (pose proof (parse_question_name_truthy _ _ _ _ Hp) as Hm);
    try (pose proof (op_type_name_truthy _ _ Hn) as Hn');
    cbn [truthy_opt_str negb andb orb is_none] in *;
    rewrite ?Hm, ?Hn'; cbn [truthy_opt_str negb andb orb is_none];
    rewrite ?Hm, ?Hn'; reflexivity.
Qed.

Lemma problem_row_length idx p row :
  problem_row session idx p = Ok (Some row) ->
  length row = length PROB_SHEET_HEADER.
Proof.
  unfold problem_row, bind.
  repeat match goal with
         | |- context [match ?x with _ => _ end] => destruct x; try discriminate
         end;
    intros [= <-]; reflexivity.
Qed.

Lemma problem_row_index idx p row :
  problem_row session idx p = Ok (Some row) -> problem_index row = str_of_int idx.
Proof.
  unfold problem_row, bind.
  repeat match goal with
         | |- context [match ?x with _ => _ end] => destruct x; try discriminate
         end;
    intros [= <-]; reflexivity.
Qed.

End ProblemRow.

(** ** The precedence and skip rules *)

Section Rules.

(** C1. The operation name of a row is the one that operationType maps to in
    the table, the name parsed from the question is used only when
    operationType has no mapping, and the operands are those parsed from the
    question: an entry whose question does not parse gives no row, whatever
    its operationType maps to. *)
Theorem operation_type_precedence session idx p q v name :
  py_get p (lit "question") (PStr []) = Ok (PStr q) ->
  py_get p (lit "operationType") (PStr []) = Ok v ->
  is_unknown v = false ->
  startswith q (lit "final-missed-") = false ->
  op_type_name v = Ok name ->
  (forall m a b,
      parse_question q = Some (m, a, b) ->
      (forall n, name = Some n ->
                 problem_row session idx p = Ok (Some (output_row session idx n a b)))
      /\ (name = None ->
          problem_row session idx p = Ok (Some (output_row session idx m a b))))
  /\ (parse_question q = None -> problem_row session idx p = Ok None)
  /\ (forall row,
         problem_row session idx p = Ok (Some row) ->
         exists m a b,
           parse_question q = Some (m, a, b)
           /\ nth 3 row [] = str_of_int a /\ nth 4 row [] = str_of_int b).
Proof.
  intros Hq Hv Hu Hf Hn.
  pose proof (problem_row_retained session idx p q v name Hq Hv Hu Hf Hn) as H.
  split; [|split].
  - intros m a b Hp. rewrite Hp in H. split.
    + intros n ->. exact H.
    + intros ->. exact H.
  - intros Hp. rewrite Hp in H. exact H.
  - intros row Hrow. rewrite Hrow in H.
    destruct (parse_question q) as [[[m a] b]|]; [|discriminate].
    injection H as ->. exists m, a, b. repeat split.
Qed.

Lemma operation_type_precedence_witness :
  parse_question (lit "not parseable") = None
  /\ op_type_name (PStr (lit "subtraction")) = Ok (Some (lit "sub"))
  /\ problem_row (session_of (PList [])) 1
       (entry (lit "not parseable") (lit "subtraction")) = Ok None.
Proof.
  split; [reflexivity|]. split; [reflexivity|].
  apply (operation_type_precedence (session_of (PList [])) 1
           (entry (lit "not parseable") (lit "subtraction"))
           (lit "not parseable") (PStr (lit "subtraction")) (Some (lit "sub"))
           eq_refl eq_refl eq_refl eq_refl eq_refl).
  reflexivity.
Defined.

(** C4. An entry whose operationType is "unknown", or whose question starts
    with "final-missed-", gives no row: the loop goes on to the next entry
    with the rows it had. *)
Theorem skip_rule session idx d ps rows :
  dict_get d (lit "operationType") = Some (PStr (lit "unknown"))
  \/ (exists q, py_get (PDict d) (lit "question") (PStr []) = Ok (PStr q)
                /\ startswith q (lit "final-missed-") = true) ->
  problem_row session idx (PDict d) = Ok None
  /\ problems_loop session idx (PDict d :: ps) rows
     = problems_loop session (idx + 1) ps rows.
Proof.
  intros H.
  assert (Hrow : problem_row session idx (PDict d) = Ok None).
  { unfold problem_row. cbn [py_get bind].
    destruct H as [H | (q & Hq & Hf)].
    - rewrite H. reflexivity.
    - cbn [py_get] in Hq. injection Hq as Hq. rewrite Hq.
      destruct (is_unknown _); cbn [bind is_final_missed]; [reflexivity|].
      rewrite Hf. reflexivity. }
  split; [exact Hrow|].
  cbn [problems_loop]. rewrite Hrow. reflexivity.
Qed.

Lemma skip_rule_witness :
  parse_question (lit "5 + 5") = Some (lit "add", 5, 5)
  /\ problem_row (session_of (PList [])) 1 (entry (lit "5 + 5") (lit "unknown"))
     = Ok None.
Proof.
  split; [vm_compute; reflexivity|].
  apply (skip_rule (session_of (PList [])) 1
           [ (lit "question", PStr (lit "5 + 5"));
             (lit "operationType", PStr (lit "unknown")) ] [] []).
  left. reflexivity.
Defined.

End Rules.

(** ** The loops of the row builder *)

Section Loops.

Lemma problems_loop_acc session ps :
  forall idx rows,
  problems_loop session idx ps rows
  = (r <- problems_loop session idx ps [] ;; Ok (rows ++ r)).
Proof.
  induction ps as [|p ps IH]; intros idx rows; cbn [problems_loop].
  - cbn [bind]. rewrite app_nil_r. reflexivity.
  - destruct (problem_row session idx p) as [[row|]|e]; cbn [bind].
    + rewrite (IH (idx + 1) (rows ++ [row])), (IH (idx + 1) ([] ++ [row])).
      destruct (problems_loop session (idx + 1) ps []); cbn [bind]; [|reflexivity].
      rewrite <- app_assoc. reflexivity.
    + apply IH.
    + reflexivity.
Qed.

Lemma problems_loop_retained session ps :
  forall idx rows out,
  problems_loop session idx ps rows = Ok out ->
  out = rows ++ retained_rows session idx ps.
Proof.
  induction ps as [|p ps IH]; intros idx rows out; cbn [problems_loop retained_rows].
  - intros [= <-]. rewrite app_nil_r. reflexivity.
  - destruct (problem_row session idx p) as [[row|]|e]; cbn [bind].
    + intros H. apply IH in H. rewrite H, <- app_assoc. reflexivity.
    + apply IH.
    + discriminate.
Qed.

Lemma retained_rows_in session ps :
  forall idx row,
  In row (retained_rows session idx ps) <->
  exists i p, nth_error ps i = Some p
              /\ problem_row session (idx + Z.of_nat i) p = Ok (Some row).
Proof.
  induction ps as [|p ps IH]; intros idx row; cbn [retained_rows].
  - split; [intros []|]. intros ([|i] & p & H & _); discriminate.
  - assert (Hshift : forall i : nat, idx + 1 + Z.of_nat i = idx + Z.of_nat (S i))
      by (intros; lia).
    assert (Htail :
      In row (retained_rows session (idx + 1) ps) <->
      exists i q, nth_error (p :: ps) (S i) = Some q
                  /\ problem_row session (idx + Z.of_nat (S i)) q = Ok (Some row)).
    { rewrite IH. split; intros (i & q & H1 & H2); exists i, q;
        [rewrite <- Hshift | rewrite Hshift]; auto. }
    assert (Hhead : forall q,
      problem_row session (idx + Z.of_nat 0) q = problem_row session idx q).
    { intros q. f_equal. lia. }
    split.
    + intros H.
      assert (Hcase : problem_row session idx p = Ok (Some row)
                      \/ In row (retained_rows session (idx + 1) ps)).
      { destruct (problem_row session idx p) as [[r|]|e]; auto.
        destruct H as [-> | H]; auto. }
      destruct Hcase as [Hp | Hin].
      * exists 0%nat, p. rewrite Hhead. auto.
      * apply Htail in Hin as (i & q & H1 & H2). exists (S i), q. auto.
    + intros ([|i] & q & H1 & H2).
      * cbn [nth_error] in H1. injection H1 as <-. rewrite Hhead in H2.
        rewrite H2. left. reflexivity.
      * assert (Hin : In row (retained_rows session (idx + 1) ps))
          by (apply Htail; exists i, q; auto).
        destruct (problem_row session idx p) as [[r|]|e]; auto. right. exact Hin.
Qed.

(** C5. The ProblemIndex of every emitted row is the position, counted from
    one, of its problem in the problems list of the session, skipped entries
    included: the rows are those of the retained problems, in order, each
    built at its own position, so a skipped problem leaves a gap and does
    not shift the others. With three problems of which the second is
    skipped the indices are 1 and 3. *)
Theorem problem_index_preserved :
  (forall session ps rows,
      problems_loop session 1 ps [] = Ok rows ->
      rows = retained_rows session 1 ps
      /\ forall row,
          In row rows <->
          exists i p, nth_error ps i = Some p
                      /\ problem_row session (1 + Z.of_nat i) p = Ok (Some row)
                      /\ problem_index row = str_of_int (1 + Z.of_nat i))
  /\ (forall session ps rows,
         problems session = PList ps ->
         build_problem_sheet_rows [session] = Ok rows ->
         rows = retained_rows session 1 ps)
  /\ forall session,
      let ps := [ entry (lit "30 + 93") (lit "addition");
                  entry (lit "5 + 5") (lit "unknown");
                  entry (lit "2 x 60") [] ] in
      exists r1 r3,
        problems_loop session 1 ps [] = Ok [r1; r3]
        /\ problem_index r1 = lit "1" /\ problem_index r3 = lit "3".
Proof.
  split; [|split].
  - intros session ps rows H.
    apply problems_loop_retained in H. cbn [app] in H. subst rows.
    split; [reflexivity|].
    intros row. rewrite retained_rows_in. split.
    + intros (i & p & H1 & H2). exists i, p. repeat split; auto.
      exact (problem_row_index session _ p row H2).
    + intros (i & p & H1 & H2 & _). exists i, p. auto.
  - intros session ps rows Hps. unfold build_problem_sheet_rows.
    cbn [sessions_loop]. rewrite Hps.
    destruct ps as [|p ps]; cbn [py_truthy is_empty negb py_iter bind].
    + intros [= <-]. reflexivity.
    + destruct (problems_loop session 1 (p :: ps) []) as [out|e] eqn:E;
        cbn [bind]; [|discriminate].
      intros [= <-]. exact (problems_loop_retained session _ _ _ _ E).
  - intros session ps.
    exists (output_row session 1 (lit "add") 30 93),
           (output_row session 3 (lit "mul") 2 60).
    repeat split.
Qed.

Lemma problem_index_preserved_witness :
  let session := session_of (PList []) in
  let ps := [ entry (lit "final-missed-3") []; entry (lit "588 / 7") [] ] in
  problems_loop session 1 ps [] = Ok [output_row session 2 (lit "div") 588 7]
  /\ [output_row session 2 (lit "div") 588 7] = retained_rows session 1 ps.
Proof.
  intros session ps.
  assert (H : problems_loop session 1 ps [] = Ok [output_row session 2 (lit "div") 588 7])
    by reflexivity.
  split; [exact H|].
  exact (proj1 (proj1 problem_index_preserved session ps _ H)).
Defined.

Lemma sessions_loop_acc sessions :
  forall rows,
  sessions_loop sessions rows
  = (r <- sessions_loop sessions [] ;; Ok (rows ++ r)).
Proof.
  induction sessions as [|s sessions IH]; intros rows; cbn [sessions_loop].
  - cbn [bind]. rewrite app_nil_r. reflexivity.
  - destruct (py_iter _) as [ps|e]; cbn [bind]; [|reflexivity].
    rewrite (problems_loop_acc s ps 1 rows).
    destruct (problems_loop s 1 ps []) as [r|e]; cbn [bind]; [|reflexivity].
    rewrite (IH (rows ++ r)), (IH r).
    destruct (sessions_loop sessions []); cbn [bind]; [|reflexivity].
    rewrite <- app_assoc. reflexivity.
Qed.

Lemma sessions_loop_app l1 l2 :
  forall rows,
  sessions_loop (l1 ++ l2) rows
  = (r1 <- sessions_loop l1 rows ;; sessions_loop l2 r1).
Proof.
  induction l1 as [|s l1 IH]; intros rows; cbn [app sessions_loop bind].
  - reflexivity.
  - destruct (py_iter _) as [ps|e]; cbn [bind]; [|reflexivity].
    destruct (problems_loop s 1 ps rows) as [r|e]; cbn [bind]; [|reflexivity].
    apply IH.
Qed.

(** C9. The sessions are processed one after the other and independently:
    the rows of two lists of sessions put end to end are the rows of the
    first followed by the rows of the second (and the exception of the first
    that raises one), and a session whose problems list is empty adds no row
    and leaves the rows of the other sessions as they are. *)
Theorem sessions_independent :
  (forall l1 l2,
      build_problem_sheet_rows (l1 ++ l2)
      = (r1 <- build_problem_sheet_rows l1 ;;
         r2 <- build_problem_sheet_rows l2 ;;
         Ok (r1 ++ r2)))
  /\ (forall l1 s l2,
         problems s = PList [] ->
         build_problem_sheet_rows [s] = Ok []
         /\ build_problem_sheet_rows (l1 ++ s :: l2)
            = build_problem_sheet_rows (l1 ++ l2)).
Proof.
  assert (Happ : forall l1 l2,
      build_problem_sheet_rows (l1 ++ l2)
      = (r1 <- build_problem_sheet_rows l1 ;;
         r2 <- build_problem_sheet_rows l2 ;;
         Ok (r1 ++ r2))).
  { intros l1 l2. unfold build_problem_sheet_rows.
    rewrite sessions_loop_app.
    destruct (sessions_loop l1 []) as [r1|e]; cbn [bind]; [|reflexivity].
    apply sessions_loop_acc. }
  split; [exact Happ|].
  intros l1 s l2 Hs.
  assert (Hone : build_problem_sheet_rows [s] = Ok []).
  { unfold build_problem_sheet_rows. cbn [sessions_loop]. rewrite Hs. reflexivity. }
  split; [exact Hone|].
  rewrite (Happ l1 (s :: l2)), (Happ l1 l2).
  change (s :: l2) with ([s] ++ l2). rewrite (Happ [s] l2), Hone.
  cbn [bind app].
  destruct (build_problem_sheet_rows l2); reflexivity.
Qed.

Lemma sessions_independent_witness :
  let s1 := session_of (PList [entry (lit "1 + 2") []]) in
  let s0 := session_of (PList []) in
  problems s0 = PList []
  /\ build_problem_sheet_rows ([s1] ++ s0 :: [s1])
     = build_problem_sheet_rows ([s1] ++ [s1]).
Proof.
  intros s1 s0. split; [reflexivity|].
  exact (proj2 (proj2 sessions_independent [s1] s0 [s1] eq_refl)).
Defined.

End Loops.

(** ** Entries that the row builder cannot read *)

Section Raises.

Lemma problem_row_not_mapping session idx p :
  (forall d, p <> PDict d) -> problem_row session idx p = Raise AttributeError.
Proof.
  intros H. destruct p; try reflexivity. destruct (H items eq_refl).
Qed.

Lemma is_unknown_true v : is_unknown v = true -> v = PStr (lit "unknown").
Proof.
  destruct v; try discriminate. cbn [is_unknown]. intros H.
  apply str_eqb_eq in H. congruence.
Qed.

Lemma problem_row_question_not_string session idx d v :
  dict_get d (lit "question") = Some v ->
  (forall q, v <> PStr q) ->
  dict_get d (lit "operationType") <> Some (PStr (lit "unknown")) ->
  problem_row session idx (PDict d) = Raise AttributeError.
Proof.
  intros Hq Hv Ht. unfold problem_row. cbn [py_get bind]. rewrite Hq.
  destruct (is_unknown _) eqn:Eu.
  - apply is_unknown_true in Eu.
    destruct (dict_get d (lit "operationType")) as [t|]; [|discriminate].
    congruence.
  - destruct v; try reflexivity. destruct (Hv s eq_refl).
Qed.

(** On the entries it can read, the loop body does not raise: a mapping whose
    question is a string (or absent) and whose operationType is not a list or
    a dict gives a row or is skipped. *)
Lemma problem_row_readable session idx d q :
  py_get (PDict d) (lit "question") (PStr []) = Ok (PStr q) ->
  (forall l, dict_get d (lit "operationType") <> Some (PList l)) ->
  (forall l, dict_get d (lit "operationType") <> Some (PDict l)) ->
  exists r, problem_row session idx (PDict d) = Ok r.
Proof.
  intros Hq Hl Hd. unfold problem_row. rewrite Hq. cbn [py_get bind].
  destruct (is_unknown _) eqn:Eu; cbn [bind is_final_missed]; [eauto|].
  destruct (startswith q (lit "final-missed-")); [eauto|].
  cbn [parse_question_of bind].
  destruct (dict_get d (lit "operationType")) as [v|] eqn:Ev.
  - destruct v; cbn [op_type_name bind];
      try (destruct (_ || _); eauto);
      try (destruct (parse_question q) as [[[? ?] ?]|]; destruct (_ || _); eauto).
    + destruct (Hl items eq_refl).
    + destruct (Hd items eq_refl).
  - cbn [op_type_name bind].
    destruct (parse_question q) as [[[? ?] ?]|]; destruct (_ || _); eauto.
Qed.

(** C10. The row builder skips silently only the entries it can read: a
    problems element that is not a mapping, and a mapping whose question is
    not a string (its operationType not being "unknown"), make it raise an
    exception; there are sessions of both kinds on which
    [build_problem_sheet_rows] raises instead of giving rows. *)
Theorem row_builder_raises :
  (forall session idx p,
      (forall d, p <> PDict d) ->
      problem_row session idx p = Raise AttributeError)
  /\ (forall session idx d v,
         dict_get d (lit "question") = Some v ->
         (forall q, v <> PStr q) ->
         dict_get d (lit "operationType") <> Some (PStr (lit "unknown")) ->
         problem_row session idx (PDict d) = Raise AttributeError)
  /\ build_problem_sheet_rows
       [session_of (PList [entry (lit "1 + 2") (lit "addition"); PInt 7])]
     = Raise AttributeError
  /\ build_problem_sheet_rows
       [session_of (PList [PDict [(lit "question", PInt 7);
                                  (lit "operationType", PStr (lit "addition"))]])]
     = Raise AttributeError.
Proof.
  split; [exact problem_row_not_mapping|].
  split; [exact problem_row_question_not_string|].
  split; reflexivity.
Qed.

Lemma row_builder_raises_witness :
  (forall d, PStr (lit "30 + 93") <> PDict d)
  /\ problem_row (session_of (PList [])) 1 (PStr (lit "30 + 93"))
     = Raise AttributeError.
Proof.
  assert (H : forall d, PStr (lit "30 + 93") <> PDict d) by (intros d; discriminate).
  split; [exact H|].
  exact (proj1 row_builder_raises (session_of (PList [])) 1 (PStr (lit "30 + 93")) H).
Defined.

End Raises.

(** ** The record extractor, one chunk at a time *)

Section ParseRecord.

Variable json_loads : str -> result pyval.

Lemma index_nth {A} (l : list A) (i : nat) (d : A) :
  (i < length l)%nat -> index l i = Ok (nth i l d).
Proof.
  intros H. unfold index.
  destruct (nth_error l i) as [a|] eqn:E.
  - rewrite (nth_error_nth l i d E). reflexivity.
  - apply nth_error_None in E. lia.
Qed.

Lemma nth_snoc_empty (l : list str) (i : nat) : nth i (l ++ [[]]) [] = nth i l [].
Proof.
  revert i; induction l as [|a l IH]; intros [|i]; cbn [app nth]; auto.
  destruct i; reflexivity.
Qed.

(** The padding changes no field that is there, and an absent field reads as
    the empty string with or without it. *)
Lemma pad_fields_nth turns :
  forall l i, nth i (pad_fields turns l) [] = nth i l [].
Proof.
  induction turns as [|turns IH]; intros l i; cbn [pad_fields]; [reflexivity|].
  destruct (len l <? 3); [|reflexivity].
  rewrite IH. apply nth_snoc_empty.
Qed.

(** The [while] loop ends within three turns with three fields or more. *)
Lemma pad_fields_length l : (3 <= length (pad_fields 3 l))%nat.
Proof.
  destruct l as [|a [|b [|c l]]]; try (vm_compute; lia).
  cbn [pad_fields]. unfold len.
  replace (Z.of_nat (length (a :: b :: c :: l)) <? 3) with false.
  - cbn [length]. lia.
  - symmetry. apply Z.ltb_ge. cbn [length]. lia.
Qed.

Lemma parse_record_skipped rec :
  decoder_input rec = None -> parse_record json_loads rec = Ok None.
Proof.
  unfold decoder_input, parse_record.
  destruct (is_empty rec); [reflexivity|].
  destruct (startswith rec SESSION_HEADER); [reflexivity|].
  destruct (json_bounds rec) as [[lb rb]|]; [|reflexivity].
  destruct (len (prefix_fields_of (prefix_of rec lb)) <? 5); [reflexivity|].
  discriminate.
Qed.

Lemma parse_record_accepted rec j :
  decoder_input rec = Some j ->
  parse_record json_loads rec
  = (problems <- json_loads j ;; Ok (session_of_chunk rec problems))
  /\ exists lb rb, json_bounds rec = Some (lb, rb) /\ j = json_str_of rec lb rb
                   /\ (5 <= length (prefix_fields_of (prefix_of rec lb)))%nat.
Proof.
  unfold decoder_input, parse_record, session_of_chunk.
  destruct (is_empty rec); [discriminate|].
  destruct (startswith rec SESSION_HEADER); [discriminate|].
  destruct (json_bounds rec) as [[lb rb]|]; [|discriminate].
  destruct (len (prefix_fields_of (prefix_of rec lb)) <? 5) eqn:E; [discriminate|].
  intros [= <-].
  apply Z.ltb_ge in E. unfold len in E.
  assert (Hlen : (5 <= length (prefix_fields_of (prefix_of rec lb)))%nat) by lia.
  split; [|exists lb, rb; auto].
  set (pf := prefix_fields_of (prefix_of rec lb)) in *.
  set (sf := suffix_fields_of (suffix_of rec rb)).
  rewrite (index_nth pf 0 []), (index_nth pf 1 []), (index_nth pf 2 []),
    (index_nth pf 3 []), (index_nth pf 4 []) by lia.
  cbn [bind].
  destruct (json_loads (json_str_of rec lb rb)) as [v|e]; cbn [bind]; [|reflexivity].
  pose proof (pad_fields_length sf) as Hpad.
  replace (1 <=? len (pad_fields 3 sf)) with true
    by (symmetry; apply Z.leb_le; unfold len; lia).
  replace (2 <=? len (pad_fields 3 sf)) with true
    by (symmetry; apply Z.leb_le; unfold len; lia).
  replace (3 <=? len (pad_fields 3 sf)) with true
    by (symmetry; apply Z.leb_le; unfold len; lia).
  rewrite (index_nth (pad_fields 3 sf) 0 []), (index_nth (pad_fields 3 sf) 1 []),
    (index_nth (pad_fields 3 sf) 2 []) by lia.
  cbn [bind]. rewrite !pad_fields_nth. reflexivity.
Qed.

Lemma extract_loop_raise parts :
  forall acc e,
  extract_loop json_loads parts acc = Raise e ->
  exists rec j, In rec parts /\ decoder_input rec = Some j /\ json_loads j = Raise e.
Proof.
  induction parts as [|rec parts IH]; intros acc e; cbn [extract_loop];
    [discriminate|].
  destruct (decoder_input rec) as [j|] eqn:Ed.
  - destruct (parse_record_accepted rec j Ed) as [-> _].
    destruct (json_loads j) as [v|e'] eqn:Ej; cbn [bind].
    + intros H.
      assert (exists rec' j', In rec' parts /\ decoder_input rec' = Some j'
                              /\ json_loads j' = Raise e) as (r & j' & Hin & H')
        by (destruct (session_of_chunk rec v); exact (IH _ _ H)).
      exists r, j'. cbn [In]. auto.
    + intros [= <-]. exists rec, j. cbn [In]. auto.
  - rewrite (parse_record_skipped rec Ed). cbn [bind]. intros H.
    destruct (IH _ _ H) as (r & j' & Hin & H'). exists r, j'. cbn [In]. auto.
Qed.

Lemma extract_loop_ok parts :
  forall acc sessions,
  extract_loop json_loads parts acc = Ok sessions ->
  forall rec j, In rec parts -> decoder_input rec = Some j ->
                exists v, json_loads j = Ok v.
Proof.
  induction parts as [|rec parts IH]; intros acc sessions; cbn [extract_loop];
    [intros _ ? ? []|].
  intros H r j Hin Hd.
  destruct (decoder_input rec) as [j0|] eqn:Ed.
  - destruct (parse_record_accepted rec j0 Ed) as [Hp _]. rewrite Hp in H.
    destruct (json_loads j0) as [v|e'] eqn:Ej; cbn [bind] in H; [|discriminate].
    destruct Hin as [<- | Hin].
    + rewrite Ed in Hd. injection Hd as <-. exists v. exact Ej.
    + destruct (session_of_chunk rec v); exact (IH _ _ H r j Hin Hd).
  - rewrite (parse_record_skipped rec Ed) in H. cbn [bind] in H.
    destruct Hin as [<- | Hin]; [congruence|].
    exact (IH _ _ H r j Hin Hd).
Qed.

(** Every record of the result is the record of one of the chunks. *)
Lemma extract_loop_records parts :
  forall acc sessions,
  extract_loop json_loads parts acc = Ok sessions ->
  forall r, In r sessions ->
  In r acc
  \/ exists rec j v, In rec parts /\ decoder_input rec = Some j
                     /\ json_loads j = Ok v /\ session_of_chunk rec v = Some r.
Proof.
  induction parts as [|rec parts IH]; intros acc sessions; cbn [extract_loop].
  - intros [= <-] r Hr. left. exact Hr.
  - intros H r Hr.
    destruct (decoder_input rec) as [j0|] eqn:Ed.
    + destruct (parse_record_accepted rec j0 Ed) as [Hp _]. rewrite Hp in H.
      destruct (json_loads j0) as [v|e'] eqn:Ej; cbn [bind] in H; [|discriminate].
      destruct (session_of_chunk rec v) as [s|] eqn:Es.
      * destruct (IH _ _ H r Hr) as [Hacc | (rec' & j & v' & Hin & H')].
        -- apply in_app_or in Hacc as [Hacc | [<- | []]]; [left; exact Hacc|].
           right. exists rec, j0, v. cbn [In]. auto.
        -- right. exists rec', j, v'. cbn [In]. tauto.
      * destruct (IH _ _ H r Hr) as [Hacc | (rec' & j & v' & Hin & H')];
          [left; exact Hacc|].
        right. exists rec', j, v'. cbn [In]. tauto.
    + rewrite (parse_record_skipped rec Ed) in H. cbn [bind] in H.
      destruct (IH _ _ H r Hr) as [Hacc | (rec' & j & v' & Hin & H')];
        [left; exact Hacc|].
      right. exists rec', j, v'. cbn [In]. tauto.
Qed.

End ParseRecord.

(** ** The record extractor on a whole text *)

Section Extract.

Variable json_loads : str -> result pyval.

(** C2. The extractor does not raise on the structure of a record: a chunk
    that fails a structural check (empty, starting with the header, without
    a pair of brackets in order, fewer than five prefix fields) is skipped.
    It raises when the header is absent, and otherwise exactly when the
    decoder raises on the bracketed text of a chunk that passed these
    checks; the exception is then the decoder's and ends the run. *)
Theorem extract_raises_exactly raw :
  let text := remove_char 13 raw in
  let idx := find text SESSION_HEADER in
  (idx = -1 ->
   extract_session_records json_loads raw
   = Raise (ValueError "Session header not found in input."))
  /\ (forall rec, decoder_input rec = None -> parse_record json_loads rec = Ok None)
  /\ ((exists e, extract_session_records json_loads raw = Raise e) <->
      idx = -1
      \/ exists rec j e, In rec (record_parts text idx)
                         /\ decoder_input rec = Some j /\ json_loads j = Raise e)
  /\ (idx <> -1 ->
      forall e, extract_session_records json_loads raw = Raise e ->
      exists rec j, In rec (record_parts text idx)
                    /\ decoder_input rec = Some j /\ json_loads j = Raise e).
Proof.
  intros text idx. unfold extract_session_records. fold text. fold idx.
  destruct (idx =? -1) eqn:E.
  - apply Z.eqb_eq in E. repeat split.
    + apply parse_record_skipped.
    + intros _. left. exact E.
    + intros _. eexists. reflexivity.
    + intros H. contradiction.
  - apply Z.eqb_neq in E. repeat split.
    + intros H. contradiction.
    + apply parse_record_skipped.
    + intros [e He]. right.
      destruct (extract_loop_raise json_loads _ _ _ He) as (rec & j & H).
      exists rec, j, e. exact H.
    + intros [H | (rec & j & e & Hin & Hd & Hj)]; [contradiction|].
      destruct (extract_loop json_loads (record_parts text idx) []) as [ss|e'] eqn:El.
      * destruct (extract_loop_ok json_loads _ _ _ El rec j Hin Hd) as [v Hv].
        congruence.
      * exists e'. reflexivity.
    + intros _ e He. exact (extract_loop_raise json_loads _ _ _ He).
Qed.

(** C8. Every chunk that passes the structural checks and whose bracketed
    text decodes gives a record, whatever follows the brackets; every record
    of the result is the record of such a chunk, its nine fields read from
    the chunk, with the empty string for a suffix value that is absent and
    [None] for a number that cannot be read. *)
Theorem session_record_fields :
  (forall raw sessions r,
      extract_session_records json_loads raw = Ok sessions ->
      In r sessions ->
      exists rec lb rb,
        In rec (record_parts (remove_char 13 raw)
                  (find (remove_char 13 raw) SESSION_HEADER))
        /\ json_bounds rec = Some (lb, rb)
        /\ json_loads (json_str_of rec lb rb) = Ok (problems r)
        /\ let pf := prefix_fields_of (prefix_of rec lb) in
           let sf := suffix_fields_of (suffix_of rec rb) in
           r = session_fields pf sf (problems r)
           /\ ((length sf < 1)%nat -> mode r = [])
           /\ ((length sf < 2)%nat -> mapped_duration r = None)
           /\ ((length sf < 3)%nat -> score_120 r = None))
  /\ (forall rec j v,
         decoder_input rec = Some j -> json_loads j = Ok v ->
         exists r, parse_record json_loads rec = Ok (Some r) /\ problems r = v)
  /\ to_int [] = None /\ to_int (lit "abc") = None.
Proof.
  split; [|split; [|split; reflexivity]].
  - intros raw sessions r. unfold extract_session_records.
    destruct (_ =? -1); [discriminate|].
    intros H Hr.
    destruct (extract_loop_records json_loads _ _ _ H r Hr)
      as [[] | (rec & j & v & Hin & Hd & Hj & Hs)].
    destruct (parse_record_accepted json_loads rec j Hd)
      as [_ (lb & rb & Hb & -> & Hlen)].
    unfold session_of_chunk in Hs. rewrite Hb in Hs. injection Hs as <-.
    exists rec, lb, rb. cbn [problems session_fields mode mapped_duration score_120].
    repeat split; auto.
    + intros Hl. apply nth_overflow. lia.
    + intros Hl. rewrite nth_overflow by lia. reflexivity.
    + intros Hl. rewrite nth_overflow by lia. reflexivity.
  - intros rec j v Hd Hj.
    destruct (parse_record_accepted json_loads rec j Hd)
      as [Hp (lb & rb & Hb & -> & Hlen)].
    rewrite Hp, Hj. cbn [bind]. unfold session_of_chunk. rewrite Hb.
    eexists. split; reflexivity.
Qed.

End Extract.

Section ExtractExamples.

Lemma extract_raises_exactly_witness :
  find (remove_char 13 (lit "no header here")) SESSION_HEADER = -1
  /\ extract_session_records Json.loads (lit "no header here")
     = Raise (ValueError "Session header not found in input.").
Proof.
  assert (H : find (remove_char 13 (lit "no header here")) SESSION_HEADER = -1)
    by (vm_compute; reflexivity).
  split; [exact H|].
  exact (proj1 (extract_raises_exactly Json.loads (lit "no header here")) H).
Defined.

(** The structural checks come first: a chunk with fewer than five prefix
    fields is skipped whatever its bracketed text is, here a text that is
    not JSON. *)
Lemma undecodable_chunk_skipped :
  let raw := SESSION_HEADER ++ lit "[oops]" in
  let text := remove_char 13 raw in
  find text SESSION_HEADER <> -1
  /\ In (lit "[oops]") (record_parts text (find text SESSION_HEADER))
  /\ bracketed (lit "[oops]") = Some (lit "[oops]")
  /\ Json.loads (lit "[oops]") = Raise JSONDecodeError
  /\ extract_session_records Json.loads raw = Ok [].
Proof.
  vm_compute. repeat split; try discriminate. left. reflexivity.
Qed.

Lemma session_record_fields_witness :
  let rec := lit "2024-05-01,client-1,https://x,120,abc,[]" in
  decoder_input rec = Some (lit "[]")
  /\ Json.loads (lit "[]") = Ok (PList [])
  /\ exists r, parse_record Json.loads rec = Ok (Some r) /\ problems r = PList [].
Proof.
  intros rec.
  assert (Hd : decoder_input rec = Some (lit "[]")) by (vm_compute; reflexivity).
  assert (Hj : Json.loads (lit "[]") = Ok (PList [])) by (vm_compute; reflexivity).
  split; [exact Hd|]. split; [exact Hj|].
  exact (proj1 (proj2 (session_record_fields Json.loads)) rec (lit "[]") (PList []) Hd Hj).
Defined.

End ExtractExamples.

(** ** Trimming of the prefix and suffix regions *)

Section Trimming.

Lemma drop_while_spec p s :
  exists head,
    s = head ++ drop_while p s /\ forallb p head = true
    /\ forall c t, drop_while p s = c :: t -> p c = false.
Proof.
  induction s as [|c s (head & Hs & Hall & Hfirst)]; cbn [drop_while].
  - exists []. repeat split. discriminate.
  - destruct (p c) eqn:Ec.
    + exists (c :: head). cbn [app forallb]. rewrite Ec, Hall, <- Hs. auto.
    + exists []. repeat split. intros c' t [= <- <-]. exact Ec.
Qed.

Lemma forallb_rev (p : Z -> bool) l : forallb p l = true -> forallb p (rev l) = true.
Proof.
  rewrite !forallb_forall. intros H x Hx. apply H, in_rev, Hx.
Qed.

Lemma rstrip_by_spec p s :
  exists tail,
    s = rstrip_by p s ++ tail /\ forallb p tail = true
    /\ forall t c, rstrip_by p s = t ++ [c] -> p c = false.
Proof.
  unfold rstrip_by.
  destruct (drop_while_spec p (rev s)) as (head & Hs & Hall & Hfirst).
  exists (rev head). repeat split.
  - rewrite <- rev_app_distr, <- Hs, rev_involutive. reflexivity.
  - apply forallb_rev, Hall.
  - intros t c H. apply (f_equal (@rev Z)) in H.
    rewrite rev_involutive, rev_app_distr in H. cbn [rev app] in H.
    exact (Hfirst c (rev t) H).
Qed.

(** C6 (amended). The prefix region, the text before the first bracket, is
    trimmed of commas and spaces at its end only, and the suffix region, the
    text after the last bracket, at its start only: what is removed is the
    longest run of commas and spaces next to the brackets, and the other end
    of each region is left as it is. *)
Theorem regions_trimmed_next_to_brackets rec lb rb :
  (exists removed,
      slice rec 0 lb = prefix_of rec lb ++ removed
      /\ forallb (char_in (lit ", ")) removed = true
      /\ forall t c, prefix_of rec lb = t ++ [c] -> char_in (lit ", ") c = false)
  /\ (exists removed,
         slice_from rec (rb + 1) = removed ++ suffix_of rec rb
         /\ forallb (char_in (lit ", ")) removed = true
         /\ forall c t, suffix_of rec rb = c :: t -> char_in (lit ", ") c = false).
Proof.
  split.
  - exact (rstrip_by_spec (char_in (lit ", ")) (slice rec 0 lb)).
  - exact (drop_while_spec (char_in (lit ", ")) (slice_from rec (rb + 1))).
Qed.

Lemma regions_trimmed_next_to_brackets_witness :
  let rec := lit "t,c,u,120,45 , [] , Normal,120,45" in
  prefix_of rec 15 = lit "t,c,u,120,45"
  /\ suffix_of rec 16 = lit "Normal,120,45"
  /\ forall t c, prefix_of rec 15 = t ++ [c] -> char_in (lit ", ") c = false.
Proof.
  intros rec. split; [reflexivity|]. split; [reflexivity|].
  destruct (proj1 (regions_trimmed_next_to_brackets rec 15 16)) as (removed & _ & _ & H).
  exact H.
Defined.

(** C6, as stated, fails: the comma at the start of the prefix region stays,
    so the chunk has five prefix fields, the first one empty, and is
    accepted; trimmed at both ends it would have four fields. The comma at
    the end of a suffix region stays as well. *)
Lemma leading_comma_kept :
  let rec := lit ",a,b,c,d,[]" in
  json_bounds rec = Some (9, 10)
  /\ slice rec 0 9 = lit ",a,b,c,d,"
  /\ prefix_of rec 9 = lit ",a,b,c,d"
  /\ prefix_of rec 9 <> rstrip (lstrip (slice rec 0 9) (lit ", ")) (lit ", ")
  /\ prefix_fields_of (prefix_of rec 9) = [[]; lit "a"; lit "b"; lit "c"; lit "d"]
  /\ parse_record Json.loads rec
     = Ok (Some (session_fields [[]; lit "a"; lit "b"; lit "c"; lit "d"] [] (PList [])))
  /\ suffix_of (lit "t,c,u,1,2,[],Normal,") 12 = lit "Normal,".
Proof.
  vm_compute. repeat split. discriminate.
Qed.

End Trimming.

(** ** Numerals *)

Section Numerals.

Lemma drop_while_nil p s : drop_while p s = [] -> forallb p s = true.
Proof.
  induction s as [|c s IH]; cbn [drop_while forallb]; [reflexivity|].
  destruct (p c); [exact IH|discriminate].
Qed.

Lemma scan_digits_chars s :
  forall pu acc n v n' rest,
  scan_digits s pu acc n = Some (v, n', rest) ->
  exists pre,
    s = pre ++ rest
    /\ forallb (fun c => is_ascii_digit c || (c =? 95)) pre = true.
Proof.
  induction s as [|c s IH]; intros pu acc n v n' rest; cbn [scan_digits].
  - destruct pu; [discriminate|]. intros [= <- <- <-]. exists []. auto.
  - destruct (is_ascii_digit c) eqn:Ed.
    + intros H. destruct (IH _ _ _ _ _ _ H) as (pre & -> & Hall).
      exists (c :: pre). cbn [app forallb]. rewrite Ed, Hall. auto.
    + destruct (c =? 95) eqn:Eu.
      * destruct pu; [discriminate|].
        intros H. destruct (IH _ _ _ _ _ _ H) as (pre & -> & Hall).
        exists (c :: pre). cbn [app forallb]. rewrite Ed, Eu, Hall. auto.
      * destruct pu; [discriminate|]. intros [= <- <- <-]. exists []. auto.
Qed.

(** The characters of an ASCII text that the integer parser accepts. *)
Lemma ascii_int_chars t sign v n rest t2 :
  (let t1 := drop_while is_ascii_space t in
   (sign, t2) = match t1 with
                | c :: t' =>
                    if c =? 43 then (1, t') else if c =? 45 then (-1, t') else (1, t1)
                | [] => (1, t1)
                end) ->
  scan_digits t2 false 0 0 = Some (v, n, rest) ->
  drop_while is_ascii_space rest = [] ->
  forall a, In a t ->
  is_ascii_space a = true \/ is_ascii_digit a = true \/ a = 43 \/ a = 45 \/ a = 95.
Proof.
  cbn zeta. intros Hsign Hscan Hrest a Ha.
  destruct (drop_while_spec is_ascii_space t) as (head & Ht & Hhead & _).
  destruct (scan_digits_chars _ _ _ _ _ _ _ Hscan) as (pre & Hpre & Hall).
  apply drop_while_nil in Hrest.
  rewrite forallb_forall in Hhead, Hall, Hrest.
  assert (Hin2 : In a t2 ->
    is_ascii_space a = true \/ is_ascii_digit a = true \/ a = 43 \/ a = 45 \/ a = 95).
  { rewrite Hpre. intros H. apply in_app_or in H as [H | H].
    - specialize (Hall a H). apply orb_true_iff in Hall as [H' | H']; auto.
      apply Z.eqb_eq in H'. auto.
    - auto. }
  rewrite Ht in Ha. apply in_app_or in Ha as [Ha | Ha]; [auto|].
  destruct (drop_while is_ascii_space t) as [|c t'].
  - destruct Ha.
  - destruct (c =? 43) eqn:E1; [|destruct (c =? 45) eqn:E2].
    + injection Hsign as _ ->. apply Z.eqb_eq in E1.
      destruct Ha as [<- | Ha]; auto.
    + injection Hsign as _ ->. apply Z.eqb_eq in E2.
      destruct Ha as [<- | Ha]; auto.
    + injection Hsign as _ ->. auto.
Qed.

Lemma to_ascii_in s :
  forall t c, to_ascii s = Some t -> In c s ->
  exists a, In a t /\ to_ascii_char c = Some a.
Proof.
  induction s as [|d s IH]; intros t c; cbn [to_ascii]; [intros _ []|].
  destruct (to_ascii_char d) as [a|] eqn:Ea; [|discriminate].
  destruct (to_ascii s) as [t'|]; [|discriminate].
  intros [= <-] [<- | Hc].
  - exists a. cbn [In]. auto.
  - destruct (IH t' c eq_refl Hc) as (a' & Hin & H). exists a'. cbn [In]. auto.
Qed.

Lemma ascii_digit_decimal c : is_ascii_digit c = true -> is_decimal c = true.
Proof.
  unfold is_ascii_digit. intros H. apply andb_true_iff in H as [H1 H2].
  apply Z.leb_le in H1, H2. unfold is_decimal, unicode_decimal, decimal_zeros.
  cbn [decimal_in].
  replace (48 <=? c) with true by (symmetry; apply Z.leb_le; lia).
  replace (c <? 48 + 10) with true by (symmetry; apply Z.ltb_lt; lia).
  reflexivity.
Qed.

Lemma ascii_space_space c : is_ascii_space c = true -> is_space c = true.
Proof.
  unfold is_ascii_space, is_space. intros H.
  apply orb_true_iff in H as [H | H].
  - rewrite H. reflexivity.
  - apply Z.eqb_eq in H. subst c. reflexivity.
Qed.

Lemma py_int_chars s z c :
  py_int s = Some z -> In c s ->
  is_decimal c = true \/ is_space c = true \/ c = 43 \/ c = 45 \/ c = 95.
Proof.
  unfold py_int. destruct (to_ascii s) as [t|] eqn:Et; [|discriminate].
  destruct (match drop_while is_ascii_space t with
            | c0 :: t' =>
                if c0 =? 43 then (1, t') else if c0 =? 45 then (-1, t')
                else (1, drop_while is_ascii_space t)
            | [] => (1, drop_while is_ascii_space t)
            end) as [sign t2] eqn:Esign.
  destruct t2 as [|c2 t2']; [discriminate|].
  destruct (c2 =? 95); [discriminate|].
  destruct (scan_digits (c2 :: t2') false 0 0) as [[[v n] rest]|] eqn:Escan;
    [|discriminate].
  destruct n; [discriminate|].
  destruct (int_max_str_digits <? S n)%nat; [discriminate|].
  destruct (drop_while is_ascii_space rest) eqn:Erest; [|discriminate].
  intros _ Hc.
  destruct (to_ascii_in s t c Et Hc) as (a & Ha & Hca).
  pose proof (ascii_int_chars t sign v (S n) rest (c2 :: t2')
                (eq_sym Esign) Escan Erest a Ha) as Hok.
  unfold to_ascii_char in Hca.
  destruct (c <? 127).
  - injection Hca as <-.
    destruct Hok as [H | [H | H]]; auto using ascii_space_space, ascii_digit_decimal.
  - destruct (is_space c); [auto|].
    unfold is_decimal. destruct (unicode_decimal c); [auto|discriminate].
Qed.

(** C7 (amended). Only decimal integer numerals are understood, written
    with the decimal digits of any script and not only with 0 to 9: a
    question that holds a character that is neither a decimal digit, nor
    whitespace, nor an operator symbol has no parse; a scalar field that
    holds a character that is neither a decimal digit, nor whitespace, nor
    a sign, nor an underscore is coerced to [None]; a run of at most 4300
    decimal digits of any script is read as the number that its digits
    denote, as a scalar field and as an operand; and a run of more digits is
    not read: the field is coerced to [None] and the question has no
    parse. *)
Theorem decimal_numerals_only :
  (forall q c,
      In c q ->
      is_decimal c = false -> is_space c = false -> is_op_symbol c = false ->
      parse_question q = None)
  /\ (forall s c,
         In c s ->
         is_decimal c = false -> is_space c = false ->
         c <> 43 -> c <> 45 -> c <> 95 ->
         to_int s = None)
  /\ (forall ds,
         integer_token ds -> (length ds <= int_max_str_digits)%nat ->
         to_int ds = Some (integer_value ds))
  /\ (forall d1 sym d2 op,
         integer_token d1 -> (length d1 <= int_max_str_digits)%nat ->
         integer_token d2 -> (length d2 <= int_max_str_digits)%nat ->
         symbol_name sym = Some op ->
         parse_question (d1 ++ [sym] ++ d2)
         = Some (op, integer_value d1, integer_value d2))
  /\ (forall ds,
         integer_token ds -> (int_max_str_digits < length ds)%nat ->
         to_int ds = None)
  /\ (forall d1 sym d2 op,
         integer_token d1 -> integer_token d2 ->
         symbol_name sym = Some op ->
         (int_max_str_digits < length d1)%nat
         \/ (int_max_str_digits < length d2)%nat ->
         parse_question (d1 ++ [sym] ++ d2) = None).
Proof.
  split; [|split; [|split; [|split; [|split]]]].
  - intros q c Hc Hd Hs Ho.
    destruct (parse_question q) as [[[op a] b]|] eqn:E; [|reflexivity].
    apply parse_question_sound in E
      as (ws1 & d1 & ws2 & sym & ws3 & d2 & ws4 & -> & H1 & H2 & H3 & H4
          & [_ Hd1] & [_ Hd2] & Hop & _).
    apply symbol_name_op in Hop.
    unfold whitespace in *. rewrite forallb_forall in H1, H2, H3, H4, Hd1, Hd2.
    repeat (apply in_app_or in Hc as [Hc | Hc]);
      try (specialize (H1 c Hc)); try (specialize (H2 c Hc));
      try (specialize (H3 c Hc)); try (specialize (H4 c Hc));
      try (specialize (Hd1 c Hc)); try (specialize (Hd2 c Hc)); try congruence.
    destruct Hc as [<- | []]. congruence.
  - intros s c Hc Hd Hs H43 H45 H95. unfold to_int.
    destruct (py_int s) as [z|] eqn:E; [|reflexivity].
    destruct (py_int_chars s z c E Hc) as [H | [H | [H | [H | H]]]]; congruence.
  - intros ds Hds Hl. exact (py_int_readable ds (conj Hds Hl)).
  - intros d1 sym d2 op Hd1 Hl1 Hd2 Hl2 Hop.
    pose proof (parse_question_of_shape [] d1 [] sym [] d2 [] op) as H.
    rewrite app_nil_r in H. apply H; try reflexivity; try split; assumption.
  - intros ds Hds Hl. exact (py_int_too_long ds Hds Hl).
  - intros d1 sym d2 op Hd1 Hd2 Hop Hlong.
    pose proof (parse_question_too_long [] d1 [] sym [] d2 [] op) as H.
    rewrite app_nil_r in H. apply H; try reflexivity; assumption.
Qed.

Lemma decimal_numerals_only_witness :
  In 1637 [1633; 1634; 1637]
  /\ integer_token [1633; 1634; 1637]
  /\ (length [1633; 1634; 1637] <= int_max_str_digits)%nat
  /\ to_int [1633; 1634; 1637] = Some 125
  /\ parse_question (lit "1,5 + 2") = None.
Proof.
  assert (Ht : integer_token [1633; 1634; 1637]).
  { split; [discriminate|reflexivity]. }
  assert (Hl : (length [1633; 1634; 1637] <= int_max_str_digits)%nat).
  { apply Nat.leb_le. reflexivity. }
  split; [cbn [In]; auto|]. split; [exact Ht|]. split; [exact Hl|]. split.
  - exact (proj1 (proj2 (proj2 decimal_numerals_only)) [1633; 1634; 1637] Ht Hl).
  - apply (proj1 decimal_numerals_only (lit "1,5 + 2") 44); try reflexivity.
    cbn [lit list_ascii_of_string map In]. right. left. reflexivity.
Defined.

(** C7, as stated, fails: operands and scalar fields written with
    Arabic-Indic digits, which are not the ASCII digits, are read. *)
Lemma arabic_indic_digits_read :
  forallb is_ascii_digit [1635; 1636] = false
  /\ parse_question ([1635] ++ lit " + " ++ [1636]) = Some (lit "add", 3, 4)
  /\ to_int [1633; 1634; 1632] = Some 120.
Proof.
  vm_compute. repeat split.
Qed.

End Numerals.

(** ** The two stages on a sample text *)

Section Pipeline.

Lemma parse_question_exact_witness :
  parse_question (lit " 30+93 ") = Some (lit "add", 30, 93)
  /\ readable_question (lit " 30+93 ") (lit "add") 30 93.
Proof.
  assert (H : parse_question (lit " 30+93 ") = Some (lit "add", 30, 93))
    by (vm_compute; reflexivity).
  split; [exact H|].
  exact (proj1 (proj1 parse_question_exact (lit " 30+93 ") (lit "add") 30 93) H).
Defined.

(** C3, as stated, fails: a question whose first integer has 4301 digits is
    an integer, an operator symbol and an integer, and has no parse. *)
Lemma long_operand_not_parsed :
  let q := repeat 49 4301 ++ lit "+1" in
  question_shape q (lit "add") (integer_value (repeat 49 4301)) 1
  /\ parse_question q = None.
Proof.
  intros q. split.
  - exists [], (repeat 49 4301), [], 43, [], [49], [].
    split; [reflexivity|]. do 4 (split; [reflexivity|]).
    split; [split; [discriminate|vm_compute; reflexivity]|].
    split; [split; [discriminate|reflexivity]|].
    split; [reflexivity|]. split; reflexivity.
  - vm_compute. reflexivity.
Qed.

Example sample_rows :
  (sessions <- extract_session_records Json.loads sample_text ;;
   build_problem_sheet_rows sessions)
  = Ok [ [ lit "2024-05-01 10:00:00"; lit "client-1"; lit "add"; lit "30";
           lit "93"; []; lit "120"; lit "45"; lit "Normal"; lit "120";
           lit "https://x/game"; lit "1" ];
         [ lit "2024-05-01 10:00:00"; lit "client-1"; lit "mul"; lit "2";
           lit "60"; []; lit "120"; lit "45"; lit "Normal"; lit "120";
           lit "https://x/game"; lit "3" ] ].
Proof. vm_compute. reflexivity. Qed.

End Pipeline.

(** * Further properties of the code *)

(** ** [str] and [int] on integers *)

Section IntegerText.

Lemma uint_value_acc d :
  forall p, uint_value d (Z.pos p) = Z.pos (Pos.of_uint_acc d p).
Proof.
  induction d; intros p; cbn [uint_value Pos.of_uint_acc];
    try reflexivity; rewrite <- IHd; f_equal; lia.
Qed.

Lemma uint_value_zero d : uint_value d 0 = Z.of_N (Pos.of_uint d).
Proof.
  induction d; cbn [uint_value Pos.of_uint]; try reflexivity;
    try (change (10 * 0 + 0) with 0; exact IHd);
    match goal with
    | |- uint_value _ ?z = _ =>
        let p := eval vm_compute in z in change z with p
    end;
    rewrite uint_value_acc; reflexivity.
Qed.

Lemma uint_text_digits d :
  forallb is_ascii_digit (lit (NilEmpty.string_of_uint d)) = true.
Proof.
  induction d; cbn [NilEmpty.string_of_uint]; try reflexivity;
    unfold lit in *; cbn [list_ascii_of_string map forallb];
    rewrite IHd; reflexivity.
Qed.

Lemma digit_value_ascii c : is_ascii_digit c = true -> digit_value c = c - 48.
Proof.
  intros H. pose proof (ascii_digit_decimal c H) as Hd.
  pose proof (is_decimal_value c Hd) as Hv.
  destruct (decimal_facts _ _ Hv) as (_ & Hlow & _).
  apply Hlow. unfold is_ascii_digit in H. apply andb_true_iff in H as [_ H].
  apply Z.leb_le in H. lia.
Qed.

Lemma uint_text_value d :
  forall acc,
  fold_left (fun acc c => 10 * acc + digit_value c)
    (lit (NilEmpty.string_of_uint d)) acc
  = uint_value d acc.
Proof.
  induction d; intros acc; cbn [NilEmpty.string_of_uint uint_value];
    try reflexivity;
    unfold lit in *; cbn [list_ascii_of_string map fold_left];
    rewrite <- IHd; f_equal.
Qed.

Lemma ascii_digits_token ds :
  ds <> [] -> forallb is_ascii_digit ds = true -> integer_token ds.
Proof.
  intros Hne H. split; [exact Hne|].
  rewrite forallb_forall in *. intros c Hc. apply ascii_digit_decimal, H, Hc.
Qed.

Lemma uint_text_nonempty d :
  d <> Decimal.Nil -> lit (NilEmpty.string_of_uint d) <> [].
Proof.
  destruct d; [congruence|..]; intros _; discriminate.
Qed.

Lemma pos_to_uint_nonnil p : Pos.to_uint p <> Decimal.Nil.
Proof.
  intros H. pose proof (DecimalPos.Unsigned.of_to p) as E.
  rewrite H in E. discriminate.
Qed.

(** The text of a positive number: a run of ASCII decimal digits that
    denotes it. *)
Lemma pos_text p :
  let ds := lit (NilEmpty.string_of_uint (Pos.to_uint p)) in
  integer_token ds /\ forallb is_ascii_digit ds = true
  /\ integer_value ds = Z.pos p.
Proof.
  cbn zeta. split; [|split].
  - apply ascii_digits_token; [|apply uint_text_digits].
    apply uint_text_nonempty, pos_to_uint_nonnil.
  - apply uint_text_digits.
  - unfold integer_value. rewrite uint_text_value, uint_value_zero.
    rewrite DecimalPos.Unsigned.of_to. reflexivity.
Qed.

Lemma str_of_int_pos p :
  str_of_int (Z.pos p) = lit (NilEmpty.string_of_uint (Pos.to_uint p)).
Proof.
  unfold str_of_int. cbn [Z.to_int NilZero.string_of_int].
  unfold NilZero.string_of_uint.
  pose proof (pos_to_uint_nonnil p) as H.
  destruct (Pos.to_uint p); [congruence|..]; reflexivity.
Qed.

Lemma str_of_int_neg p :
  str_of_int (Z.neg p) = 45 :: lit (NilEmpty.string_of_uint (Pos.to_uint p)).
Proof.
  unfold str_of_int. cbn [Z.to_int NilZero.string_of_int].
  unfold NilZero.string_of_uint.
  pose proof (pos_to_uint_nonnil p) as H.
  destruct (Pos.to_uint p); [congruence|..]; reflexivity.
Qed.

(** The text of a number that is not negative is an integer token that
    denotes it. *)
Lemma str_of_int_token n :
  0 <= n ->
  integer_token (str_of_int n) /\ forallb is_ascii_digit (str_of_int n) = true
  /\ integer_value (str_of_int n) = n.
Proof.
  destruct n as [|p|p]; intros Hn; [|rewrite str_of_int_pos; apply pos_text|lia].
  repeat split; try reflexivity. discriminate.
Qed.

Lemma py_int_minus ds :
  integer_token ds ->
  py_int (45 :: ds)
  = if (int_max_str_digits <? length ds)%nat then None
    else Some (- integer_value ds).
Proof.
  intros [Hne Hall]. unfold py_int. cbn [to_ascii].
  change (to_ascii_char 45) with (Some 45).
  rewrite (to_ascii_decimal ds Hall).
  destruct ds as [|c ds]; [congruence|].
  pose proof Hall as Hall'. cbn [forallb] in Hall'.
  apply andb_true_iff in Hall' as [Hc _].
  pose proof (digit_value_range c Hc) as Hr.
  cbn [drop_while].
  change (is_ascii_space 45) with false. cbn iota.
  change (45 =? 43) with false. change (45 =? 45) with true. cbn iota.
  cbn [map].
  replace (48 + digit_value c =? 95) with false by (symmetry; apply Z.eqb_neq; lia).
  change ((48 + digit_value c) :: map (fun c0 => 48 + digit_value c0) ds)
    with (map (fun c0 => 48 + digit_value c0) (c :: ds)).
  rewrite (scan_digits_decimal (c :: ds) 0 0 Hall).
  cbn [Nat.add length drop_while].
  destruct (int_max_str_digits <? S (length ds))%nat; [reflexivity|].
  unfold integer_value. f_equal; lia.
Qed.

(** The value of a run of digits against its length. *)
Lemma digits_upper ds :
  forall acc, 0 <= acc -> forallb is_decimal ds = true ->
  fold_left (fun acc c => 10 * acc + digit_value c) ds acc
  < (acc + 1) * 10 ^ Z.of_nat (length ds).
Proof.
  induction ds as [|c ds IH]; intros acc Hacc Hall; cbn [fold_left length].
  - change (10 ^ Z.of_nat 0) with 1. lia.
  - cbn [forallb] in Hall. apply andb_true_iff in Hall as [Hc Hall].
    pose proof (digit_value_range c Hc) as Hr.
    rewrite Nat2Z.inj_succ, Z.pow_succ_r by lia.
    assert (HP : 0 < 10 ^ Z.of_nat (length ds)) by (apply Z.pow_pos_nonneg; lia).
    specialize (IH (10 * acc + digit_value c) ltac:(lia) Hall). nia.
Qed.

Lemma digits_lower ds :
  forall acc, 0 <= acc -> forallb is_decimal ds = true ->
  acc * 10 ^ Z.of_nat (length ds)
  <= fold_left (fun acc c => 10 * acc + digit_value c) ds acc.
Proof.
  induction ds as [|c ds IH]; intros acc Hacc Hall; cbn [fold_left length].
  - change (10 ^ Z.of_nat 0) with 1. lia.
  - cbn [forallb] in Hall. apply andb_true_iff in Hall as [Hc Hall].
    pose proof (digit_value_range c Hc) as Hr.
    rewrite Nat2Z.inj_succ, Z.pow_succ_r by lia.
    assert (HP : 0 < 10 ^ Z.of_nat (length ds)) by (apply Z.pow_pos_nonneg; lia).
    specialize (IH (10 * acc + digit_value c) ltac:(lia) Hall). nia.
Qed.

(** The numeral of a positive number does not start with a zero. *)
Lemma pos_to_uint_head p d : Pos.to_uint p <> Decimal.D0 d.
Proof.
  intros H.
  pose proof (DecimalPos.Unsigned.to_of (Pos.to_uint p)) as U.
  rewrite DecimalPos.Unsigned.of_to in U.
  change (N.to_uint (N.pos p)) with (Pos.to_uint p) in U.
  unfold Decimal.unorm in U.
  destruct (Decimal.nzhead (Pos.to_uint p)) eqn:E;
    try (rewrite U in H; discriminate H).
  - exact (DecimalPos.Unsigned.to_uint_nonzero p U).
  - exact (DecimalFacts.nzhead_nonzero _ _ E).
Qed.

(** A positive number is at least the power of ten of the digits after the
    first of its numeral. *)
Lemma pos_text_length p :
  10 ^ (Z.of_nat (length (lit (NilEmpty.string_of_uint (Pos.to_uint p)))) - 1)
  <= Z.pos p.
Proof.
  destruct (pos_text p) as ([_ Hall] & _ & Hv). revert Hall Hv.
  pose proof (pos_to_uint_nonnil p) as Hnil.
  pose proof (pos_to_uint_head p) as Hhead.
  destruct (Pos.to_uint p) as [|u|u|u|u|u|u|u|u|u|u];
    [congruence|exact (False_ind _ (Hhead u eq_refl))|..];
    cbn [NilEmpty.string_of_uint]; unfold lit;
    cbn [list_ascii_of_string map length]; fold (lit (NilEmpty.string_of_uint u));
    intros Hall Hv; cbn [forallb] in Hall;
    apply andb_true_iff in Hall as [_ Hall];
    rewrite <- Hv; unfold integer_value; cbn [fold_left];
    rewrite Nat2Z.inj_succ;
    replace (Z.succ (Z.of_nat (length (lit (NilEmpty.string_of_uint u)))) - 1)
      with (Z.of_nat (length (lit (NilEmpty.string_of_uint u)))) by lia;
    match goal with
    | |- _ <= fold_left _ _ ?acc =>
        let v := eval vm_compute in acc in
        change acc with v;
        pose proof (digits_lower (lit (NilEmpty.string_of_uint u)) v
                      ltac:(lia) Hall) as Hlow
    end;
    assert (HP : 0 < 10 ^ Z.of_nat (length (lit (NilEmpty.string_of_uint u))))
      by (apply Z.pow_pos_nonneg; lia);
    lia.
Qed.

(** The numeral of a number below [int_limit] is within the limit of
    [int]. *)
Lemma str_of_int_length n :
  0 <= n < int_limit ->
  (length (str_of_int n) <= int_max_str_digits)%nat.
Proof.
  intros [Hn Hlim]. destruct n as [|p|p]; [|rewrite str_of_int_pos|lia].
  - apply Nat.leb_le. reflexivity.
  - pose proof (pos_text_length p) as Hlow. unfold int_limit in Hlim.
    set (len := length (lit (NilEmpty.string_of_uint (Pos.to_uint p)))) in *.
    assert (H : 10 ^ (Z.of_nat len - 1) < 10 ^ Z.of_nat int_max_str_digits) by lia.
    apply Z.pow_lt_mono_r_iff in H; lia.
Qed.

Lemma str_of_int_readable n :
  0 <= n < int_limit -> readable_token (str_of_int n).
Proof.
  intros Hn. split; [|exact (str_of_int_length n Hn)].
  apply str_of_int_token. lia.
Qed.

(** [int] reads back the numeral of every number that is within the limit. *)
Lemma py_int_str_of_int n :
  Z.abs n < int_limit -> py_int (str_of_int n) = Some n.
Proof.
  intros Hn. destruct n as [|p|p].
  - vm_compute. reflexivity.
  - destruct (str_of_int_token (Z.pos p)) as (_ & _ & Hv); [lia|].
    rewrite (py_int_readable _ (str_of_int_readable (Z.pos p) ltac:(lia))), Hv.
    reflexivity.
  - rewrite str_of_int_neg.
    destruct (pos_text p) as (Ht & _ & Hv).
    rewrite (py_int_minus _ Ht), Hv.
    pose proof (str_of_int_length (Z.pos p) ltac:(lia)) as Hl.
    rewrite str_of_int_pos in Hl. apply Nat.ltb_ge in Hl. rewrite Hl.
    reflexivity.
Qed.

(** Two numbers with the same numeral are the same number. *)
Lemma str_of_int_inj n m : str_of_int n = str_of_int m -> n = m.
Proof.
  assert (Hneg : forall p d,
    0 <= d -> str_of_int (Z.neg p) = str_of_int d -> False).
  { intros p d Hd E. destruct (str_of_int_token d Hd) as (_ & Hdig & _).
    rewrite <- E, str_of_int_neg in Hdig. discriminate Hdig. }
  assert (Hpos : forall a b, 0 <= a -> 0 <= b ->
    str_of_int a = str_of_int b -> a = b).
  { intros a b Ha Hb E.
    destruct (str_of_int_token a Ha) as (_ & _ & Hva).
    destruct (str_of_int_token b Hb) as (_ & _ & Hvb). congruence. }
  intros E. destruct n as [|p|p], m as [|q|q];
    try (apply Hpos; [lia|lia|exact E]);
    try (exfalso; apply Hneg in E; [exact E|lia]);
    try (exfalso; symmetry in E; apply Hneg in E; [exact E|lia]).
  rewrite !str_of_int_neg in E. injection E as E.
  destruct (pos_text p) as (_ & _ & Hvp). destruct (pos_text q) as (_ & _ & Hvq).
  rewrite E in Hvp. rewrite Hvp in Hvq. injection Hvq as ->. reflexivity.
Qed.

Lemma scan_digits_bound s :
  forall pu acc n v n' rest,
  scan_digits s pu acc n = Some (v, n', rest) ->
  0 <= acc < 10 ^ Z.of_nat n ->
  0 <= v < 10 ^ Z.of_nat n'.
Proof.
  induction s as [|c s IH]; intros pu acc n v n' rest; cbn [scan_digits].
  - destruct pu; [discriminate|]. intros [= <- <- <-]. auto.
  - destruct (is_ascii_digit c) eqn:Ed.
    + intros H Hacc. apply (IH _ _ _ _ _ _ H).
      unfold is_ascii_digit in Ed. apply andb_true_iff in Ed as [E1 E2].
      apply Z.leb_le in E1, E2.
      rewrite Nat2Z.inj_succ, Z.pow_succ_r by lia. lia.
    + destruct (c =? 95).
      * destruct pu; [discriminate|]. intros H Hacc. exact (IH _ _ _ _ _ _ H Hacc).
      * destruct pu; [discriminate|]. intros [= <- <- <-]. auto.
Qed.

(** What [int] reads is below [int_limit] in absolute value. *)
Lemma py_int_bound s z : py_int s = Some z -> Z.abs z < int_limit.
Proof.
  unfold py_int. destruct (to_ascii s) as [t|]; [|discriminate].
  destruct (match drop_while is_ascii_space t with
            | c0 :: t' =>
                if c0 =? 43 then (1, t') else if c0 =? 45 then (-1, t')
                else (1, drop_while is_ascii_space t)
            | [] => (1, drop_while is_ascii_space t)
            end) as [sign t2] eqn:Esign.
  assert (Hsign : sign = 1 \/ sign = -1).
  { destruct (drop_while is_ascii_space t) as [|c0 t'];
      [|destruct (c0 =? 43); [|destruct (c0 =? 45)]];
      injection Esign as <- _; auto. }
  destruct t2 as [|c2 t2']; [discriminate|].
  destruct (c2 =? 95); [discriminate|].
  destruct (scan_digits (c2 :: t2') false 0 0) as [[[v n] rest]|] eqn:Escan;
    [|discriminate].
  destruct n; [discriminate|].
  destruct (int_max_str_digits <? S n)%nat eqn:L; [discriminate|].
  destruct (drop_while is_ascii_space rest); [|discriminate].
  intros [= <-]. apply Nat.ltb_ge in L.
  pose proof (scan_digits_bound _ _ _ _ _ _ _ Escan) as Hb.
  change (10 ^ Z.of_nat 0) with 1 in Hb. specialize (Hb ltac:(lia)).
  assert (Hle : 10 ^ Z.of_nat (S n) <= int_limit).
  { unfold int_limit. apply Z.pow_le_mono_r; lia. }
  destruct Hsign as [-> | ->]; lia.
Qed.

End IntegerText.

(** ** Further properties of [parse_question] *)

Section ParseQuestionMore.

Lemma integer_value_nonneg ds :
  forallb is_decimal ds = true -> 0 <= integer_value ds.
Proof.
  unfold integer_value.
  assert (H : forall acc, 0 <= acc -> forallb is_decimal ds = true ->
                          0 <= fold_left (fun acc c => 10 * acc + digit_value c) ds acc).
  { induction ds as [|c ds IH]; intros acc Hacc Hall; cbn [fold_left]; [exact Hacc|].
    cbn [forallb] in Hall. apply andb_true_iff in Hall as [Hc Hall].
    pose proof (digit_value_range c Hc). apply IH; [lia|exact Hall]. }
  apply H. lia.
Qed.

Lemma symbol_name_operation c op :
  symbol_name c = Some op -> In op operation_names.
Proof.
  unfold symbol_name, operation_names.
  repeat match goal with |- context [if ?b then _ else _] => destruct b end;
    intros [= <-]; cbn [In]; auto.
Qed.

Lemma parse_question_result q op a b :
  parse_question q = Some (op, a, b) ->
  In op operation_names /\ 0 <= a /\ 0 <= b.
Proof.
  intros H. apply parse_question_sound in H
    as (ws1 & d1 & ws2 & sym & ws3 & d2 & ws4 & _ & _ & _ & _ & _
        & [_ Hd1] & [_ Hd2] & Hop & -> & ->).
  split; [exact (symbol_name_operation _ _ Hop)|].
  split; apply integer_value_nonneg; assumption.
Qed.

(** X1. A parsed question names one of the four operations and its operands
    are not negative: a sign before a number is never part of an operand,
    so a question that starts with a sign has no parse. *)
Theorem parse_question_range :
  (forall q op a b,
      parse_question q = Some (op, a, b) ->
      In op operation_names /\ 0 <= a /\ 0 <= b)
  /\ (forall q, parse_question (43 :: q) = None /\ parse_question (45 :: q) = None).
Proof.
  split; [exact parse_question_result|].
  intros q. split.
  - destruct (parse_question (43 :: q)) as [[[op a] b]|] eqn:E; [|reflexivity].
    apply parse_question_sound in E
      as (ws1 & d1 & ws2 & sym & ws3 & d2 & ws4 & E & H1 & _ & _ & _
          & [Hn1 Hd1] & _).
    destruct ws1 as [|w ws1]; [destruct d1 as [|c d1]; [congruence|]|];
      cbn [app] in E; injection E as <- _.
    + cbn [forallb] in Hd1. apply andb_true_iff in Hd1 as [Hc _]. discriminate.
    + unfold whitespace in H1. cbn [forallb] in H1.
      apply andb_true_iff in H1 as [Hc _]. discriminate.
  - destruct (parse_question (45 :: q)) as [[[op a] b]|] eqn:E; [|reflexivity].
    apply parse_question_sound in E
      as (ws1 & d1 & ws2 & sym & ws3 & d2 & ws4 & E & H1 & _ & _ & _
          & [Hn1 Hd1] & _).
    destruct ws1 as [|w ws1]; [destruct d1 as [|c d1]; [congruence|]|];
      cbn [app] in E; injection E as <- _.
    + cbn [forallb] in Hd1. apply andb_true_iff in Hd1 as [Hc _]. discriminate.
    + unfold whitespace in H1. cbn [forallb] in H1.
      apply andb_true_iff in H1 as [Hc _]. discriminate.
Qed.

Lemma parse_question_range_witness :
  parse_question (lit "12 - 30") = Some (lit "sub", 12, 30)
  /\ In (lit "sub") operation_names /\ 0 <= 12 /\ 0 <= 30.
Proof.
  assert (H : parse_question (lit "12 - 30") = Some (lit "sub", 12, 30))
    by (vm_compute; reflexivity).
  split; [exact H|].
  exact (proj1 parse_question_range _ _ _ _ H).
Defined.

(** X2. A question printed from an operator symbol and two operands that
    are not negative and have at most 4300 digits (they are below
    [int_limit]) is parsed back to the operation of the symbol and the same
    operands. *)
Theorem parse_question_of_operands a b sym name :
  0 <= a < int_limit -> 0 <= b < int_limit ->
  symbol_name sym = Some name ->
  parse_question (str_of_int a ++ [32] ++ [sym] ++ [32] ++ str_of_int b)
  = Some (name, a, b)
  /\ parse_question (str_of_int a ++ [sym] ++ str_of_int b) = Some (name, a, b).
Proof.
  intros Ha Hb Hsym.
  destruct (str_of_int_token a (proj1 Ha)) as (_ & _ & Hva).
  destruct (str_of_int_token b (proj1 Hb)) as (_ & _ & Hvb).
  pose proof (str_of_int_readable a Ha) as Hta.
  pose proof (str_of_int_readable b Hb) as Htb.
  split.
  - pose proof (parse_question_of_shape [] (str_of_int a) [32] sym [32]
                  (str_of_int b) [] name) as H.
    rewrite Hva, Hvb, app_nil_r in H. apply H; auto; reflexivity.
  - pose proof (parse_question_of_shape [] (str_of_int a) [] sym []
                  (str_of_int b) [] name) as H.
    rewrite Hva, Hvb, app_nil_r in H. apply H; auto; reflexivity.
Qed.

Lemma parse_question_of_operands_witness :
  0 <= 588 < int_limit /\ 0 <= 7 < int_limit
  /\ symbol_name 247 = Some (lit "div")
  /\ parse_question (str_of_int 588 ++ [32] ++ [247] ++ [32] ++ str_of_int 7)
     = Some (lit "div", 588, 7).
Proof.
  assert (Ha : 0 <= 588 < int_limit) by (split; [lia|vm_compute; reflexivity]).
  assert (Hb : 0 <= 7 < int_limit) by (split; [lia|vm_compute; reflexivity]).
  split; [exact Ha|]. split; [exact Hb|]. split; [reflexivity|].
  exact (proj1 (parse_question_of_operands 588 7 247 (lit "div") Ha Hb eq_refl)).
Defined.

Lemma run_prefix (p : Z -> bool) ws :
  forall ws1 x c y,
  forallb p ws = true -> forallb p ws1 = true -> p c = false ->
  ws ++ x = ws1 ++ c :: y ->
  exists w, ws1 = ws ++ w /\ x = w ++ c :: y.
Proof.
  induction ws as [|a ws IH]; intros ws1 x c y Hws Hws1 Hc E.
  - exists ws1. auto.
  - cbn [forallb] in Hws. apply andb_true_iff in Hws as [Ha Hws].
    destruct ws1 as [|b ws1].
    + cbn [app] in E. injection E as -> _. congruence.
    + cbn [app] in E. injection E as -> E.
      cbn [forallb] in Hws1. apply andb_true_iff in Hws1 as [_ Hws1].
      destruct (IH ws1 x c y Hws Hws1 Hc E) as (w & -> & ->).
      exists w. auto.
Qed.

Lemma run_suffix (p : Z -> bool) ws :
  forall ws4 x c y,
  forallb p ws = true -> forallb p ws4 = true -> p c = false ->
  x ++ ws = y ++ c :: ws4 ->
  exists w, ws4 = w ++ ws /\ x = y ++ c :: w.
Proof.
  intros ws4 x c y Hws Hws4 Hc E.
  apply (f_equal (@rev Z)) in E.
  rewrite !rev_app_distr in E. cbn [rev] in E. rewrite <- app_assoc in E.
  cbn [app] in E.
  destruct (run_prefix p (rev ws) (rev ws4) (rev x) c (rev y)) as (w & E1 & E2);
    auto using forallb_rev.
  exists (rev w). split.
  - apply (f_equal (@rev Z)) in E1.
    rewrite rev_app_distr, !rev_involutive in E1. exact E1.
  - apply (f_equal (@rev Z)) in E2.
    rewrite rev_app_distr, rev_involutive in E2. cbn [rev] in E2.
    rewrite rev_involutive, <- app_assoc in E2. exact E2.
Qed.

Lemma forallb_app_inv (p : Z -> bool) l1 l2 :
  forallb p (l1 ++ l2) = true -> forallb p l1 = true /\ forallb p l2 = true.
Proof. rewrite forallb_app. apply andb_true_iff. Qed.

Lemma question_shape_pad ws ws' q op a b :
  whitespace ws -> whitespace ws' ->
  question_shape q op a b <-> question_shape (ws ++ q ++ ws') op a b.
Proof.
  intros Hws Hws'. split.
  - intros (ws1 & d1 & ws2 & sym & ws3 & d2 & ws4 & -> & H1 & H2 & H3 & H4 & R).
    exists (ws ++ ws1), d1, ws2, sym, ws3, d2, (ws4 ++ ws').
    repeat split; try apply R; auto.
    + rewrite <- !app_assoc. reflexivity.
    + unfold whitespace in *. rewrite forallb_app, Hws, H1. reflexivity.
    + unfold whitespace in *. rewrite forallb_app, H4, Hws'. reflexivity.
  - intros (ws1 & d1 & ws2 & sym & ws3 & d2 & ws4 & E & H1 & H2 & H3 & H4
            & Hd1 & Hd2 & R).
    destruct Hd1 as [Hn1 Hd1]. destruct Hd2 as [Hn2 Hd2].
    destruct d1 as [|c1 d1]; [congruence|].
    destruct (exists_last Hn2) as (d2' & c2 & Ed2).
    assert (Hc1 : is_space c1 = false).
    { cbn [forallb] in Hd1. apply andb_true_iff in Hd1 as [Hc _].
      exact (decimal_not_space _ Hc). }
    assert (Hc2 : is_space c2 = false).
    { rewrite Ed2 in Hd2. apply forallb_app_inv in Hd2 as [_ Hc].
      cbn [forallb] in Hc. apply andb_true_iff in Hc as [Hc _].
      exact (decimal_not_space _ Hc). }
    cbn [app] in E.
    destruct (run_prefix is_space ws ws1 (q ++ ws') c1
                (d1 ++ ws2 ++ sym :: ws3 ++ d2 ++ ws4) Hws H1 Hc1 E)
      as (w & -> & E').
    assert (E'' : q ++ ws'
                  = (w ++ c1 :: d1 ++ ws2 ++ sym :: ws3 ++ d2') ++ c2 :: ws4).
    { rewrite E', Ed2. rewrite <- !app_assoc. cbn [app].
      repeat (f_equal; rewrite <- ?app_assoc; cbn [app]). }
    destruct (run_suffix is_space ws' ws4 q c2 _ Hws' H4 Hc2 E'') as (w' & -> & ->).
    unfold whitespace in H1, H4.
    apply forallb_app_inv in H1 as [_ Hw]. apply forallb_app_inv in H4 as [Hw' _].
    exists w, (c1 :: d1), ws2, sym, ws3, d2, w'.
    repeat split; try apply R; auto; try congruence.
    rewrite Ed2. rewrite <- !app_assoc. cbn [app].
    repeat (f_equal; rewrite <- ?app_assoc; cbn [app]).
Qed.

Lemma readable_question_pad ws ws' q op a b :
  whitespace ws -> whitespace ws' ->
  readable_question q op a b <-> readable_question (ws ++ q ++ ws') op a b.
Proof.
  intros Hws Hws'. split.
  - intros (ws1 & d1 & ws2 & sym & ws3 & d2 & ws4 & -> & H1 & H2 & H3 & H4 & R).
    exists (ws ++ ws1), d1, ws2, sym, ws3, d2, (ws4 ++ ws').
    split; [rewrite <- !app_assoc; reflexivity|].
    split; [unfold whitespace in *; rewrite forallb_app, Hws, H1; reflexivity|].
    split; [exact H2|]. split; [exact H3|].
    split; [unfold whitespace in *; rewrite forallb_app, H4, Hws'; reflexivity|].
    exact R.
  - intros (ws1 & d1 & ws2 & sym & ws3 & d2 & ws4 & E & H1 & H2 & H3 & H4
            & Hd1 & Hd2 & R).
    destruct Hd1 as [[Hn1 Hd1] Hl1]. destruct Hd2 as [[Hn2 Hd2] Hl2].
    destruct d1 as [|c1 d1]; [congruence|].
    destruct (exists_last Hn2) as (d2' & c2 & Ed2).
    assert (Hc1 : is_space c1 = false).
    { cbn [forallb] in Hd1. apply andb_true_iff in Hd1 as [Hc _].
      exact (decimal_not_space _ Hc). }
    assert (Hc2 : is_space c2 = false).
    { rewrite Ed2 in Hd2. apply forallb_app_inv in Hd2 as [_ Hc].
      cbn [forallb] in Hc. apply andb_true_iff in Hc as [Hc _].
      exact (decimal_not_space _ Hc). }
    cbn [app] in E.
    destruct (run_prefix is_space ws ws1 (q ++ ws') c1
                (d1 ++ ws2 ++ sym :: ws3 ++ d2 ++ ws4) Hws H1 Hc1 E)
      as (w & -> & E').
    assert (E'' : q ++ ws'
                  = (w ++ c1 :: d1 ++ ws2 ++ sym :: ws3 ++ d2') ++ c2 :: ws4).
    { rewrite E', Ed2. rewrite <- !app_assoc. cbn [app].
      repeat (f_equal; rewrite <- ?app_assoc; cbn [app]). }
    destruct (run_suffix is_space ws' ws4 q c2 _ Hws' H4 Hc2 E'') as (w' & -> & ->).
    unfold whitespace in H1, H4.
    apply forallb_app_inv in H1 as [_ Hw]. apply forallb_app_inv in H4 as [Hw' _].
    exists w, (c1 :: d1), ws2, sym, ws3, d2, w'.
    split.
    { rewrite Ed2. rewrite <- !app_assoc. cbn [app].
      repeat (f_equal; rewrite <- ?app_assoc; cbn [app]). }
    split; [exact Hw|]. split; [exact H2|]. split; [exact H3|].
    split; [exact Hw'|].
    split; [split; [split; [discriminate|exact Hd1]|exact Hl1]|].
    split; [split; [split; [exact Hn2|exact Hd2]|exact Hl2]|].
    exact R.
Qed.

Lemma strip_spec s :
  exists head tail,
    s = head ++ strip s ++ tail
    /\ forallb is_space head = true /\ forallb is_space tail = true.
Proof.
  unfold strip, lstrip_by.
  destruct (drop_while_spec is_space s) as (head & Hs & Hhead & _).
  destruct (rstrip_by_spec is_space (drop_while is_space s)) as (tail & Ht & Htail & _).
  exists head, tail. repeat split; auto.
  rewrite <- Ht. exact Hs.
Qed.

(** X3. Whitespace around a question does not matter: the question and the
    question with whitespace added or stripped at its two ends have the same
    parse, or both have none. *)
Theorem parse_question_strip :
  (forall ws ws' q,
      whitespace ws -> whitespace ws' ->
      parse_question (ws ++ q ++ ws') = parse_question q)
  /\ (forall q, parse_question (strip q) = parse_question q).
Proof.
  assert (Hpad : forall ws ws' q,
      whitespace ws -> whitespace ws' ->
      parse_question (ws ++ q ++ ws') = parse_question q).
  { intros ws ws' q Hws Hws'.
    destruct (parse_question q) as [[[op a] b]|] eqn:E.
    - apply parse_question_complete.
      apply (readable_question_pad ws ws' q op a b Hws Hws').
      apply parse_question_readable, E.
    - destruct (parse_question (ws ++ q ++ ws')) as [[[op a] b]|] eqn:E';
        [|reflexivity].
      apply parse_question_readable in E'.
      apply (readable_question_pad ws ws' q op a b Hws Hws') in E'.
      apply parse_question_complete in E'. congruence. }
  split; [exact Hpad|].
  intros q. destruct (strip_spec q) as (head & tail & Hq & Hh & Ht).
  rewrite Hq at 2. symmetry. apply Hpad; assumption.
Qed.

Lemma parse_question_strip_witness :
  whitespace [9; 32] /\ whitespace [160]
  /\ parse_question ([9; 32] ++ lit "30+93" ++ [160]) = parse_question (lit "30+93").
Proof.
  assert (H1 : whitespace [9; 32]) by reflexivity.
  assert (H2 : whitespace [160]) by reflexivity.
  split; [exact H1|]. split; [exact H2|].
  exact (proj1 parse_question_strip [9; 32] [160] (lit "30+93") H1 H2).
Defined.

End ParseQuestionMore.

(** ** Numbers in and out *)

Section NumberFields.

(** X4. [to_int] reads back every integer of at most 4300 digits that
    [str] prints, and [str] is injective; what [to_int] reads has at most
    4300 digits (it is below [int_limit] in absolute value), so a numeric
    field is emitted in a normal form that a second reading leaves
    unchanged. *)
Theorem int_text_round_trip :
  (forall n, Z.abs n < int_limit -> to_int (str_of_int n) = Some n)
  /\ (forall n m, str_of_int n = str_of_int m -> n = m)
  /\ (forall s n,
         to_int s = Some n ->
         Z.abs n < int_limit
         /\ str_or_empty (to_int s) = str_of_int n
         /\ to_int (str_or_empty (to_int s)) = to_int s).
Proof.
  split; [exact py_int_str_of_int|]. split; [exact str_of_int_inj|].
  intros s n H. pose proof (py_int_bound s n H) as Hb.
  rewrite H. cbn [str_or_empty]. split; [exact Hb|]. split; [reflexivity|].
  exact (py_int_str_of_int n Hb).
Qed.

Lemma int_text_round_trip_witness :
  to_int (lit " +0_07 ") = Some 7
  /\ Z.abs 7 < int_limit
  /\ str_or_empty (to_int (lit " +0_07 ")) = str_of_int 7
  /\ to_int (str_or_empty (to_int (lit " +0_07 "))) = to_int (lit " +0_07 ").
Proof.
  assert (H : to_int (lit " +0_07 ") = Some 7) by (vm_compute; reflexivity).
  split; [exact H|].
  exact (proj2 (proj2 int_text_round_trip) (lit " +0_07 ") 7 H).
Defined.

End NumberFields.

(** ** The rows that the builder emits *)

Section Rows.

Lemma op_type_name_operation v n :
  op_type_name v = Ok (Some n) -> In n operation_names.
Proof.
  destruct v; try discriminate. cbn [op_type_name]. intros [= H].
  revert H. unfold OP_TYPE_TO_NAME, operation_names. cbn [dict_get].
  repeat match goal with |- context [if ?b then _ else _] => destruct b end;
    intros [= <-]; cbn [In]; auto.
Qed.

(** Every row that the loop body gives is the row of an operation among the
    four, with two operands that are not negative. *)
Lemma problem_row_shape session idx p row :
  problem_row session idx p = Ok (Some row) ->
  exists op a b,
    row = output_row session idx op a b
    /\ In op operation_names /\ 0 <= a /\ 0 <= b.
Proof.
  intros H.
  destruct p as [| | | | |items|d]; try discriminate.
  destruct (py_get (PDict d) (lit "question") (PStr [])) as [question|] eqn:Eq;
    [|discriminate].
  destruct (py_get (PDict d) (lit "operationType") (PStr [])) as [v|] eqn:Ev;
    [|discriminate].
  unfold problem_row in H. rewrite Eq, Ev in H. cbn [bind] in H.
  destruct (is_unknown v) eqn:Eu; cbn [bind] in H; [discriminate|].
  destruct question as [| | | |q| |]; try discriminate.
  cbn [is_final_missed bind] in H.
  destruct (startswith q (lit "final-missed-")) eqn:Ef; [discriminate|].
  cbn [parse_question_of bind] in H.
  destruct (op_type_name v) as [name|e] eqn:En.
  - pose proof (problem_row_retained session idx (PDict d) q v name Eq Ev Eu Ef En)
      as Hrow.
    unfold problem_row in Hrow. rewrite Eq, Ev in Hrow. cbn [bind] in Hrow.
    rewrite Eu in Hrow. cbn [bind is_final_missed] in Hrow. rewrite Ef in Hrow.
    cbn [parse_question_of bind] in Hrow. rewrite En in Hrow.
    rewrite Hrow in H. clear Hrow.
    destruct (parse_question q) as [[[m a] b]|] eqn:Ep; [|discriminate].
    injection H as <-.
    destruct (parse_question_result _ _ _ _ Ep) as (Hm & Ha & Hb).
    exists (match name with Some n => n | None => m end), a, b.
    repeat split; auto.
    destruct name as [n|]; [exact (op_type_name_operation _ _ En)|exact Hm].
  - destruct (parse_question q) as [[[m a] b]|]; discriminate.
Qed.

Lemma problems_loop_origin session ps :
  forall idx acc rows row,
  problems_loop session idx ps acc = Ok rows ->
  In row rows ->
  In row acc
  \/ exists i p, nth_error ps i = Some p
                 /\ problem_row session (idx + Z.of_nat i) p = Ok (Some row).
Proof.
  intros idx acc rows row H Hin.
  apply problems_loop_retained in H. subst rows.
  apply in_app_or in Hin as [Hin | Hin]; [left; exact Hin|right].
  apply retained_rows_in. exact Hin.
Qed.

Lemma sessions_loop_origin sessions :
  forall acc rows row,
  sessions_loop sessions acc = Ok rows ->
  In row rows ->
  In row acc
  \/ exists session idx p,
       In session sessions /\ 1 <= idx
       /\ problem_row session idx p = Ok (Some row).
Proof.
  induction sessions as [|s sessions IH]; intros acc rows row; cbn [sessions_loop].
  - intros [= <-] H. left. exact H.
  - destruct (py_iter _) as [ps|e]; cbn [bind]; [|discriminate].
    destruct (problems_loop s 1 ps acc) as [rows'|e] eqn:E; cbn [bind];
      [|discriminate].
    intros H Hin.
    destruct (IH _ _ _ H Hin) as [Hin' | (s' & idx & p & Hs & Hidx & Hp)].
    + destruct (problems_loop_origin s ps 1 acc rows' row E Hin')
        as [Hacc | (i & p & _ & Hp)]; [left; exact Hacc|].
      right. exists s, (1 + Z.of_nat i), p. cbn [In]. repeat split; auto. lia.
    + right. exists s', idx, p. cbn [In]. auto.
Qed.

(** X5. Every row that [build_problem_sheet_rows] returns has the twelve
    fields of the header: the timestamp, client and URL of its session, one
    of the four operation names, two operands that are not negative, an
    empty [c], and a ProblemIndex of at least one. *)
Theorem output_rows_well_formed sessions rows row :
  build_problem_sheet_rows sessions = Ok rows ->
  In row rows ->
  length row = length PROB_SHEET_HEADER
  /\ exists session idx op a b,
       In session sessions /\ 1 <= idx
       /\ row = output_row session idx op a b
       /\ In op operation_names /\ 0 <= a /\ 0 <= b
       /\ nth 5 row (lit "?") = [].
Proof.
  intros H Hin.
  destruct (sessions_loop_origin sessions [] rows row H Hin)
    as [[] | (s & idx & p & Hs & Hidx & Hp)].
  split; [exact (problem_row_length s idx p row Hp)|].
  destruct (problem_row_shape s idx p row Hp) as (op & a & b & -> & Hop & Ha & Hb).
  exists s, idx, op, a, b. repeat split; auto.
Qed.

Lemma output_rows_well_formed_witness :
  let s := session_of (PList [entry (lit "2 x 60") []]) in
  build_problem_sheet_rows [s] = Ok [output_row s 1 (lit "mul") 2 60]
  /\ length (output_row s 1 (lit "mul") 2 60) = length PROB_SHEET_HEADER.
Proof.
  intros s.
  assert (H : build_problem_sheet_rows [s] = Ok [output_row s 1 (lit "mul") 2 60])
    by reflexivity.
  split; [exact H|].
  exact (proj1 (output_rows_well_formed [s] _ _ H (or_introl eq_refl))).
Defined.

Lemma retained_rows_length session ps :
  forall idx, (length (retained_rows session idx ps) <= length ps)%nat.
Proof.
  induction ps as [|p ps IH]; intros idx; cbn [retained_rows length]; [lia|].
  specialize (IH (idx + 1)).
  destruct (problem_row session idx p) as [[row|]|e]; cbn [length]; lia.
Qed.

Lemma session_rows_bound s acc rows' :
  (ps <- py_iter (if py_truthy (problems s) then problems s else PList []) ;;
   problems_loop s 1 ps acc) = Ok rows' ->
  (length rows' <= length acc + entry_count s)%nat.
Proof.
  unfold entry_count.
  destruct (problems s) as [| | | |q|l|d] eqn:Ep; cbn [py_truthy].
  - cbn [py_iter bind problems_loop]. intros [= <-]. lia.
  - destruct b; cbn [py_iter bind problems_loop]; [discriminate|].
    intros [= <-]. lia.
  - destruct (negb (n =? 0)); cbn [py_iter bind problems_loop]; [discriminate|].
    intros [= <-]. lia.
  - destruct (float_truthy f); cbn [py_iter bind problems_loop]; [discriminate|].
    intros [= <-]. lia.
  - destruct q as [|c q]; cbn [is_empty negb py_iter bind problems_loop map].
    + intros [= <-]. lia.
    + discriminate.
  - destruct l as [|p l]; cbn [is_empty negb py_iter bind].
    + cbn [problems_loop]. intros [= <-]. cbn [length]. lia.
    + intros H. apply problems_loop_retained in H. subst rows'.
      rewrite length_app.
      pose proof (retained_rows_length s (p :: l) 1). lia.
  - destruct d as [|kv d]; cbn [is_empty negb py_iter bind problems_loop map].
    + intros [= <-]. lia.
    + discriminate.
Qed.

Lemma sessions_loop_bound sessions :
  forall acc rows,
  sessions_loop sessions acc = Ok rows ->
  (length rows <= length acc + list_sum (map entry_count sessions))%nat.
Proof.
  induction sessions as [|s sessions IH]; intros acc rows;
    cbn [sessions_loop map list_sum].
  - intros [= <-]. lia.
  - intros H.
    destruct (ps <- py_iter (if py_truthy (problems s) then problems s else PList []) ;;
              problems_loop s 1 ps acc) as [rows'|e] eqn:E.
    + pose proof (session_rows_bound s acc rows' E) as Hb.
      unfold bind in E, H.
      destruct (py_iter _) as [ps|e]; [|discriminate].
      rewrite E in H. apply IH in H.
      unfold list_sum in *. cbn [fold_right]. lia.
    + unfold bind in E, H.
      destruct (py_iter _) as [ps|e']; [|discriminate].
      rewrite E in H. discriminate.
Qed.

(** X6. The builder emits at most one row for each entry of the problems
    lists: the number of rows is bounded by the number of entries, and a
    session whose problems value is false (absent, empty) gives no row. *)
Theorem row_count_bounded :
  (forall sessions rows,
      build_problem_sheet_rows sessions = Ok rows ->
      (length rows <= list_sum (map entry_count sessions))%nat)
  /\ (forall s,
         py_truthy (problems s) = false -> build_problem_sheet_rows [s] = Ok []).
Proof.
  split.
  - intros sessions rows H.
    exact (sessions_loop_bound sessions [] rows H).
  - intros s Hs. unfold build_problem_sheet_rows. cbn [sessions_loop].
    rewrite Hs. reflexivity.
Qed.

Lemma row_count_bounded_witness :
  let s := session_of (PList [entry (lit "1 + 2") []; entry (lit "nope") []]) in
  build_problem_sheet_rows [s; session_of PNone]
  = Ok [output_row s 1 (lit "add") 1 2]
  /\ (length [output_row s 1 (lit "add") 1 2]
      <= list_sum (map entry_count [s; session_of PNone]))%nat.
Proof.
  intros s.
  assert (H : build_problem_sheet_rows [s; session_of PNone]
              = Ok [output_row s 1 (lit "add") 1 2]) by reflexivity.
  split; [exact H|].
  exact (proj1 row_count_bounded _ _ H).
Defined.

(** X7. An entry whose operationType is a JSON array or object cannot be
    looked up in the table: unless the skip rule applies first, the builder
    raises [TypeError], whether the question parses or not. *)
Theorem unhashable_operation_type session idx d q v :
  py_get (PDict d) (lit "question") (PStr []) = Ok (PStr q) ->
  startswith q (lit "final-missed-") = false ->
  dict_get d (lit "operationType") = Some v ->
  (exists l, v = PList l) \/ (exists l, v = PDict l) ->
  problem_row session idx (PDict d) = Raise TypeError
  /\ forall ps rows,
      problems_loop session idx (PDict d :: ps) rows = Raise TypeError.
Proof.
  intros Hq Hf Hv Hkind.
  assert (H : problem_row session idx (PDict d) = Raise TypeError).
  { unfold problem_row. rewrite Hq. cbn [py_get bind]. rewrite Hv.
    destruct Hkind as [[l ->] | [l ->]];
      cbn [is_unknown bind is_final_missed]; rewrite Hf;
      cbn [bind parse_question_of op_type_name];
      destruct (parse_question q) as [[[? ?] ?]|]; reflexivity. }
  split; [exact H|].
  intros ps rows. cbn [problems_loop]. rewrite H. reflexivity.
Qed.

Lemma unhashable_operation_type_witness :
  let d := [ (lit "question", PStr (lit "1 + 2"));
             (lit "operationType", PList [PStr (lit "addition")]) ] in
  build_problem_sheet_rows [session_of (PList [PDict d])] = Raise TypeError
  /\ problem_row (session_of (PList [])) 1 (PDict d) = Raise TypeError.
Proof.
  intros d. split; [reflexivity|].
  apply (unhashable_operation_type (session_of (PList [])) 1 d (lit "1 + 2")
           (PList [PStr (lit "addition")]) eq_refl eq_refl eq_refl).
  left. eexists. reflexivity.
Defined.

Lemma retained_rows_indices session ps :
  forall idx,
  exists idxs,
    map problem_index (retained_rows session idx ps) = map str_of_int idxs
    /\ Sorted.StronglySorted Z.lt idxs
    /\ Forall (fun i => idx <= i < idx + len ps) idxs.
Proof.
  induction ps as [|p ps IH]; intros idx; cbn [retained_rows].
  - exists []. repeat split; constructor.
  - destruct (IH (idx + 1)) as (idxs & Hmap & Hsorted & Hrange).
    assert (Hrange' : Forall (fun i => idx <= i < idx + len (p :: ps)) idxs).
    { eapply Forall_impl; [|exact Hrange]. unfold len. cbn [length].
      intros i Hi. cbv beta in Hi. lia. }
    destruct (problem_row session idx p) as [[row|]|e] eqn:E;
      try (exists idxs; repeat split; assumption).
    exists (idx :: idxs). cbn [map]. repeat split.
    + rewrite (problem_row_index session idx p row E), Hmap. reflexivity.
    + constructor; [exact Hsorted|].
      eapply Forall_impl; [|exact Hrange]. intros i Hi. cbv beta in Hi. lia.
    + constructor; [|exact Hrange']. unfold len. cbn [length]. lia.
Qed.

Lemma sorted_lt_nodup idxs : Sorted.StronglySorted Z.lt idxs -> NoDup idxs.
Proof.
  induction 1 as [|i idxs Hs IH Hall]; constructor; [|exact IH].
  intros Hin. rewrite Forall_forall in Hall. specialize (Hall i Hin). lia.
Qed.

Lemma str_of_int_map_nodup idxs : NoDup idxs -> NoDup (map str_of_int idxs).
Proof.
  induction 1 as [|i idxs Hni Hnd IH]; cbn [map]; constructor; [|exact IH].
  intros Hin. apply in_map_iff in Hin as (j & Hj & Hin).
  apply str_of_int_inj in Hj. congruence.
Qed.

(** X8. Within a session the ProblemIndex column goes up strictly from row
    to row and stays within 1..n for n entries: the rows are in the order of
    the problems, and no two rows of a session have the same ProblemIndex. *)
Theorem problem_index_increasing session ps rows :
  problems_loop session 1 ps [] = Ok rows ->
  (exists idxs,
      map problem_index rows = map str_of_int idxs
      /\ Sorted.StronglySorted Z.lt idxs
      /\ Forall (fun i => 1 <= i <= len ps) idxs)
  /\ NoDup (map problem_index rows).
Proof.
  intros H. apply problems_loop_retained in H. cbn [app] in H. subst rows.
  destruct (retained_rows_indices session ps 1) as (idxs & Hmap & Hsorted & Hrange).
  split.
  - exists idxs. repeat split; auto.
    eapply Forall_impl; [|exact Hrange]. intros i Hi. cbv beta in Hi. lia.
  - rewrite Hmap. apply str_of_int_map_nodup, sorted_lt_nodup, Hsorted.
Qed.

Lemma problem_index_increasing_witness :
  let session := session_of (PList []) in
  let ps := [ entry (lit "1 + 1") []; entry (lit "skip me") [];
              entry (lit "3 * 3") [] ] in
  problems_loop session 1 ps []
  = Ok [output_row session 1 (lit "add") 1 1; output_row session 3 (lit "mul") 3 3]
  /\ NoDup (map problem_index
              [output_row session 1 (lit "add") 1 1;
               output_row session 3 (lit "mul") 3 3]).
Proof.
  intros session ps.
  assert (H : problems_loop session 1 ps []
              = Ok [output_row session 1 (lit "add") 1 1;
                    output_row session 3 (lit "mul") 3 3]) by reflexivity.
  split; [exact H|].
  exact (proj2 (problem_index_increasing session ps _ H)).
Defined.

End Rows.

(** ** The extractor on a text of several records *)

Section Records.

Variable json_loads : str -> result pyval.

Lemma startswith_app (p x : str) : startswith (p ++ x) p = true.
Proof.
  induction p as [|c p IH]; [destruct x; reflexivity|].
  cbn [app startswith]. rewrite Z.eqb_refl, IH. reflexivity.
Qed.

Lemma find_at_start s sub : startswith s sub = true -> find s sub = 0.
Proof.
  intros H. unfold find. destruct s; cbn [find_from]; rewrite H; reflexivity.
Qed.

(** X9. A chunk that starts with the header is dropped as a whole, together
    with any record text that follows the header in the same chunk, and the
    decoder is not called on it. *)
Theorem header_chunk_dropped x :
  parse_record json_loads (SESSION_HEADER ++ x) = Ok None
  /\ decoder_input (SESSION_HEADER ++ x) = None.
Proof.
  unfold parse_record, decoder_input.
  rewrite startswith_app. split; reflexivity.
Qed.

Lemma startswith_nil s : startswith s [] = true.
Proof. destruct s; reflexivity. Qed.

Lemma startswith_delimiter s :
  startswith s (lit "<>")
  = match s with
    | c :: c' :: _ => (c =? 60) && (c' =? 62)
    | _ => false
    end.
Proof.
  destruct s as [|c [|c' s]]; try reflexivity.
  - change (startswith [c] (lit "<>")) with ((c =? 60) && false).
    apply andb_false_r.
  - change (startswith (c :: c' :: s) (lit "<>"))
      with ((c =? 60) && ((c' =? 62) && startswith s [])).
    rewrite startswith_nil, andb_true_r. reflexivity.
Qed.

(** The delimiter: a match of it never straddles the end of a text that is
    followed by a delimiter, so the pieces on the two sides of a delimiter
    are those of the two sides. *)
Lemma split_delimiter_app b :
  forall a skip cur,
  (skip <= length a)%nat ->
  split_go (lit "<>") (a ++ lit "<>" ++ b) skip cur
  = split_go (lit "<>") a skip cur ++ split_go (lit "<>") b 0 [].
Proof.
  induction a as [|c a IH]; intros skip cur Hskip.
  - cbn [length] in Hskip. assert (skip = 0%nat) as -> by lia.
    destruct b; reflexivity.
  - cbn [app split_go]. destruct skip as [|skip].
    + change (length (lit "<>") - 1)%nat with 1%nat.
      destruct a as [|c' a].
      * cbn [app]. change (lit "<>" ++ b) with (60 :: 62 :: b).
        rewrite !startswith_delimiter.
        change (60 =? 62) with false. rewrite andb_false_r.
        apply (IH 0%nat). cbn [length]. lia.
      * cbn [app]. rewrite !startswith_delimiter.
        destruct ((c =? 60) && (c' =? 62)).
        -- cbn [app]. f_equal. apply (IH 1%nat). cbn [length]. lia.
        -- apply (IH 0%nat). lia.
    + apply IH. cbn [length] in Hskip. lia.
Qed.

Lemma extract_loop_acc parts :
  forall acc,
  extract_loop json_loads parts acc
  = (r <- extract_loop json_loads parts [] ;; Ok (acc ++ r)).
Proof.
  induction parts as [|rec parts IH]; intros acc; cbn [extract_loop].
  - cbn [bind]. rewrite app_nil_r. reflexivity.
  - destruct (parse_record json_loads rec) as [[s|]|e]; cbn [bind].
    + rewrite (IH (acc ++ [s])), (IH ([] ++ [s])).
      destruct (extract_loop json_loads parts []); cbn [bind]; [|reflexivity].
      rewrite <- app_assoc. reflexivity.
    + apply IH.
    + reflexivity.
Qed.

Lemma extract_loop_app p1 p2 :
  forall acc,
  extract_loop json_loads (p1 ++ p2) acc
  = (r1 <- extract_loop json_loads p1 acc ;; extract_loop json_loads p2 r1).
Proof.
  induction p1 as [|rec p1 IH]; intros acc; cbn [app extract_loop bind].
  - reflexivity.
  - destruct (parse_record json_loads rec) as [[s|]|e]; cbn [bind];
      [apply IH|apply IH|reflexivity].
Qed.

(** After a header at the very start, the chunks are those of the rest. *)
Lemma extract_after_header x :
  extract_session_records json_loads (SESSION_HEADER ++ x)
  = extract_loop json_loads (map strip (split (remove_char 13 x) (lit "<>"))) [].
Proof.
  unfold extract_session_records, record_parts, remove_char.
  rewrite filter_app.
  change (filter (fun d => negb (d =? 13)) SESSION_HEADER) with SESSION_HEADER.
  rewrite (find_at_start _ _ (startswith_app SESSION_HEADER _)).
  change (0 =? -1) with false. cbn iota.
  unfold slice_from, len. rewrite Z.add_0_l, Nat2Z.id.
  rewrite skipn_app, skipn_all, Nat.sub_diag. reflexivity.
Qed.

Lemma extract_records_concat_helper a b :
  extract_session_records json_loads (SESSION_HEADER ++ a ++ lit "<>" ++ b)
  = (r1 <- extract_session_records json_loads (SESSION_HEADER ++ a) ;;
     r2 <- extract_session_records json_loads (SESSION_HEADER ++ b) ;;
     Ok (r1 ++ r2))
  /\ extract_session_records json_loads (SESSION_HEADER ++ a ++ lit "<>")
     = extract_session_records json_loads (SESSION_HEADER ++ a).
Proof.
  assert (Hcat : forall a b,
    extract_session_records json_loads (SESSION_HEADER ++ a ++ lit "<>" ++ b)
    = (r1 <- extract_session_records json_loads (SESSION_HEADER ++ a) ;;
       r2 <- extract_session_records json_loads (SESSION_HEADER ++ b) ;;
       Ok (r1 ++ r2))).
  { clear a b. intros a b. rewrite !extract_after_header.
    unfold remove_char. rewrite !filter_app.
    change (filter (fun d => negb (d =? 13)) (lit "<>")) with (lit "<>").
    unfold split. rewrite split_delimiter_app by lia.
    rewrite map_app, extract_loop_app.
    destruct (extract_loop json_loads _ []) as [r1|e]; cbn [bind]; [|reflexivity].
    apply extract_loop_acc. }
  split; [apply Hcat|].
  pose proof (Hcat a []) as H. rewrite app_nil_r in H. rewrite H.
  replace (extract_session_records json_loads (SESSION_HEADER ++ []))
    with (@Ok (list SessionRecord) []) by (rewrite extract_after_header; reflexivity).
  destruct (extract_session_records json_loads (SESSION_HEADER ++ a));
    cbn [bind]; [rewrite app_nil_r|]; reflexivity.
Qed.

(** X10. Records on the two sides of a delimiter are extracted one side
    after the other and independently: the result is the records of the
    first side followed by those of the second, or the exception of the
    first side that raises one. A delimiter at the end adds nothing. *)
Theorem extract_records_concat a b :
  extract_session_records json_loads (SESSION_HEADER ++ a ++ lit "<>" ++ b)
  = (r1 <- extract_session_records json_loads (SESSION_HEADER ++ a) ;;
     r2 <- extract_session_records json_loads (SESSION_HEADER ++ b) ;;
     Ok (r1 ++ r2))
  /\ extract_session_records json_loads (SESSION_HEADER ++ a ++ lit "<>")
     = extract_session_records json_loads (SESSION_HEADER ++ a).
Proof. exact (extract_records_concat_helper a b). Qed.

Lemma extract_loop_accepted parts :
  forall acc sessions,
  extract_loop json_loads parts acc = Ok sessions ->
  sessions = acc ++ accepted_records json_loads parts.
Proof.
  induction parts as [|rec parts IH]; intros acc sessions;
    cbn [extract_loop accepted_records].
  - intros [= <-]. rewrite app_nil_r. reflexivity.
  - destruct (decoder_input rec) as [j|] eqn:Ed.
    + destruct (parse_record_accepted json_loads rec j Ed)
        as [-> (lb & rb & Hb & -> & _)].
      unfold session_of_chunk. rewrite Hb.
      destruct (json_loads (json_str_of rec lb rb)) as [v|e]; cbn [bind];
        [|discriminate].
      intros H. apply IH in H. rewrite H, <- app_assoc. reflexivity.
    + rewrite (parse_record_skipped json_loads rec Ed). cbn [bind]. apply IH.
Qed.

Lemma extract_loop_first_error parts :
  forall acc e,
  extract_loop json_loads parts acc = Raise e <->
  exists before rec after j,
    parts = before ++ rec :: after
    /\ decoder_input rec = Some j /\ json_loads j = Raise e
    /\ forall c j', In c before -> decoder_input c = Some j' ->
                    exists v, json_loads j' = Ok v.
Proof.
  induction parts as [|rec parts IH]; intros acc e; cbn [extract_loop].
  - split; [discriminate|].
    intros (before & r & after & j & E & _). destruct before; discriminate.
  - assert (Hcons : forall acc',
      (forall j, decoder_input rec = Some j -> exists v, json_loads j = Ok v) ->
      extract_loop json_loads parts acc' = Raise e <->
      exists before r after j,
        rec :: parts = before ++ r :: after
        /\ decoder_input r = Some j /\ json_loads j = Raise e
        /\ forall c j', In c before -> decoder_input c = Some j' ->
                        exists v, json_loads j' = Ok v).
    { intros acc' Hrec. rewrite IH. split.
      - intros (before & r & after & j & -> & Hd & Hj & Hall).
        exists (rec :: before), r, after, j. repeat split; auto.
        intros c j' [<- | Hc] Hdc; [exact (Hrec j' Hdc)|eauto].
      - intros (before & r & after & j & E & Hd & Hj & Hall).
        destruct before as [|c before]; cbn [app] in E; injection E as <- ->.
        + destruct (Hrec j Hd) as [v Hv]. congruence.
        + exists before, r, after, j. repeat split; auto.
          intros c j' Hc. apply Hall. right. exact Hc. }
    destruct (decoder_input rec) as [j|] eqn:Ed.
    + destruct (parse_record_accepted json_loads rec j Ed) as [-> _].
      destruct (json_loads j) as [v|e'] eqn:Ej; cbn [bind].
      * assert (Hrec : forall j0, Some j = Some j0 ->
                                 exists v1, json_loads j0 = Ok v1)
          by (intros j0 [= <-]; eauto).
        destruct (session_of_chunk rec v); apply Hcons; exact Hrec.
      * split.
        -- intros [= <-]. exists [], rec, parts, j. repeat split; auto.
           intros c j' [].
        -- intros (before & r & after & j0 & E & Hd & Hj & Hall).
           destruct before as [|c before]; cbn [app] in E; injection E as <- ->.
           ++ congruence.
           ++ destruct (Hall rec j (or_introl eq_refl) Ed) as [v Hv]. congruence.
    + rewrite (parse_record_skipped json_loads rec Ed). cbn [bind].
      apply Hcons. intros j0 [=].
Qed.

(** X11. When the extractor returns, its sessions are the records of the
    accepted chunks, one for each and in the order of the chunks; when it
    raises after the header was found, the exception is the decoder's on
    the first chunk, in order, whose decoding fails. *)
Theorem extract_in_chunk_order raw :
  let text := remove_char 13 raw in
  let parts := record_parts text (find text SESSION_HEADER) in
  find text SESSION_HEADER <> -1 ->
  (forall sessions,
      extract_session_records json_loads raw = Ok sessions ->
      sessions = accepted_records json_loads parts
      /\ (length sessions <= length parts)%nat)
  /\ (forall e,
         extract_session_records json_loads raw = Raise e <->
         exists before rec after j,
           parts = before ++ rec :: after
           /\ decoder_input rec = Some j /\ json_loads j = Raise e
           /\ forall c j', In c before -> decoder_input c = Some j' ->
                           exists v, json_loads j' = Ok v).
Proof.
  intros text parts Hidx. unfold extract_session_records. fold text.
  apply Z.eqb_neq in Hidx. rewrite Hidx. fold parts. split.
  - intros sessions H. apply extract_loop_accepted in H. cbn [app] in H.
    split; [exact H|]. subst sessions. clear.
    induction parts as [|rec ps IH]; cbn [accepted_records length]; [lia|].
    destruct (decoder_input rec); [|lia].
    destruct (json_loads s); [|lia].
    destruct (json_bounds rec) as [[lb rb]|]; cbn [length]; lia.
  - intros e. apply extract_loop_first_error.
Qed.

End Records.

Section RecordsExamples.

Lemma header_chunk_dropped_example :
  decoder_input (lit "t,c,u,1,2,[]") = Some (lit "[]")
  /\ parse_record Json.loads (SESSION_HEADER ++ lit " t,c,u,1,2,[]") = Ok None.
Proof.
  split; [vm_compute; reflexivity|].
  exact (proj1 (header_chunk_dropped Json.loads (lit " t,c,u,1,2,[]"))).
Defined.

Lemma extract_in_chunk_order_witness :
  let raw := SESSION_HEADER ++ lit "a,b,c,1,2,[]<>x<>d,e,f,3,4,[],M" in
  find (remove_char 13 raw) SESSION_HEADER <> -1
  /\ extract_session_records Json.loads raw
     = Ok [ session_fields [lit "a"; lit "b"; lit "c"; lit "1"; lit "2"] [] (PList []);
            session_fields [lit "d"; lit "e"; lit "f"; lit "3"; lit "4"] [lit "M"]
              (PList []) ]
  /\ [ session_fields [lit "a"; lit "b"; lit "c"; lit "1"; lit "2"] [] (PList []);
       session_fields [lit "d"; lit "e"; lit "f"; lit "3"; lit "4"] [lit "M"]
         (PList []) ]
     = accepted_records Json.loads
         (record_parts (remove_char 13 raw) (find (remove_char 13 raw) SESSION_HEADER)).
Proof.
  intros raw.
  assert (Hidx : find (remove_char 13 raw) SESSION_HEADER <> -1)
    by (vm_compute; discriminate).
  assert (H : extract_session_records Json.loads raw
     = Ok [ session_fields [lit "a"; lit "b"; lit "c"; lit "1"; lit "2"] [] (PList []);
            session_fields [lit "d"; lit "e"; lit "f"; lit "3"; lit "4"] [lit "M"]
              (PList []) ]) by (vm_compute; reflexivity).
  split; [exact Hidx|]. split; [exact H|].
  exact (proj1 (proj1 (extract_in_chunk_order Json.loads raw Hidx) _ H)).
Defined.

End RecordsExamples.

(** ** The three regions of a chunk *)

Section Regions.

Lemma startswith_char x s c : startswith (x :: s) [c] = (x =? c).
Proof.
  cbn [startswith]. rewrite startswith_nil. apply andb_true_r.
Qed.

Lemma find_char c s :
  forall i,
  (find_from s [c] i = -1 /\ ~ In c s)
  \/ exists pre post,
       s = pre ++ c :: post /\ ~ In c pre /\ find_from s [c] i = i + len pre.
Proof.
  induction s as [|x s IH]; intros i.
  - left. split; [reflexivity|intros []].
  - cbn [find_from]. rewrite startswith_char.
    destruct (x =? c) eqn:E.
    + apply Z.eqb_eq in E. subst x. right. exists [], s.
      repeat split; [intros []|]. unfold len. cbn [length]. lia.
    + apply Z.eqb_neq in E.
      destruct (IH (i + 1)) as [[Hr Hn] | (pre & post & -> & Hn & Hr)].
      * left. split; [exact Hr|]. intros [H | H]; [congruence|auto].
      * right. exists (x :: pre), post. repeat split.
        -- intros [H | H]; [congruence|auto].
        -- rewrite Hr. unfold len. cbn [length]. lia.
Qed.

Lemma rfind_char c s :
  forall i, 0 <= i ->
  (rfind_from s [c] i = -1 /\ ~ In c s)
  \/ exists pre post,
       s = pre ++ c :: post /\ ~ In c post /\ rfind_from s [c] i = i + len pre.
Proof.
  induction s as [|x s IH]; intros i Hi.
  - left. split; [reflexivity|intros []].
  - cbn [rfind_from]. rewrite startswith_char.
    destruct (IH (i + 1)) as [[Hr Hn] | (pre & post & -> & Hn & Hr)]; [lia| |].
    + rewrite Hr. change (-1 =? -1) with true. cbn iota.
      destruct (x =? c) eqn:E.
      * apply Z.eqb_eq in E. subst x. right. exists [], s.
        repeat split; [exact Hn|]. unfold len. cbn [length]. lia.
      * apply Z.eqb_neq in E. left. split; [reflexivity|].
        intros [H | H]; [congruence|auto].
    + rewrite Hr.
      replace (i + 1 + len pre =? -1) with false
        by (symmetry; apply Z.eqb_neq; unfold len; lia).
      right. exists (x :: pre), post. repeat split; [exact Hn|].
      unfold len. cbn [length]. lia.
Qed.

Lemma firstn_exact {A} (a b : list A) : firstn (length a) (a ++ b) = a.
Proof. induction a as [|x a IH]; cbn; [destruct b|rewrite IH]; reflexivity. Qed.

Lemma skipn_exact {A} (a b : list A) : skipn (length a) (a ++ b) = b.
Proof. induction a as [|x a IH]; cbn; [reflexivity|exact IH]. Qed.

Lemma overlap_brackets (pre1 post1 pre2 post2 : str) :
  pre1 ++ 91 :: post1 = pre2 ++ 93 :: post2 ->
  (length pre1 <= length pre2)%nat ->
  exists mid, pre2 = pre1 ++ 91 :: mid /\ post1 = mid ++ 93 :: post2.
Proof.
  revert pre2. induction pre1 as [|x pre1 IH]; intros pre2 E Hlen.
  - destruct pre2 as [|y pre2]; cbn [app] in E.
    + discriminate.
    + injection E as <- ->. exists pre2. auto.
  - destruct pre2 as [|y pre2]; cbn [length] in Hlen; [lia|].
    cbn [app] in E. injection E as <- E.
    destruct (IH pre2 E) as (mid & -> & ->); [lia|].
    exists mid. auto.
Qed.

Lemma json_bounds_regions rec lb rb :
  json_bounds rec = Some (lb, rb) ->
  rec = slice rec 0 lb ++ json_str_of rec lb rb ++ slice_from rec (rb + 1)
  /\ (exists mid, json_str_of rec lb rb = 91 :: mid ++ [93])
  /\ ~ In 91 (slice rec 0 lb)
  /\ ~ In 93 (slice_from rec (rb + 1))
  /\ 0 <= lb < rb /\ rb < len rec.
Proof.
  unfold json_bounds, find, rfind.
  destruct (find_char 91 rec 0) as [[Hl _] | (pre1 & post1 & E1 & Hn1 & Hl)].
  { rewrite Hl. change (-1 =? -1) with true. discriminate. }
  destruct (rfind_char 93 rec 0) as [[Hr _] | (pre2 & post2 & E2 & Hn2 & Hr)];
    [lia| |].
  { rewrite Hr. change (-1 =? -1) with true. rewrite orb_true_r. discriminate. }
  rewrite Hl, Hr.
  destruct ((0 + len pre1 =? -1) || (0 + len pre2 =? -1)
            || (0 + len pre2 <? 0 + len pre1)) eqn:Ec; [discriminate|].
  intros [= <- <-].
  apply orb_false_iff in Ec as [_ Ec]. apply Z.ltb_ge in Ec. unfold len in Ec.
  assert (Hlen : (length pre1 <= length pre2)%nat) by lia.
  assert (E : pre1 ++ 91 :: post1 = pre2 ++ 93 :: post2) by congruence.
  destruct (overlap_brackets _ _ _ _ E Hlen) as (mid & -> & ->).
  set (M := 91 :: mid ++ [93]).
  assert (Erec : rec = pre1 ++ M ++ post2).
  { rewrite E1. unfold M. cbn [app]. rewrite <- app_assoc. reflexivity. }
  assert (Hrb : Z.to_nat (0 + Z.of_nat (length (pre1 ++ 91 :: mid)) + 1)
                = length (pre1 ++ M)).
  { unfold M. rewrite !length_app. cbn [length]. rewrite length_app.
    cbn [length]. lia. }
  assert (F1 : firstn (length pre1) rec = pre1)
    by (rewrite Erec; apply firstn_exact).
  assert (F2 : firstn (length (pre1 ++ M)) rec = pre1 ++ M)
    by (rewrite Erec, app_assoc; apply firstn_exact).
  assert (S2 : skipn (length (pre1 ++ M)) rec = post2)
    by (rewrite Erec, app_assoc; apply skipn_exact).
  unfold slice, slice_from, json_str_of, slice, len.
  rewrite Hrb, Z.add_0_l, Nat2Z.id. change (Z.to_nat 0) with 0%nat. cbn [skipn].
  rewrite F1, F2, S2, skipn_exact.
  repeat split; auto; try lia.
  - exists mid. reflexivity.
  - rewrite length_app. cbn [length]. lia.
  - rewrite Erec. unfold M. rewrite !length_app. cbn [length].
    rewrite !length_app. cbn [length]. lia.
Qed.

(** X12. When a chunk has its pair of brackets, the prefix region, the
    bracketed text and the suffix region are three consecutive pieces that
    make up the whole chunk; the bracketed text starts with an opening and
    ends with a closing bracket, the prefix region holds no opening bracket
    and the suffix region no closing bracket. *)
Theorem chunk_regions rec lb rb :
  json_bounds rec = Some (lb, rb) ->
  rec = slice rec 0 lb ++ json_str_of rec lb rb ++ slice_from rec (rb + 1)
  /\ (exists mid, json_str_of rec lb rb = 91 :: mid ++ [93])
  /\ ~ In 91 (slice rec 0 lb)
  /\ ~ In 93 (slice_from rec (rb + 1))
  /\ 0 <= lb < rb /\ rb < len rec.
Proof. exact (json_bounds_regions rec lb rb). Qed.

Lemma chunk_regions_witness :
  let rec := lit "t,c,u,1,2,[[1],[2]],M]" in
  json_bounds rec = Some (10, 21)
  /\ json_str_of rec 10 21 = lit "[[1],[2]],M]"
  /\ ~ In 93 (slice_from rec (21 + 1)).
Proof.
  intros rec.
  assert (H : json_bounds rec = Some (10, 21)) by reflexivity.
  split; [exact H|]. split; [reflexivity|].
  exact (proj1 (proj2 (proj2 (proj2 (chunk_regions rec 10 21 H))))).
Defined.

End Regions.

(** ** Fields split on commas *)

Section CommaFields.

Lemma split_char_step c x s cur :
  split_go [c] (x :: s) 0 cur
  = if x =? c then cur :: split_go [c] s 0 [] else split_go [c] s 0 (cur ++ [x]).
Proof.
  cbn [split_go]. rewrite startswith_char. reflexivity.
Qed.

Lemma split_char_free c s :
  forall cur, ~ In c cur -> Forall (fun p => ~ In c p) (split_go [c] s 0 cur).
Proof.
  induction s as [|x s IH]; intros cur Hcur.
  - cbn [split_go]. constructor; [exact Hcur|constructor].
  - rewrite split_char_step. destruct (x =? c) eqn:E.
    + constructor; [exact Hcur|]. apply IH. intros [].
    + apply IH. apply Z.eqb_neq in E. intros H.
      apply in_app_or in H as [H | [H | []]]; [auto|congruence].
Qed.

Lemma split_char_whole c a :
  forall cur, ~ In c a -> split_go [c] a 0 cur = [cur ++ a].
Proof.
  induction a as [|x a IH]; intros cur Ha.
  - cbn [split_go]. rewrite app_nil_r. reflexivity.
  - rewrite split_char_step.
    replace (x =? c) with false
      by (symmetry; apply Z.eqb_neq; intros ->; apply Ha; left; reflexivity).
    rewrite IH, <- app_assoc; [reflexivity|].
    intros H. apply Ha. right. exact H.
Qed.

Lemma split_char_app c a b :
  forall cur, ~ In c a ->
  split_go [c] (a ++ c :: b) 0 cur = (cur ++ a) :: split_go [c] b 0 [].
Proof.
  induction a as [|x a IH]; intros cur Ha; cbn [app].
  - rewrite split_char_step, Z.eqb_refl, app_nil_r. reflexivity.
  - rewrite split_char_step.
    replace (x =? c) with false
      by (symmetry; apply Z.eqb_neq; intros ->; apply Ha; left; reflexivity).
    rewrite IH, <- app_assoc; [reflexivity|].
    intros H. apply Ha. right. exact H.
Qed.

Lemma split_go_chars sep s :
  forall skip cur piece x,
  In piece (split_go sep s skip cur) -> In x piece -> In x cur \/ In x s.
Proof.
  induction s as [|c s IH]; intros skip cur piece x Hp Hx; cbn [split_go] in Hp.
  - destruct Hp as [<- | []]. left. exact Hx.
  - destruct skip as [|skip].
    + destruct (startswith (c :: s) sep).
      * destruct Hp as [<- | Hp]; [left; exact Hx|].
        destruct (IH _ _ _ _ Hp Hx) as [[] | H]. right. right. exact H.
      * destruct (IH _ _ _ _ Hp Hx) as [H | H].
        -- apply in_app_or in H as [H | [<- | []]]; [left; exact H|].
           right. left. reflexivity.
        -- right. right. exact H.
    + destruct (IH _ _ _ _ Hp Hx) as [H | H]; [left; exact H|].
      right. right. exact H.
Qed.

Lemma strip_chars s x : In x (strip s) -> In x s.
Proof.
  intros H. destruct (strip_spec s) as (head & tail & Hs & _).
  rewrite Hs. apply in_or_app. right. apply in_or_app. left. exact H.
Qed.

Lemma slice_chars s lo hi x : In x (slice s lo hi) -> In x s.
Proof.
  unfold slice. intros H.
  rewrite <- (firstn_skipn (Z.to_nat hi) s). apply in_or_app. left.
  rewrite <- (firstn_skipn (Z.to_nat lo) (firstn (Z.to_nat hi) s)).
  apply in_or_app. right. exact H.
Qed.

Lemma slice_from_chars s lo x : In x (slice_from s lo) -> In x s.
Proof.
  unfold slice_from. intros H.
  rewrite <- (firstn_skipn (Z.to_nat lo) s). apply in_or_app. right. exact H.
Qed.

Lemma rstrip_chars s chars x : In x (rstrip s chars) -> In x s.
Proof.
  unfold rstrip. intros H.
  destruct (rstrip_by_spec (char_in chars) s) as (tail & Hs & _).
  rewrite Hs. apply in_or_app. left. exact H.
Qed.

Lemma lstrip_chars s chars x : In x (lstrip s chars) -> In x s.
Proof.
  unfold lstrip, lstrip_by. intros H.
  destruct (drop_while_spec (char_in chars) s) as (head & Hs & _).
  rewrite Hs. apply in_or_app. right. exact H.
Qed.

(** The fields cut from a text on commas hold no comma and only characters
    of the text. *)
Lemma comma_fields s f :
  In f (map strip (split s [44])) ->
  ~ In 44 f /\ forall x, In x f -> In x s.
Proof.
  intros H. apply in_map_iff in H as (piece & <- & Hp). split.
  - intros H. apply strip_chars in H.
    pose proof (split_char_free 44 s [] (fun H => H)) as Hall.
    rewrite Forall_forall in Hall. exact (Hall piece Hp H).
  - intros x Hx. apply strip_chars in Hx.
    destruct (split_go_chars _ _ _ _ _ _ Hp Hx) as [[] | H]. exact H.
Qed.

Lemma nth_field (P : str -> Prop) (l : list str) i :
  P [] -> (forall f, In f l -> P f) -> P (nth i l []).
Proof.
  intros Hnil Hall. destruct (nth_in_or_default i l []) as [H | ->]; auto.
Qed.

Lemma str_of_int_chars n x :
  In x (str_of_int n) -> is_ascii_digit x = true \/ x = 45.
Proof.
  destruct n as [|p|p].
  - intros [<- | []]. left. reflexivity.
  - rewrite str_of_int_pos. intros H. left.
    destruct (pos_text p) as (_ & Hd & _).
    rewrite forallb_forall in Hd. exact (Hd x H).
  - rewrite str_of_int_neg. intros [<- | H]; [right; reflexivity|left].
    destruct (pos_text p) as (_ & Hd & _).
    rewrite forallb_forall in Hd. exact (Hd x H).
Qed.

Lemma str_of_int_plain n : plain_field (str_of_int n).
Proof.
  split; intros H; apply str_of_int_chars in H as [H | H];
    try discriminate H.
Qed.

Lemma str_or_empty_plain o : plain_field (str_or_empty o).
Proof.
  destruct o; [apply str_of_int_plain|]. split; intros [].
Qed.

Lemma operation_name_plain op : In op operation_names -> plain_field op.
Proof.
  intros H. unfold operation_names in H. cbn [In] in H.
  destruct H as [<- | [<- | [<- | [<- | []]]]];
    split; cbn; intuition discriminate.
Qed.

End CommaFields.

Section PlainRows.

Variable json_loads : str -> result pyval.

Lemma extracted_session_plain raw sessions r :
  extract_session_records json_loads raw = Ok sessions ->
  In r sessions ->
  plain_field (timestamp r) /\ plain_field (client_id r)
  /\ plain_field (url r) /\ plain_field (mode r).
Proof.
  unfold extract_session_records.
  set (text := remove_char 13 raw).
  destruct (find text SESSION_HEADER =? -1); [discriminate|].
  intros H Hr.
  destruct (extract_loop_records json_loads _ _ _ H r Hr)
    as [[] | (rec & j & v & Hin & Hd & Hj & Hs)].
  destruct (parse_record_accepted json_loads rec j Hd)
    as [_ (lb & rb & Hb & -> & _)].
  unfold session_of_chunk in Hs. rewrite Hb in Hs. injection Hs as <-.
  assert (Htext : ~ In 13 text).
  { unfold text, remove_char. intros Hx. apply filter_In in Hx as [_ Hx].
    discriminate Hx. }
  assert (Hrec : forall x, In x rec -> In x text).
  { unfold record_parts in Hin. apply in_map_iff in Hin as (piece & <- & Hp).
    intros x Hx. apply strip_chars in Hx.
    destruct (split_go_chars _ _ _ _ _ _ Hp Hx) as [[] | Hx'].
    exact (slice_from_chars _ _ _ Hx'). }
  assert (Hpf : forall f, In f (prefix_fields_of (prefix_of rec lb)) -> plain_field f).
  { intros f Hf. destruct (comma_fields _ _ Hf) as [Hc Hsub]. split; [exact Hc|].
    intros Hx. apply Htext, Hrec. apply Hsub in Hx.
    unfold prefix_of in Hx. apply rstrip_chars, slice_chars in Hx. exact Hx. }
  assert (Hsf : forall f, In f (suffix_fields_of (suffix_of rec rb)) -> plain_field f).
  { intros f Hf. unfold suffix_fields_of in Hf. apply filter_In in Hf as [Hf _].
    destruct (comma_fields _ _ Hf) as [Hc Hsub]. split; [exact Hc|].
    intros Hx. apply Htext, Hrec. apply Hsub in Hx.
    unfold suffix_of in Hx. apply lstrip_chars, slice_from_chars in Hx. exact Hx. }
  assert (Hnil : plain_field []) by (split; intros []).
  cbn [session_fields timestamp client_id url mode].
  repeat split; try (apply (nth_field (fun f => ~ In 44 f)); [intros []|];
                     intros f Hf; first [apply Hpf, Hf | apply Hsf, Hf]);
    try (apply (nth_field (fun f => ~ In 13 f)); [intros []|];
         intros f Hf; first [apply Hpf, Hf | apply Hsf, Hf]).
Qed.

Lemma built_fields_plain raw sessions rows row f :
  extract_session_records json_loads raw = Ok sessions ->
  build_problem_sheet_rows sessions = Ok rows ->
  In row rows -> In f row ->
  ~ In 44 f /\ ~ In 13 f.
Proof.
  intros He Hb Hrow Hf.
  destruct (sessions_loop_origin sessions [] rows row Hb Hrow)
    as [[] | (s & idx & p & Hs & _ & Hp)].
  destruct (problem_row_shape s idx p row Hp) as (op & a & b & -> & Hop & _ & _).
  destruct (extracted_session_plain raw sessions s He Hs) as (Ht & Hc & Hu & Hm).
  unfold output_row in Hf. cbn [In] in Hf.
  repeat (destruct Hf as [<- | Hf]);
    try assumption; try apply str_of_int_plain; try apply str_or_empty_plain;
    try (apply operation_name_plain; assumption).
  - split; intros [].
  - destruct Hf.
Qed.

(** X13. No field of a row built from extracted sessions holds a comma or a
    carriage return: the text fields are cut from the input on commas after
    the carriage returns were removed, and the other fields are operation
    names and integers. The writer of the sheet therefore quotes such a
    field only when it holds a double quote or a line feed, and writes it
    as it is otherwise. *)
Theorem output_fields_plain raw sessions rows row f :
  extract_session_records json_loads raw = Ok sessions ->
  build_problem_sheet_rows sessions = Ok rows ->
  In row rows -> In f row ->
  ~ In 44 f /\ ~ In 13 f
  /\ (~ In 34 f -> ~ In 10 f -> csv_field f = f).
Proof.
  intros He Hb Hrow Hf.
  destruct (built_fields_plain raw sessions rows row f He Hb Hrow Hf) as [H44 H13].
  split; [exact H44|]. split; [exact H13|].
  intros H34 H10. unfold csv_field.
  destruct (existsb csv_special f) eqn:E; [|reflexivity].
  apply existsb_exists in E as (c & Hc & Hs).
  unfold csv_special in Hs. rewrite !orb_true_iff, !Z.eqb_eq in Hs.
  destruct Hs as [[[-> | ->] | ->] | ->]; contradiction.
Qed.

End PlainRows.

Section PlainRowsExample.

Lemma output_fields_plain_witness :
  let raw := SESSION_HEADER ++ jlit "t 1,c,u,1,2,[{'question':'1+2'}]" in
  let s := session_fields [lit "t 1"; lit "c"; lit "u"; lit "1"; lit "2"] []
             (PList [PDict [(lit "question", PStr (lit "1+2"))]]) in
  extract_session_records Json.loads raw = Ok [s]
  /\ build_problem_sheet_rows [s] = Ok [output_row s 1 (lit "add") 1 2]
  /\ ~ In 44 (lit "t 1") /\ ~ In 13 (lit "t 1").
Proof.
  intros raw s.
  assert (He : extract_session_records Json.loads raw = Ok [s])
    by (vm_compute; reflexivity).
  assert (Hb : build_problem_sheet_rows [s] = Ok [output_row s 1 (lit "add") 1 2])
    by reflexivity.
  split; [exact He|]. split; [exact Hb|].
  destruct (output_fields_plain Json.loads raw [s] _ _ (lit "t 1") He Hb
              (or_introl eq_refl) (or_introl eq_refl)) as (H1 & H2 & _).
  exact (conj H1 H2).
Defined.

End PlainRowsExample.

(** ** Suffix values by rank, prefix values by position *)

Section SuffixRank.

Lemma split_two_commas m s :
  ~ In 44 m -> ~ In 44 s ->
  split (m ++ lit ",," ++ s) [44] = [m; []; s].
Proof.
  intros Hm Hs. unfold split.
  change (m ++ lit ",," ++ s) with (m ++ 44 :: ([] ++ 44 :: s)).
  rewrite (split_char_app 44 m _ [] Hm).
  rewrite (split_char_app 44 [] s [] (fun H => H)).
  rewrite (split_char_whole 44 s [] Hs). reflexivity.
Qed.

(** X14. The three suffix values are taken by rank among the values that
    are not empty, while the prefix values are taken by position: when the
    value between two commas is missing, the suffix value after it moves
    up, so a missing MappedDuration makes the text of Score_120 be read as
    MappedDuration, whereas a missing prefix value stays an empty field. *)
Theorem suffix_values_by_rank m s :
  ~ In 44 m -> ~ In 44 s -> strip m <> [] -> strip s <> [] ->
  suffix_fields_of (m ++ lit ",," ++ s) = [strip m; strip s]
  /\ prefix_fields_of (m ++ lit ",," ++ s) = [strip m; []; strip s]
  /\ forall prefix_fields problems,
      let r := session_fields prefix_fields
                 (suffix_fields_of (m ++ lit ",," ++ s)) problems in
      mode r = strip m /\ mapped_duration r = to_int (strip s)
      /\ score_120 r = None.
Proof.
  intros Hm Hs Hm' Hs'.
  assert (Hp : prefix_fields_of (m ++ lit ",," ++ s) = [strip m; []; strip s]).
  { unfold prefix_fields_of. rewrite (split_two_commas m s Hm Hs). reflexivity. }
  assert (Hsf : suffix_fields_of (m ++ lit ",," ++ s) = [strip m; strip s]).
  { unfold suffix_fields_of. fold (prefix_fields_of (m ++ lit ",," ++ s)).
    rewrite Hp. cbn [filter].
    destruct (strip m) as [|? ?]; [congruence|].
    destruct (strip s) as [|? ?]; [congruence|]. reflexivity. }
  split; [exact Hsf|]. split; [exact Hp|].
  intros pf v r. unfold r. rewrite Hsf. repeat split.
Qed.

Lemma suffix_values_by_rank_witness :
  let r := session_fields [] (suffix_fields_of (lit "Normal" ++ lit ",," ++ lit "45"))
             PNone in
  ~ In 44 (lit "Normal") /\ ~ In 44 (lit "45")
  /\ mode r = lit "Normal" /\ mapped_duration r = Some 45 /\ score_120 r = None.
Proof.
  intros r.
  assert (Hm : ~ In 44 (lit "Normal")) by (cbn; intuition discriminate).
  assert (Hs : ~ In 44 (lit "45")) by (cbn; intuition discriminate).
  split; [exact Hm|]. split; [exact Hs|].
  assert (Hm' : strip (lit "Normal") <> []) by discriminate.
  assert (Hs' : strip (lit "45") <> []) by discriminate.
  exact (proj2 (proj2 (suffix_values_by_rank (lit "Normal") (lit "45") Hm Hs Hm' Hs'))
           [] PNone).
Defined.

End SuffixRank.

(** ** The decoder on a bracketed text *)

Section DecodedProblems.

Ltac case_char :=
  repeat match goal with
         | |- context [match ?x with _ => _ end] => is_var x; destruct x
         end.

Lemma scan_array_list fuel :
  forall depth s acc v rest,
  Json.scan_array fuel depth s acc = Ok (v, rest) -> exists l, v = PList l.
Proof.
  induction fuel as [|fuel IH]; intros depth s acc v rest; [discriminate|].
  cbn [Json.scan_array].
  destruct (Json.scan_once fuel depth s) as [[v' rest']|]; [|discriminate].
  destruct (Json.skip_ws rest') as [|c r]; [discriminate|].
  case_char; try discriminate;
    first [intros [= <- _]; eexists; reflexivity | apply IH].
Qed.

Lemma loads_bracket s v :
  Json.loads (91 :: s) = Ok v -> exists l, v = PList l.
Proof.
  unfold Json.loads, Json.loads_within.
  change (Json.skip_ws (91 :: s)) with (91 :: s).
  change (2 * length (91%Z :: s) + 2)%nat
    with (S (length s + S (length s + 0) + 2))%nat.
  change Json.max_nesting with (S (Nat.pred Json.max_nesting)).
  cbn [Json.scan_once].
  set (fuel := (length s + S (length s + 0) + 2)%nat).
  set (depth := Nat.pred Json.max_nesting).
  assert (H : forall r,
    match Json.skip_ws s with
    | 93 :: rest' => Ok (PList [], rest')
    | rest' => Json.scan_array fuel depth rest' []
    end = Ok r -> exists l, fst r = PList l).
  { intros [v' rest]. destruct (Json.skip_ws s) as [|c r].
    - intros H. exact (scan_array_list _ _ _ _ _ _ H).
    - case_char;
        first [intros [= <- _]; eexists; reflexivity
              | intros H; exact (scan_array_list _ _ _ _ _ _ H)]. }
  destruct (match Json.skip_ws s with
            | 93 :: rest' => Ok (PList [], rest')
            | rest' => Json.scan_array fuel depth rest' []
            end) as [[v' rest]|] eqn:E; [|discriminate].
  destruct (H _ eq_refl) as [l Hl]. cbn [fst] in Hl. subst v'.
  destruct (Json.skip_ws rest); [|discriminate].
  intros [= <-]. exists l. reflexivity.
Qed.

(** X15. With the JSON decoder, the problems value of every extracted
    session is a list: the decoder is only given texts that start with
    [[], on which it returns a list or raises. The row builder therefore
    loops over the entries of the array and over nothing else. *)
Theorem extracted_problems_list raw sessions r :
  extract_session_records Json.loads raw = Ok sessions ->
  In r sessions ->
  exists entries,
    problems r = PList entries
    /\ py_iter (if py_truthy (problems r) then problems r else PList [])
       = Ok entries.
Proof.
  unfold extract_session_records.
  destruct (_ =? -1); [discriminate|].
  intros H Hr.
  destruct (extract_loop_records Json.loads _ _ _ H r Hr)
    as [[] | (rec & j & v & Hin & Hd & Hj & Hs)].
  destruct (parse_record_accepted Json.loads rec j Hd)
    as [_ (lb & rb & Hb & -> & _)].
  destruct (json_bounds_regions rec lb rb Hb) as (_ & (mid & Hmid) & _).
  rewrite Hmid in Hj. destruct (loads_bracket _ _ Hj) as [l ->].
  unfold session_of_chunk in Hs. rewrite Hb in Hs. injection Hs as <-.
  cbn [problems session_fields]. exists l. split; [reflexivity|].
  destruct l; reflexivity.
Qed.

End DecodedProblems.

(** ** The written sheet *)

Section Sheet.

Lemma csv_read_plain f :
  forall cur rest fields rows,
  existsb csv_special f = false ->
  csv_read (f ++ rest) (InPlain cur) fields rows
  = csv_read rest (InPlain (cur ++ f)) fields rows.
Proof.
  induction f as [|c f IH]; intros cur rest fields rows Hf.
  - rewrite app_nil_r. reflexivity.
  - cbn [existsb] in Hf. apply orb_false_iff in Hf as [Hc Hf].
    unfold csv_special in Hc. rewrite !orb_false_iff in Hc.
    destruct Hc as [[[H44 H34] H13] H10].
    cbn [app csv_read]. rewrite H44, H13, IH by exact Hf.
    rewrite <- app_assoc. reflexivity.
Qed.

Lemma csv_read_quoted f :
  forall cur rest fields rows,
  csv_read (csv_double_quotes f ++ rest) (InQuoted cur) fields rows
  = csv_read rest (InQuoted (cur ++ f)) fields rows.
Proof.
  induction f as [|c f IH]; intros cur rest fields rows.
  - rewrite app_nil_r. reflexivity.
  - unfold csv_double_quotes. cbn [flat_map]. fold (csv_double_quotes f).
    destruct (c =? 34) eqn:E.
    + apply Z.eqb_eq in E. subst c. cbn [app csv_read].
      change (34 =? 34) with true. cbn iota.
      rewrite IH, <- app_assoc. reflexivity.
    + cbn [app csv_read]. rewrite E, IH, <- app_assoc. reflexivity.
Qed.

(** A written field followed by a comma or by the end of the line. *)
Lemma csv_read_field f first fields rows rest d :
  d = 44 \/ d = 13 ->
  ~ (f = [] /\ first = true /\ d = 13) ->
  csv_read (csv_field f ++ d :: rest) (AtField first) fields rows
  = if d =? 44 then csv_read rest (AtField false) (fields ++ [f]) rows
    else csv_read rest AfterCR [] (rows ++ [fields ++ [f]]).
Proof.
  intros Hd Hex. unfold csv_field.
  destruct (existsb csv_special f) eqn:Hf.
  - rewrite <- !app_assoc. cbn [app csv_read].
    change (34 =? 34) with true. cbn iota.
    rewrite csv_read_quoted. cbn [app csv_read].
    change (34 =? 34) with true. cbn iota.
    destruct Hd as [-> | ->]; reflexivity.
  - destruct f as [|c f].
    + cbn [app csv_read].
      destruct Hd as [-> | ->]; [reflexivity|].
      change (13 =? 34) with false. change (13 =? 44) with false.
      change (13 =? 13) with true. cbn iota.
      destruct first; [|reflexivity]. exfalso. apply Hex. auto.
    + cbn [existsb] in Hf. apply orb_false_iff in Hf as [Hc Hf].
      unfold csv_special in Hc. rewrite !orb_false_iff in Hc.
      destruct Hc as [[[H44 H34] H13] H10].
      cbn [app csv_read]. rewrite H34, H44, H13.
      rewrite csv_read_plain by exact Hf. cbn [app csv_read].
      destruct Hd as [-> | ->]; reflexivity.
Qed.

Lemma csv_read_join row :
  forall first fields rows rest,
  row <> [] ->
  (first = true -> row <> [[]]) ->
  csv_read (csv_join row ++ 13 :: 10 :: rest) (AtField first) fields rows
  = csv_read rest (AtField true) [] (rows ++ [fields ++ row]).
Proof.
  induction row as [|f row IH]; intros first fields rows rest Hne Hone;
    [congruence|].
  destruct row as [|f2 row].
  - cbn [csv_join]. rewrite csv_read_field; [reflexivity|auto|].
    intros (-> & -> & _). exact (Hone eq_refl eq_refl).
  - change (csv_join (f :: f2 :: row))
      with (csv_field f ++ [44] ++ csv_join (f2 :: row)).
    rewrite <- !app_assoc. cbn [app].
    rewrite csv_read_field; [|auto|intros (_ & _ & H); discriminate H].
    change (44 =? 44) with true. cbn iota.
    rewrite IH; [|discriminate|discriminate].
    rewrite <- app_assoc. reflexivity.
Qed.

Lemma csv_read_row row rows rest :
  csv_read (csv_writerow row ++ rest) (AtField true) [] rows
  = csv_read rest (AtField true) [] (rows ++ [row]).
Proof.
  unfold csv_writerow.
  destruct row as [|f row]; [reflexivity|].
  destruct f as [|c f]; [destruct row as [|f2 row]; [reflexivity|]|];
    rewrite <- app_assoc; cbn [app];
    rewrite csv_read_join; try reflexivity; try discriminate.
Qed.

Lemma csv_read_rows written :
  forall rows rest,
  csv_read (csv_writerows written ++ rest) (AtField true) [] rows
  = csv_read rest (AtField true) [] (rows ++ written).
Proof.
  induction written as [|row written IH]; intros rows rest.
  - rewrite app_nil_r. reflexivity.
  - unfold csv_writerows. cbn [flat_map]. fold (csv_writerows written).
    rewrite <- app_assoc, csv_read_row, IH, <- app_assoc. reflexivity.
Qed.

(** X16. The sheet loses nothing: the written text can be read back to the
    header followed by the rows, field for field, whatever characters the
    fields hold, so two different lists of rows never give the same
    file. *)
Theorem sheet_text_round_trip :
  (forall rows,
      csv_read (sheet_text rows) (AtField true) [] []
      = Some (PROB_SHEET_HEADER :: rows))
  /\ (forall rows1 rows2, sheet_text rows1 = sheet_text rows2 -> rows1 = rows2).
Proof.
  assert (H : forall rows,
      csv_read (sheet_text rows) (AtField true) [] []
      = Some (PROB_SHEET_HEADER :: rows)).
  { intros rows. unfold sheet_text.
    rewrite csv_read_row. rewrite <- (app_nil_r (csv_writerows rows)).
    rewrite csv_read_rows. reflexivity. }
  split; [exact H|].
  intros rows1 rows2 E. pose proof (H rows1) as H1.
  rewrite E, H in H1. congruence.
Qed.

End Sheet.

(** ** The outcomes of [main] *)

Section Main.

Ltac raise_cases :=
  repeat match goal with
         | |- context [match ?x with _ => _ end] => destruct x eqn:?
         | |- context [if ?b then _ else _] => destruct b eqn:?
         end.

Lemma decode_error_cases depth :
  Json.decode_error depth = JSONDecodeError
  \/ Json.decode_error depth = RecursionError.
Proof.
  unfold Json.decode_error. destruct (_ <=? _)%nat; auto.
Qed.

Lemma scan_number_raises s e :
  Json.scan_number s = Raise e ->
  e = JSONDecodeError
  \/ exists digits,
       (int_max_str_digits < digits)%nat /\ e = Json.digits_error digits.
Proof.
  unfold Json.scan_number. raise_cases; intros [= <-]; auto.
  right. eexists. split; [|reflexivity]. apply Nat.ltb_lt. assumption.
Qed.

(** The exceptions of the scanner: the decoder's own, the error of [int]
    on a numeral of too many digits and the interpreter's on too many open
    calls. *)
Lemma scan_raises fuel :
  let decoder_exn e :=
    e = JSONDecodeError \/ e = RecursionError
    \/ exists digits,
         (int_max_str_digits < digits)%nat /\ e = Json.digits_error digits in
  (forall depth s e, Json.scan_once fuel depth s = Raise e -> decoder_exn e)
  /\ (forall depth s acc e,
         Json.scan_object fuel depth s acc = Raise e -> decoder_exn e)
  /\ (forall depth s acc e,
         Json.scan_array fuel depth s acc = Raise e -> decoder_exn e).
Proof.
  cbn zeta. induction fuel as [|fuel (IHonce & IHobj & IHarr)].
  - repeat split; intros; left; cbn in *; congruence.
  - assert (Hd : forall depth e,
        Raise (A := pyval * str) (Json.decode_error depth) = Raise e ->
        e = JSONDecodeError \/ e = RecursionError
        \/ exists digits,
             (int_max_str_digits < digits)%nat /\ e = Json.digits_error digits).
    { intros depth e [= <-].
      destruct (decode_error_cases depth) as [-> | ->]; auto. }
    split; [|split].
    + intros depth s e. cbn [Json.scan_once].
      destruct s as [|c rest]; [intros [= <-]; auto|].
      unfold Json.parse_constant.
      raise_cases;
        first [ discriminate
              | apply Hd
              | apply IHobj
              | apply IHarr
              | intros [= <-]; auto; fail
              | intros H; apply scan_number_raises in H as [-> | H]; auto ].
    + intros depth s acc e. cbn [Json.scan_object].
      raise_cases;
        first [ discriminate
              | apply Hd
              | apply IHobj
              | intros [= <-]; eapply IHonce; eassumption ].
    + intros depth s acc e. cbn [Json.scan_array].
      raise_cases;
        first [ discriminate
              | apply Hd
              | apply IHarr
              | intros [= <-]; eapply IHonce; eassumption ].
Qed.

Lemma loads_raises s e :
  Json.loads s = Raise e ->
  e = JSONDecodeError \/ e = RecursionError
  \/ exists digits,
       (int_max_str_digits < digits)%nat /\ e = Json.digits_error digits.
Proof.
  unfold Json.loads, Json.loads_within.
  destruct (Json.scan_once _ _ _) as [[v rest]|e0] eqn:E.
  - raise_cases; intros [= <-]; auto.
  - apply (proj1 (scan_raises _)) in E.
    raise_cases; intros [= <-]; auto.
Qed.

Lemma problem_row_raises session idx p e :
  problem_row session idx p = Raise e -> e = AttributeError \/ e = TypeError.
Proof.
  destruct p as [| | | | |items|d]; try (intros [= <-]; auto).
  unfold problem_row. cbn [py_get bind].
  destruct (is_unknown _); cbn [bind]; [discriminate|].
  destruct (match dict_get d (lit "question") with
            | Some v => v
            | None => PStr []
            end) as [| | | |q| |]; try (intros [= <-]; auto).
  cbn [is_final_missed bind].
  destruct (startswith q (lit "final-missed-")); [discriminate|].
  cbn [parse_question_of bind].
  destruct (op_type_name _) as [name|e'] eqn:En; cbn [bind].
  - destruct (parse_question q) as [[[? ?] ?]|];
      destruct (_ || _); discriminate.
  - destruct (parse_question q) as [[[? ?] ?]|]; intros [= <-];
    destruct (match dict_get d (lit "operationType") with
              | Some v => v
              | None => PStr []
              end); cbn [op_type_name] in En; try discriminate;
      injection En as <-; auto.
Qed.

Lemma problems_loop_raises session ps :
  forall idx rows e,
  problems_loop session idx ps rows = Raise e ->
  e = AttributeError \/ e = TypeError.
Proof.
  induction ps as [|p ps IH]; intros idx rows e; cbn [problems_loop];
    [discriminate|].
  destruct (problem_row session idx p) as [[row|]|e'] eqn:E; cbn [bind].
  - apply IH.
  - apply IH.
  - intros [= <-]. exact (problem_row_raises _ _ _ _ E).
Qed.

Lemma sessions_loop_raises sessions :
  forall rows e,
  sessions_loop sessions rows = Raise e -> e = AttributeError \/ e = TypeError.
Proof.
  induction sessions as [|s sessions IH]; intros rows e; cbn [sessions_loop];
    [discriminate|].
  destruct (py_iter _) as [ps|e'] eqn:Ei; cbn [bind].
  - destruct (problems_loop s 1 ps rows) as [rows'|e''] eqn:E; cbn [bind].
    + apply IH.
    + intros [= <-]. exact (problems_loop_raises _ _ _ _ _ E).
  - intros [= <-]. right.
    destruct (if py_truthy (problems s) then problems s else PList []);
      cbn [py_iter] in Ei; congruence.
Qed.

(** X17. The outcomes of [main] on a text: it returns 3 exactly when the
    extraction raises, which is for a missing header, for a bracketed text
    that is not JSON, for an integer of more than 4300 digits in it, or for
    arrays and objects nested deeper than the interpreter allows (994 deep
    and not 993), and each of the four happens; an exception of the row
    builder is not caught and
    is an [AttributeError] or a [TypeError]; and when it returns 0, the file
    reads back to the header followed by as many rows as it reports, each
    of twelve fields. *)
Theorem main_outcomes :
  (forall raw,
      main false raw = Return2
      /\ (forall e,
             main true raw = Return3 e <->
             extract_session_records Json.loads raw = Raise e)
      /\ (forall e,
             main true raw = Return3 e ->
             e = ValueError "Session header not found in input."
             \/ e = JSONDecodeError \/ e = RecursionError
             \/ exists digits,
                  (int_max_str_digits < digits)%nat
                  /\ e = Json.digits_error digits)
      /\ (forall e,
             main true raw = Uncaught e -> e = AttributeError \/ e = TypeError)
      /\ (forall written count,
             main true raw = Return0 written count ->
             exists rows,
               csv_read written (AtField true) [] []
               = Some (PROB_SHEET_HEADER :: rows)
               /\ length rows = count
               /\ Forall (fun row => length row = length PROB_SHEET_HEADER) rows))
  /\ main true (lit "t,c,u,1,2,[]")
     = Return3 (ValueError "Session header not found in input.")
  /\ main true (SESSION_HEADER ++ lit "t,c,u,1,2,[oops]") = Return3 JSONDecodeError
  /\ main true (SESSION_HEADER ++ lit "t,c,u,1,2,[" ++ repeat 49 4301 ++ lit "]")
     = Return3 (Json.digits_error 4301)
  /\ main true (SESSION_HEADER ++ lit "t,c,u,1,2," ++ repeat 91 994 ++ repeat 93 994)
     = Return3 RecursionError
  /\ main true (SESSION_HEADER ++ lit "t,c,u,1,2," ++ repeat 91 993 ++ repeat 93 993)
     = Uncaught AttributeError.
Proof.
  split; [|repeat split; vm_compute; reflexivity].
  intros raw. unfold main. cbn [negb].
  split; [reflexivity|].
  destruct (extract_session_records Json.loads raw) as [sessions|e0] eqn:He.
  - destruct (build_problem_sheet_rows sessions) as [rows|e1] eqn:Hb.
    + repeat split; try discriminate.
      intros written count [= <- <-]. exists rows. repeat split.
      * unfold sheet_text. rewrite csv_read_row.
        rewrite <- (app_nil_r (csv_writerows rows)), csv_read_rows. reflexivity.
      * apply Forall_forall. intros row Hrow.
        destruct (sessions_loop_origin sessions [] rows row Hb Hrow)
          as [[] | (s & idx & p & _ & _ & Hp)].
        exact (problem_row_length s idx p row Hp).
    + repeat split; try discriminate.
      intros e [= <-]. exact (sessions_loop_raises _ _ _ Hb).
  - repeat split; try discriminate; try congruence.
    intros e [= <-].
    unfold extract_session_records in He.
    destruct (_ =? -1); [left; congruence|right].
    destruct (extract_loop_raise Json.loads _ _ _ He) as (rec & j & _ & _ & Hj).
    exact (loads_raises _ _ Hj).
Qed.

Lemma main_outcomes_witness :
  let raw := SESSION_HEADER ++ lit "t,c,u,1,2,[7]" in
  main true raw = Uncaught AttributeError
  /\ (AttributeError = AttributeError \/ AttributeError = TypeError).
Proof.
  intros raw.
  assert (H : main true raw = Uncaught AttributeError) by (vm_compute; reflexivity).
  split; [exact H|].
  exact (proj1 (proj2 (proj2 (proj2 (proj1 main_outcomes raw)))) AttributeError H).
Defined.

(** X18. Two groups of records on the two sides of a delimiter: [main]
    writes a sheet for the whole text exactly when it writes one for each
    side, and the sheet of the whole is then the sheet of the first side
    followed by the rows of the second, the count being the sum. *)
Theorem main_on_two_groups a b :
  (forall written count,
      main true (SESSION_HEADER ++ a ++ lit "<>" ++ b) = Return0 written count ->
      exists w1 n1 w2 n2,
        main true (SESSION_HEADER ++ a) = Return0 w1 n1
        /\ main true (SESSION_HEADER ++ b) = Return0 w2 n2)
  /\ (forall rows1 rows2,
         (sessions <- extract_session_records Json.loads (SESSION_HEADER ++ a) ;;
          build_problem_sheet_rows sessions) = Ok rows1 ->
         (sessions <- extract_session_records Json.loads (SESSION_HEADER ++ b) ;;
          build_problem_sheet_rows sessions) = Ok rows2 ->
         main true (SESSION_HEADER ++ a ++ lit "<>" ++ b)
         = Return0 (sheet_text rows1 ++ csv_writerows rows2)
             (length rows1 + length rows2)).
Proof.
  pose proof (proj1 (extract_records_concat_helper Json.loads a b)) as Hcat.
  unfold main. cbn [negb]. rewrite Hcat.
  destruct (extract_session_records Json.loads (SESSION_HEADER ++ a)) as [s1|e1];
    cbn [bind]; [|split; [discriminate|intros ? ? [=]]].
  destruct (extract_session_records Json.loads (SESSION_HEADER ++ b)) as [s2|e2];
    cbn [bind]; [|split; [discriminate|intros ? ? _ [=]]].
  assert (Hb : build_problem_sheet_rows (s1 ++ s2)
               = (r1 <- build_problem_sheet_rows s1 ;;
                  r2 <- build_problem_sheet_rows s2 ;; Ok (r1 ++ r2))).
  { unfold build_problem_sheet_rows. rewrite sessions_loop_app.
    destruct (sessions_loop s1 []) as [r1|e]; cbn [bind]; [|reflexivity].
    apply sessions_loop_acc. }
  rewrite Hb.
  destruct (build_problem_sheet_rows s1) as [r1|e1]; cbn [bind];
    [|split; [discriminate|intros ? ? [=]]].
  destruct (build_problem_sheet_rows s2) as [r2|e2]; cbn [bind];
    [|split; [discriminate|intros ? ? _ [=]]].
  split.
  - intros written count _. do 4 eexists. split; reflexivity.
  - intros rows1 rows2 [= <-] [= <-]. unfold sheet_text, csv_writerows.
    rewrite flat_map_app, <- app_assoc, length_app. reflexivity.
Qed.

Lemma main_on_two_groups_witness :
  let a := jlit "t,c,u,1,2,[{'question':'1+2'}]" in
  let b := jlit "v,c,u,3,4,[{'question':'3*4'}],M" in
  exists written count,
    main true (SESSION_HEADER ++ a ++ lit "<>" ++ b) = Return0 written count
    /\ exists w1 n1 w2 n2,
         main true (SESSION_HEADER ++ a) = Return0 w1 n1
         /\ main true (SESSION_HEADER ++ b) = Return0 w2 n2.
Proof.
  intros a b.
  destruct (main true (SESSION_HEADER ++ a ++ lit "<>" ++ b))
    as [| |written count|] eqn:E; try (vm_compute in E; discriminate E).
  exists written, count. split; [reflexivity|].
  exact (proj1 (main_on_two_groups a b) written count E).
Defined.

End Main.

(** ** Examples of the further properties *)

Section MoreExamples.

Lemma extracted_problems_list_witness :
  let raw := SESSION_HEADER ++ jlit "t,c,u,1,2,[{'question':'1+2'},7]" in
  let s := session_fields [lit "t"; lit "c"; lit "u"; lit "1"; lit "2"] []
             (PList [PDict [(lit "question", PStr (lit "1+2"))]; PInt 7]) in
  extract_session_records Json.loads raw = Ok [s]
  /\ exists entries, problems s = PList entries
                     /\ py_iter (if py_truthy (problems s) then problems s
                                 else PList []) = Ok entries.
Proof.
  intros raw s.
  assert (He : extract_session_records Json.loads raw = Ok [s])
    by (vm_compute; reflexivity).
  split; [exact He|].
  exact (extracted_problems_list raw [s] s He (or_introl eq_refl)).
Defined.

Lemma sheet_text_round_trip_witness :
  let rows := [[lit "a,b"; [34]; []]; [[]]; []; [lit "x"; [13; 10]]] in
  csv_read (sheet_text rows) (AtField true) [] []
  = Some (PROB_SHEET_HEADER :: rows).
Proof.
  intros rows. exact (proj1 sheet_text_round_trip rows).
Defined.

Lemma extract_records_concat_witness :
  extract_session_records Json.loads
    (SESSION_HEADER ++ lit "a,b,c,1,2,[]" ++ lit "<>")
  = extract_session_records Json.loads (SESSION_HEADER ++ lit "a,b,c,1,2,[]").
Proof.
  exact (proj2 (extract_records_concat Json.loads (lit "a,b,c,1,2,[]") [])).
Defined.

End MoreExamples.

(** ** Trimmed fields *)

Section TrimmedFields.

Lemma drop_while_id p s :
  (forall c t, s = c :: t -> p c = false) -> drop_while p s = s.
Proof.
  destruct s as [|c s]; [reflexivity|]. intros H. cbn [drop_while].
  rewrite (H c s eq_refl). reflexivity.
Qed.

Lemma rstrip_by_id p s :
  (forall t c, s = t ++ [c] -> p c = false) -> rstrip_by p s = s.
Proof.
  intros H. unfold rstrip_by. rewrite drop_while_id; [apply rev_involutive|].
  intros c t E. apply (H (rev t) c).
  rewrite <- (rev_involutive s), E. reflexivity.
Qed.

Lemma strip_idempotent s : strip (strip s) = strip s.
Proof.
  unfold strip at 1. unfold lstrip_by.
  set (u := strip s).
  assert (Hhead : forall c t, u = c :: t -> is_space c = false).
  { intros c t E. unfold u, strip, lstrip_by in E.
    destruct (rstrip_by_spec is_space (drop_while is_space s)) as (tail & Ht & _).
    destruct (drop_while_spec is_space s) as (_ & _ & _ & Hfirst).
    rewrite E in Ht. cbn [app] in Ht. exact (Hfirst c _ Ht). }
  assert (Hlast : forall t c, u = t ++ [c] -> is_space c = false).
  { intros t c E. unfold u, strip in E.
    destruct (rstrip_by_spec is_space (lstrip_by is_space s)) as (_ & _ & _ & Hl).
    exact (Hl t c E). }
  rewrite (drop_while_id is_space u Hhead).
  exact (rstrip_by_id is_space u Hlast).
Qed.

Lemma field_trimmed (l : list str) i :
  (forall f, In f l -> strip f = f) -> strip (nth i l []) = nth i l [].
Proof.
  intros H. destruct (nth_in_or_default i l []) as [Hin | ->]; [auto|reflexivity].
Qed.

(** X19. The text fields of every extracted session are trimmed: timestamp,
    client_id, url and mode have no whitespace at their ends, stripping
    them again changes nothing. *)
Theorem extracted_fields_trimmed json_loads raw sessions r :
  extract_session_records json_loads raw = Ok sessions ->
  In r sessions ->
  strip (timestamp r) = timestamp r /\ strip (client_id r) = client_id r
  /\ strip (url r) = url r /\ strip (mode r) = mode r.
Proof.
  unfold extract_session_records.
  destruct (_ =? -1); [discriminate|].
  intros H Hr.
  destruct (extract_loop_records json_loads _ _ _ H r Hr)
    as [[] | (rec & j & v & Hin & Hd & Hj & Hs)].
  destruct (parse_record_accepted json_loads rec j Hd)
    as [_ (lb & rb & Hb & -> & _)].
  unfold session_of_chunk in Hs. rewrite Hb in Hs. injection Hs as <-.
  assert (Hmap : forall s f, In f (map strip (split s [44])) -> strip f = f).
  { intros s f Hf. apply in_map_iff in Hf as (piece & <- & _).
    apply strip_idempotent. }
  assert (Hpf : forall f, In f (prefix_fields_of (prefix_of rec lb)) -> strip f = f)
    by (intros f Hf; exact (Hmap _ f Hf)).
  assert (Hsf : forall f, In f (suffix_fields_of (suffix_of rec rb)) -> strip f = f).
  { intros f Hf. unfold suffix_fields_of in Hf. apply filter_In in Hf as [Hf _].
    exact (Hmap _ f Hf). }
  cbn [session_fields timestamp client_id url mode].
  repeat split; apply field_trimmed; assumption.
Qed.

Lemma extracted_fields_trimmed_witness :
  let raw := SESSION_HEADER ++ lit "  t 1 , c ,u,1,2, [] , M " in
  let s := session_fields [lit "t 1"; lit "c"; lit "u"; lit "1"; lit "2"]
             [lit "M"] (PList []) in
  extract_session_records Json.loads raw = Ok [s]
  /\ strip (timestamp s) = timestamp s /\ strip (mode s) = mode s.
Proof.
  intros raw s.
  assert (He : extract_session_records Json.loads raw = Ok [s])
    by (vm_compute; reflexivity).
  split; [exact He|].
  destruct (extracted_fields_trimmed Json.loads raw [s] s He (or_introl eq_refl))
    as (H1 & _ & _ & H4).
  exact (conj H1 H4).
Defined.

End TrimmedFields.
